(** * De-FIR submission pipeline: a shallow embedding and its properties

    The development follows the backend of the repository:

    - [JSNumber]: the JavaScript number type (IEEE 754 binary64) with the
      operations the services use, built on the executable specification
      of binary64 arithmetic of the standard library ([SpecFloat]);
    - [Text]: strings as sequences of code units, the regular-expression
      replacements and [trim] used by the three text cleaners;
    - [ML]: [backend/services/ml.js], the agreement scorer;
    - [OCR], [STT]: the text cleaners and the fallback transcriber;
    - [Registry]: [contracts/FIRRegistry.sol], with the role functions
      it inherits from [AccessControl];
    - [Server]: the [POST /api/submitFIR] handler of [backend/server.js];
    - [Blockchain]: the ledger client of [backend/services/blockchain.js];
    - [Validation]: the middleware [validateFIRSubmission];
    - [Spec], [Demo]: the mathematical counterparts used in the statements
      and one concrete deployment on which the handler can be run;
    - [Sign], [CleanShape], [Trace], [Ledger]: the predicates the
      statements are written with: the sign of a number, the shape of a
      cleaned text, the order of the calls of one submission, and the
      states a deployed contract can reach.

    The properties follow the definitions: the contract, [CleanFacts],
    [ServerFacts], [MLFacts], the rounding analysis of [FloatFacts] that
    [ScoreFacts] relies on, and [Examples] with the concrete runs; then
    [LedgerFacts] on the reachable states of the contract,
    [DistanceFacts], [VocabularyFacts] and [RangeFacts] on the metrics of
    the scorer, [CleaningFacts] on the three cleaners, [SectionFacts],
    [HandlerFacts], [ClientFacts], [ValidationFacts], [TranscriberFacts],
    and [MoreExamples] with their concrete runs.

    Conventions.  A JavaScript string is a [string]; an [ascii] stands for
    the code unit with the same number (U+0000 to U+00FF).  Numbers that
    the code only ever uses as integers (array lengths, term counts, the
    cells of the edit-distance matrix) are kept in [Z]; a double represents
    every integer below [2^53] exactly.  They are converted to binary64
    with [of_Z] where the code divides or takes a square root. *)

From Stdlib Require Import Reals Lra Psatz.
From Stdlib Require Import ZArith List String Ascii Bool Lia Permutation.
From Stdlib Require Import SpecFloat.
Import ListNotations.
Open Scope Z_scope.

(** ** JavaScript numbers *)

Module JSNumber.

Definition prec : Z := 53.
Definition emax : Z := 1024.

Definition number := spec_float.

Definition NaN : number := S754_nan.
Definition of_Z (z : Z) : number := binary_normalize prec emax z 0 false.

Definition add : number -> number -> number := SFadd prec emax.
Definition mul : number -> number -> number := SFmul prec emax.
Definition div : number -> number -> number := SFdiv prec emax.
Definition sqrt : number -> number := SFsqrt prec emax.

(** [x === y] and [x >= y] on numbers. *)
Definition strict_eq (x y : number) : bool := SFeqb x y.
Definition ge (x y : number) : bool := SFleb y x.

(** [Math.round]: the closest integer, ties towards +infinity; NaN,
    infinities, zeros and integers are returned unchanged, and a result
    of zero keeps the sign of the argument. *)
Definition Math_round (x : number) : number :=
  match x with
  | S754_finite s m e =>
      if 0 <=? e then x
      else
        let k := - e in
        let n := if s then Zneg m else Zpos m in
        let r := (2 * n + 2 ^ k) / 2 ^ (k + 1) in
        if r =? 0 then S754_zero s else of_Z r
  | _ => x
  end.

(** [Math.max] and [Math.min] of two numbers: NaN if either is NaN, and
    [+0] counts as larger than [-0]. *)
Definition Math_max (x y : number) : number :=
  match SFcompare x y with
  | None => NaN
  | Some Lt => y
  | Some Gt => x
  | Some Eq =>
      match x, y with
      | S754_zero true, S754_zero false => y
      | _, _ => x
      end
  end.

Definition Math_min (x y : number) : number :=
  match SFcompare x y with
  | None => NaN
  | Some Lt => x
  | Some Gt => y
  | Some Eq =>
      match x, y with
      | S754_zero false, S754_zero true => y
      | _, _ => x
      end
  end.

(** The integer a number stands for, when it is one. *)
Definition to_Z (x : number) : option Z :=
  match x with
  | S754_zero _ => Some 0
  | S754_finite s m e =>
      if 0 <=? e then Some ((if s then Zneg m else Zpos m) * 2 ^ e)
      else if (Zpos m) mod 2 ^ (- e) =? 0
           then Some ((if s then Zneg m else Zpos m) / 2 ^ (- e))
           else None
  | _ => None
  end.

End JSNumber.

(** ** Strings *)

Module Text.

Definition chars (s : string) : list ascii := list_ascii_of_string s.
Definition of_chars (l : list ascii) : string := string_of_list_ascii l.

Definition code (c : ascii) : Z := Z.of_N (N_of_ascii c).

(** The class [\s] of a JavaScript regular expression, restricted to the
    code units below 256: tab, line feed, vertical tab, form feed,
    carriage return, space and no-break space.  [trim] strips the same
    set. *)
Definition is_space (c : ascii) : bool :=
  let n := code c in
  ((9 <=? n) && (n <=? 13)) || (n =? 32) || (n =? 160).

Definition is_upper (c : ascii) : bool :=
  let n := code c in (65 <=? n) && (n <=? 90).
Definition is_lower (c : ascii) : bool :=
  let n := code c in (97 <=? n) && (n <=? 122).
Definition is_digit (c : ascii) : bool :=
  let n := code c in (48 <=? n) && (n <=? 57).

(** The class [\w]: [A-Za-z0-9_]. *)
Definition is_word (c : ascii) : bool :=
  is_upper c || is_lower c || is_digit c || (code c =? 95).

(** [String.prototype.toLowerCase] on code units below 256: the letters
    A-Z and the Latin-1 capitals U+00C0..U+00DE (U+00D7 excepted) move up
    by 32. *)
Definition lower_char (c : ascii) : ascii :=
  let n := code c in
  if is_upper c || ((192 <=? n) && (n <=? 222) && negb (n =? 215))
  then ascii_of_N (Z.to_N (n + 32))
  else c.

Definition toLowerCase (s : string) : string :=
  of_chars (map lower_char (chars s)).

(** [s.replace(/\s+/g, r)]: every maximal run of white space becomes [r]. *)
Fixpoint replace_space_runs (r : list ascii) (in_run : bool) (l : list ascii)
  : list ascii :=
  match l with
  | [] => []
  | c :: l' =>
      if is_space c
      then (if in_run then [] else r) ++ replace_space_runs r true l'
      else c :: replace_space_runs r false l'
  end.

(** [s.replace(/c+/g, r)] for a single code unit [c]. *)
Fixpoint replace_char_runs (c0 : ascii) (r : list ascii) (in_run : bool)
  (l : list ascii) : list ascii :=
  match l with
  | [] => []
  | c :: l' =>
      if Ascii.eqb c c0
      then (if in_run then [] else r) ++ replace_char_runs c0 r true l'
      else c :: replace_char_runs c0 r false l'
  end.

(** [s.replace(/[class]/g, r)] for a class of single code units. *)
Definition replace_class (p : ascii -> bool) (r : list ascii)
  (l : list ascii) : list ascii :=
  flat_map (fun c => if p c then r else [c]) l.

Fixpoint trim_start (l : list ascii) : list ascii :=
  match l with
  | c :: l' => if is_space c then trim_start l' else l
  | [] => []
  end.

Definition trim_chars (l : list ascii) : list ascii :=
  rev (trim_start (rev (trim_start l))).

Definition space : ascii := " "%char.

(** [s.startsWith(p)] and [s.includes(p)] *)
Fixpoint starts_with (p s : list ascii) : bool :=
  match p, s with
  | [], _ => true
  | a :: p', b :: s' => Ascii.eqb a b && starts_with p' s'
  | _ :: _, [] => false
  end.

Fixpoint includes_chars (s p : list ascii) : bool :=
  starts_with p s
  || match s with
     | [] => false
     | _ :: s' => includes_chars s' p
     end.

Definition includes (s p : string) : bool := includes_chars (chars s) (chars p).

End Text.

(** ** The agreement scorer ([backend/services/ml.js]) *)

Module ML.
Import JSNumber Text.

(** A JavaScript [Set] of strings: its elements in insertion order. *)
Definition Set_has (s : list string) (x : string) : bool :=
  existsb (String.eqb x) s.

Definition Set_add (s : list string) (x : string) : list string :=
  if Set_has s x then s else s ++ [x].

Definition Set_of (l : list string) : list string :=
  fold_left Set_add l [].

Definition size {A} (l : list A) : Z := Z.of_nat (List.length l).

Definition stopWords : list string :=
  Set_of
  ["the"; "a"; "an"; "and"; "or"; "but"; "in"; "on"; "at"; "to"; "for";
   "of"; "with"; "by";
   "is"; "are"; "was"; "were"; "be"; "been"; "being"; "have"; "has"; "had";
   "do"; "does"; "did";
   "will"; "would"; "could"; "should"; "may"; "might"; "must"; "can";
   "this"; "that"; "these"; "those";
   "i"; "you"; "he"; "she"; "it"; "we"; "they"; "me"; "him"; "her"; "us";
   "them"; "my"; "your"; "his"; "her"; "its"; "our"; "their"]%string.

Definition removeStopWords (tokens : list string) : list string :=
  filter (fun token =>
            negb (Set_has stopWords token)
            && (2 <? Z.of_nat (String.length token)))
         tokens.

Definition calculateJaccardSimilarity (words1 words2 : list string) : number :=
  let set1 := Set_of words1 in
  let set2 := Set_of words2 in
  let intersection := Set_of (filter (Set_has set2) set1) in
  let union := Set_of (set1 ++ set2) in
  div (of_Z (size intersection)) (of_Z (size union)).

(** [words.filter(w => w === word).length] *)
Definition occurrences (words : list string) (word : string) : Z :=
  size (filter (fun w => String.eqb w word) words).

Definition calculateCosineSimilarity (words1 words2 : list string) : number :=
  let allWords := Set_of (words1 ++ words2) in
  let vector1 := map (occurrences words1) allWords in
  let vector2 := map (occurrences words2) allWords in
  let dotProduct :=
    fold_left (fun sum '(val, val2) => sum + val * val2)
              (combine vector1 vector2) 0 in
  let magnitude1 :=
    sqrt (of_Z (fold_left (fun sum val => sum + val * val) vector1 0)) in
  let magnitude2 :=
    sqrt (of_Z (fold_left (fun sum val => sum + val * val) vector2 0)) in
  if strict_eq magnitude1 (of_Z 0) || strict_eq magnitude2 (of_Z 0)
  then of_Z 0
  else div (of_Z dotProduct) (mul magnitude1 magnitude2).

(** One row of the edit-distance matrix.  [c2] is [str2.charAt(i - 1)],
    [prev] is what is left of row [i - 1] from column [j - 1] on, and
    [left] is [matrix[i][j - 1]]; the result is row [i] from column [j]. *)
Fixpoint lev_row (c2 : ascii) (str1 : list ascii) (prev : list Z) (left : Z)
  : list Z :=
  match str1, prev with
  | c1 :: str1', diag :: ((up :: _) as prev') =>
      let cell :=
        if Ascii.eqb c2 c1 then diag
        else Z.min (diag + 1) (Z.min (left + 1) (up + 1)) in
      cell :: lev_row c2 str1' prev' cell
  | _, _ => []
  end.

(** Rows [i], [i + 1], ... of the matrix, given row [i - 1]. *)
Fixpoint lev_rows (str1 str2 : list ascii) (i : Z) (prev : list Z)
  : list (list Z) :=
  match str2 with
  | [] => []
  | c2 :: str2' =>
      let row := i :: lev_row c2 str1 prev i in
      row :: lev_rows str1 str2' (i + 1) row
  end.

(** Row 0: [matrix[0][j] = j]. *)
Fixpoint first_row (str1 : list ascii) (j : Z) : list Z :=
  match str1 with
  | [] => [j]
  | _ :: str1' => j :: first_row str1' (j + 1)
  end.

Definition lev_matrix (str1 str2 : list ascii) : list (list Z) :=
  let row0 := first_row str1 0 in
  row0 :: lev_rows str1 str2 1 row0.

Definition calculateLevenshteinDistance (str1 str2 : string) : Z :=
  let matrix := lev_matrix (chars str1) (chars str2) in
  nth (String.length str1) (nth (String.length str2) matrix []) 0.

Definition findCommonWords (words1 words2 : list string) : list string :=
  let set1 := Set_of words1 in
  let set2 := Set_of words2 in
  filter (Set_has set2) set1.

(** [cleanText]: lower case, every code unit outside [\w\s] becomes a
    space, runs of white space become one space, then [trim]. *)
Definition cleanText (text : string) : string :=
  of_chars
    (trim_chars
       (replace_space_runs [space] false
          (replace_class (fun c => negb (is_word c || is_space c)) [space]
             (chars (toLowerCase text))))).

Record SimilarityResult := {
  score : number;
  method : string;
  jaccardSimilarity : number;
  cosineSimilarity : number;
  levenshteinDistance : Z;
  commonWords : Z
}.

(** What the external scorer printed, as far as the service reads it:
    [similarity_score] (NaN when the key is missing, as [undefined * 100]
    is), and the keys [score] and [method] when the output has them. *)
Record PythonOutput := {
  similarity_score : number;
  own_score : option number;
  own_method : option string
}.

Section Tokenizer.

(** [natural.WordTokenizer#tokenize], a dependency of the service. *)
Variable tokenize : string -> list string.

Definition surviving_words (text : string) : list string :=
  removeStopWords (tokenize (toLowerCase text)).

(** The number handed to [Math.round] in [calculateSimilarityFallback]. *)
Definition combined (jaccard cosine : number) (lev : Z) : number :=
  add (add (mul jaccard (of_Z 40)) (mul cosine (of_Z 40)))
      (mul (div (of_Z (Z.max 0 (100 - lev))) (of_Z 100)) (of_Z 20)).

Definition calculateSimilarityFallback (ocrText sttText : string)
  : SimilarityResult :=
  let ocrTokens := tokenize (toLowerCase ocrText) in
  let sttTokens := tokenize (toLowerCase sttText) in
  let ocrWords := removeStopWords ocrTokens in
  let sttWords := removeStopWords sttTokens in
  let jaccard := calculateJaccardSimilarity ocrWords sttWords in
  let cosine := calculateCosineSimilarity ocrWords sttWords in
  let lev := calculateLevenshteinDistance ocrText sttText in
  let common := findCommonWords ocrWords sttWords in
  let finalScore := Math_round (combined jaccard cosine lev) in
  {| score := Math_min (of_Z 100) (Math_max (of_Z 0) finalScore);
     method := "nlp-fallback";
     jaccardSimilarity := Math_round (mul jaccard (of_Z 100));
     cosineSimilarity := Math_round (mul cosine (of_Z 100));
     levenshteinDistance := lev;
     commonWords := size common |}.

(** [calculateSimilarity]: the external scorer first, the local ensemble
    when it fails.  [python] is the outcome of the external process on
    the two cleaned texts: what it printed, or [None] when the process
    cannot be started, exits with an error or prints something that does
    not parse. *)
Variable python : string -> string -> option PythonOutput.

(** [{score: Math.round(result.similarity_score * 100),
      method: 'python-ml', ...result}]: a [score] or [method] key of the
    output replaces the one computed here.  The four details are whatever
    the output holds under their names, as a rule nothing; the handler
    does not read them. *)
Definition calculateSimilarityWithPython (ocrText sttText : string)
  : option SimilarityResult :=
  match python ocrText sttText with
  | Some result =>
      Some {| score := match own_score result with
                       | Some s => s
                       | None =>
                           Math_round (mul (similarity_score result) (of_Z 100))
                       end;
              method := match own_method result with
                        | Some m => m
                        | None => "python-ml"
                        end;
              jaccardSimilarity := NaN;
              cosineSimilarity := NaN;
              levenshteinDistance := 0;
              commonWords := 0 |}
  | None => None
  end.

Definition calculateSimilarity (ocrText sttText : string) : SimilarityResult :=
  let cleanOcrText := cleanText ocrText in
  let cleanSttText := cleanText sttText in
  match calculateSimilarityWithPython cleanOcrText cleanSttText with
  | Some r => r
  | None => calculateSimilarityFallback cleanOcrText cleanSttText
  end.

End Tokenizer.

(** The tokenizer of the [natural] package splits at every run of code
    units outside [A-Za-z0-9_] and drops the empty pieces. *)
Fixpoint split_words (cur : list ascii) (l : list ascii) : list string :=
  match l with
  | [] => match cur with [] => [] | _ => [of_chars (rev cur)] end
  | c :: l' =>
      if is_word c then split_words (c :: cur) l'
      else match cur with
           | [] => split_words [] l'
           | _ => of_chars (rev cur) :: split_words [] l'
           end
  end.

Definition WordTokenizer (s : string) : list string := split_words [] (chars s).

(** The keyword table of [predictWithFallback], in the order of its
    entries. *)
Definition keywords : list (string * list string) :=
  [("theft", ["380"; "381"; "382"]);
   ("robbery", ["392"; "393"; "394"]);
   ("burglary", ["449"; "450"; "451"; "452"; "453"; "454"; "455"; "456";
                 "457"; "458"]);
   ("assault", ["320"; "321"; "322"; "323"; "324"; "325"; "326"; "327"]);
   ("murder", ["300"; "301"; "302"; "303"; "304"; "304A"; "304B"; "305";
               "306"; "307"; "308"; "309"]);
   ("rape", ["375"; "376"; "376A"; "376B"; "376C"; "376D"; "376E"]);
   ("fraud", ["415"; "416"; "417"; "418"; "419"; "420"; "421"; "422"; "423";
              "424"]);
   ("cheating", ["415"; "417"; "420"]);
   ("criminal breach of trust",
    ["405"; "406"; "407"; "408"; "409"; "410"; "411"; "412"; "413"; "414"]);
   ("extortion", ["383"; "384"; "385"; "386"; "387"; "388"; "389"]);
   ("kidnapping", ["359"; "360"; "361"; "362"; "363"; "364"; "364A"; "365";
                   "366"; "366A"; "366B"; "367"; "368"; "369"]);
   ("stalking", ["354D"]);
   ("harassment", ["354A"; "354B"; "354C"; "354D"; "509"]);
   ("domestic violence", ["498A"]);
   ("dowry", ["304B"; "498A"]);
   ("cyber crime", ["66A"; "66B"; "66C"; "66D"; "66E"; "66F"; "67"; "67A";
                    "67B"])]%string.

Definition predictWithFallback (text : string) : list string :=
  let lowerText := toLowerCase text in
  let predictedSections :=
    flat_map (fun '(keyword, sections) =>
                if includes lowerText keyword then sections else [])
             keywords in
  Set_of predictedSections.

End ML.

(** ** The two text cleaners *)

Module Clean.
Import Text.

(** The punctuation class [[.,!?;:]] of both cleaners. *)
Definition is_punct (c : ascii) : bool :=
  existsb (Ascii.eqb c) [","; "."; "!"; "?"; ";"; ":"]%char.

(** The class [[.!?]]. *)
Definition is_sentence_end (c : ascii) : bool :=
  existsb (Ascii.eqb c) ["."; "!"; "?"]%char.

(** [s.replace(/\s+([.,!?;:])/g, '$1')]: a run of white space that is
    directly followed by punctuation is dropped.  [pending] is the run
    read so far, last unit first. *)
Fixpoint drop_space_before_punct (pending : list ascii) (l : list ascii)
  : list ascii :=
  match l with
  | [] => rev pending
  | c :: l' =>
      if is_space c then drop_space_before_punct (c :: pending) l'
      else if is_punct c then c :: drop_space_before_punct [] l'
      else rev pending ++ c :: drop_space_before_punct [] l'
  end.

(** Where the scan of [/([.,!?;:])\s+/g] stands. *)
Inductive after_punct := Apart | JustAfter | InRun.

(** [s.replace(/([.,!?;:])\s+/g, '$1 ')]: the run of white space that
    follows punctuation becomes one space. *)
Fixpoint one_space_after_punct (st : after_punct) (l : list ascii)
  : list ascii :=
  match l with
  | [] => []
  | c :: l' =>
      if is_space c then
        match st with
        | Apart => c :: one_space_after_punct Apart l'
        | JustAfter => space :: one_space_after_punct InRun l'
        | InRun => one_space_after_punct InRun l'
        end
      else if is_punct c then c :: one_space_after_punct JustAfter l'
      else c :: one_space_after_punct Apart l'
  end.

(** [s.replace(/([.!?])\s*([a-z])/g, '$1 $2')]: between the end of a
    sentence and a lower-case letter that follows it, with or without
    white space, there is exactly one space.  [pending] is [None] outside
    a match attempt and the white space read after [[.!?]] inside one. *)
Fixpoint space_after_sentence (pending : option (list ascii))
  (l : list ascii) : list ascii :=
  match l with
  | [] => match pending with Some ws => rev ws | None => [] end
  | c :: l' =>
      match pending with
      | None =>
          c :: space_after_sentence
                 (if is_sentence_end c then Some [] else None) l'
      | Some ws =>
          if is_space c then space_after_sentence (Some (c :: ws)) l'
          else if is_lower c then space :: c :: space_after_sentence None l'
          else rev ws ++ c :: space_after_sentence
                                (if is_sentence_end c then Some [] else None) l'
      end
  end.

Definition newline : ascii := ascii_of_N 10.

(** White space is normal when every white-space unit is a space and no
    two of them are adjacent; [after_space] tells that a space precedes. *)
Fixpoint ws_normal (after_space : bool) (l : list ascii) : bool :=
  match l with
  | [] => true
  | c :: l' =>
      if is_space c
      then Ascii.eqb c space && negb after_space && ws_normal true l'
      else ws_normal false l'
  end.

(** No [[.!?]] is directly followed by a lower-case letter. *)
Fixpoint no_lower_after_sentence_end (l : list ascii) : bool :=
  match l with
  | c :: ((d :: _) as l') =>
      negb (is_sentence_end c && is_lower d) && no_lower_after_sentence_end l'
  | _ => true
  end.

Definition trim_end (l : list ascii) : list ascii := rev (trim_start (rev l)).

End Clean.

(** *** [OCRService.cleanText] *)

Module OCR.
Import Text Clean.

(** The units [cleanText] keeps: [[\w\s.,!?;:\-()]]. *)
Definition is_kept (c : ascii) : bool :=
  is_word c || is_space c || is_punct c
  || existsb (Ascii.eqb c) ["-"; "("; ")"]%char.

Definition cleanText (text : string) : string :=
  let s1 := replace_space_runs [space] false (chars text) in
  let s2 := replace_char_runs newline [newline] false s1 in
  let s3 := trim_chars s2 in
  let s4 := replace_class (fun c => negb (is_kept c)) [] s3 in
  let s5 := drop_space_before_punct [] s4 in
  let s6 := one_space_after_punct Apart s5 in
  let s7 := replace_space_runs [space] false s6 in
  of_chars (trim_chars s7).

End OCR.

(** ** Fallible operations *)

(** A rejected promise or a thrown [Error] carries a message. *)
Inductive Result (A : Type) : Type :=
| Ok (a : A)
| Err (message : string).
Arguments Ok {A} a.
Arguments Err {A} message.

Definition is_ok {A} (r : Result A) : bool :=
  match r with Ok _ => true | Err _ => false end.

(** The files of the upload directory: path and content. *)
Definition FileSystem := list (string * string).

Definition readFile (fs : FileSystem) (path : string) : Result string :=
  match find (fun f => String.eqb (fst f) path) fs with
  | Some f => Ok (snd f)
  | None => Err "ENOENT"
  end.

Definition file_exists (fs : FileSystem) (path : string) : bool :=
  existsb (fun f => String.eqb (fst f) path) fs.

Definition remove_file (fs : FileSystem) (path : string) : FileSystem :=
  filter (fun f => negb (String.eqb (fst f) path)) fs.

(** [fs.unlink]: removes the file, and fails when there is none. *)
Definition unlink (fs : FileSystem) (path : string) : Result FileSystem :=
  if file_exists fs path then Ok (remove_file fs path) else Err "ENOENT".

(** ** The speech transcriber *)

Module STT.
Import JSNumber Text Clean.

Definition cleanTranscription (text : string) : string :=
  let s1 := replace_space_runs [space] false (chars text) in
  let s2 := replace_char_runs newline [space] false s1 in
  let s3 := space_after_sentence None s2 in
  let s4 := drop_space_before_punct [] s3 in
  let s5 := one_space_after_punct Apart s4 in
  of_chars (trim_chars s5).

Record TranscriptionResult := {
  text : string;
  confidence : number;
  audioHash : string;
  provider : string;
  note : option string
}.

(** One entry of [response.results]: the transcript and the confidence
    of its first alternative, if it has one. *)
Definition Segment := option (string * number).

Section Service.

(** SHA-256 as a hexadecimal digest ([crypto]). *)
Variable sha256 : string -> string.

(** [this.client]: absent when no credentials were found at
    initialization; otherwise [recognize] on the content of the file. *)
Variable client : option (string -> Result (list Segment)).

Definition calculateAudioHash (fs : FileSystem) (audioPath : string) : string :=
  match readFile fs audioPath with
  | Ok content => sha256 content
  | Err _ => ""
  end.

Definition mockText : string :=
  "This is a mock transcription. Please configure Google Cloud Speech-to-Text for actual transcription. Audio file processed successfully."%string.

Definition transcribeWithFallback (fs : FileSystem) (audioPath : string)
  : Result TranscriptionResult :=
  let audioHash := calculateAudioHash fs audioPath in
  Ok {| text := mockText;
        confidence := of_Z 50;
        audioHash := audioHash;
        provider := "fallback";
        note := Some "Mock transcription - configure Google Cloud Speech-to-Text for actual transcription"%string |}.

(** [alternative.confidence || 0] *)
Definition or_zero (x : number) : number :=
  match x with
  | S754_nan | S754_zero _ => of_Z 0
  | _ => x
  end.

Definition transcribeWithGoogleCloud
  (recognize : string -> Result (list Segment))
  (fs : FileSystem) (audioPath : string) : Result TranscriptionResult :=
  match readFile fs audioPath with
  | Err e => Err e
  | Ok audioBytes =>
      let audioHash := calculateAudioHash fs audioPath in
      match recognize audioBytes with
      | Err e => Err e
      | Ok [] => Err "No transcription results received"
      | Ok results =>
          let '(fullText, totalConfidence, resultCount) :=
            fold_left
              (fun '(t, c, n) (r : Segment) =>
                 match r with
                 | Some (transcript, conf) =>
                     ((t ++ transcript ++ " ")%string, add c (or_zero conf), n + 1)
                 | None => (t, c, n)
                 end)
              results (EmptyString, of_Z 0, 0) in
          let averageConfidence :=
            if 0 <? resultCount
            then mul (div totalConfidence (of_Z resultCount)) (of_Z 100)
            else of_Z 0 in
          let cleanedText :=
            cleanTranscription (of_chars (trim_chars (chars fullText))) in
          Ok {| text := cleanedText;
                confidence := Math_round averageConfidence;
                audioHash := audioHash;
                provider := "google-cloud";
                note := None |}
      end
  end.

Definition transcribeAudio (fs : FileSystem) (audioPath : string)
  : Result TranscriptionResult :=
  match client with
  | Some recognize => transcribeWithGoogleCloud recognize fs audioPath
  | None => transcribeWithFallback fs audioPath
  end.

End Service.
End STT.

(** ** The ledger contract ([contracts/FIRRegistry.sol]) *)

Module Registry.

Definition address := string.

(** [uint256] arithmetic wraps around. *)
Definition uint256_max : Z := 2 ^ 256 - 1.
Definition wrap (z : Z) : Z := z mod 2 ^ 256.

(** A role is a [bytes32]: the three values the contract names, or any
    other value, which the functions inherited from [AccessControl] accept
    as well. *)
Inductive Role :=
| DEFAULT_ADMIN_ROLE
| VICTIM_ROLE
| GOV_ROLE
| OTHER_ROLE (value : Z).

Definition Role_eqb (a b : Role) : bool :=
  match a, b with
  | DEFAULT_ADMIN_ROLE, DEFAULT_ADMIN_ROLE
  | VICTIM_ROLE, VICTIM_ROLE
  | GOV_ROLE, GOV_ROLE => true
  | OTHER_ROLE x, OTHER_ROLE y => x =? y
  | _, _ => false
  end.

Record FIR := {
  id : Z;
  victim : address;
  ipfsCid : string;
  timestamp : Z;
  verified : bool;
  exists_ : bool;
  similarityScore : Z
}.

(** The value of a mapping at a key that was never written. *)
Definition noFIR : FIR :=
  {| id := 0; victim := EmptyString; ipfsCid := EmptyString; timestamp := 0;
     verified := false; exists_ := false; similarityScore := 0 |}.

Inductive Event :=
| FIRCreated (id : Z) (victim : address) (ipfsCid : string)
    (timestamp : Z) (similarityScore : Z)
| FIRVerified (id : Z) (verified : bool) (verifiedBy : address).

(** Storage, and the log of the events the contract declares (latest
    last); the [RoleGranted] and [RoleRevoked] events of [AccessControl]
    are not recorded. *)
Record State := {
  firCounter : Z;
  firs : Z -> FIR;
  victimFIRs : address -> list Z;
  roles : Role -> address -> bool;
  events : list Event
}.

(** The message call: who calls, and the time of the block. *)
Record Msg := { sender : address; block_timestamp : Z }.

(** A function body runs on the storage and either returns with the new
    storage or reverts with a reason; a revert leaves nothing behind. *)
Definition Tx (A : Type) : Type := State -> Result (A * State).

Definition ret {A} (a : A) : Tx A := fun st => Ok (a, st).
Definition bind {A B} (m : Tx A) (f : A -> Tx B) : Tx B :=
  fun st => match m st with
            | Ok (a, st') => f a st'
            | Err e => Err e
            end.
Definition require (cond : bool) (reason : string) : Tx unit :=
  fun st => if cond then Ok (tt, st) else Err reason.
Definition get : Tx State := fun st => Ok (st, st).
Definition put (st : State) : Tx unit := fun _ => Ok (tt, st).

Notation "x <- m ;; k" := (bind m (fun x => k))
  (at level 61, m at next level, right associativity).
Notation "m ;;; k" := (bind m (fun _ => k))
  (at level 61, right associativity).

Definition update {A} (f : Z -> A) (k : Z) (v : A) : Z -> A :=
  fun k' => if k' =? k then v else f k'.
Definition update_addr {A} (f : address -> A) (k : address) (v : A)
  : address -> A :=
  fun k' => if String.eqb k' k then v else f k'.

Definition emit (e : Event) : Tx unit :=
  st <- get ;;
  put {| firCounter := firCounter st; firs := firs st;
         victimFIRs := victimFIRs st; roles := roles st;
         events := events st ++ [e] |}.

(** Modifiers *)
Definition onlyRole (role : Role) (msg : Msg) : Tx unit :=
  st <- get ;;
  require (roles st role (sender msg)) "AccessControl: account is missing role".

Definition onlyValidFIR (_id : Z) : Tx unit :=
  st <- get ;;
  require (exists_ (firs st _id)) "FIR does not exist".

(** [Counters.increment] is unchecked. *)
Definition increment : Tx unit :=
  st <- get ;;
  put {| firCounter := wrap (firCounter st + 1); firs := firs st;
         victimFIRs := victimFIRs st; roles := roles st;
         events := events st |}.

Definition createFIR (msg : Msg) (_ipfsCid : string) (_similarityScore : Z)
  : Tx Z :=
  onlyRole VICTIM_ROLE msg ;;;
  require (0 <? Z.of_nat (String.length _ipfsCid)) "IPFS CID cannot be empty" ;;;
  require (_similarityScore <=? 100) "Similarity score cannot exceed 100" ;;;
  increment ;;;
  st <- get ;;
  let newId := firCounter st in
  put {| firCounter := firCounter st;
         firs := update (firs st) newId
                   {| id := newId;
                      victim := sender msg;
                      ipfsCid := _ipfsCid;
                      timestamp := block_timestamp msg;
                      verified := 75 <=? _similarityScore;
                      exists_ := true;
                      similarityScore := _similarityScore |};
         victimFIRs := update_addr (victimFIRs st) (sender msg)
                         (victimFIRs st (sender msg) ++ [newId]);
         roles := roles st;
         events := events st |} ;;;
  emit (FIRCreated newId (sender msg) _ipfsCid (block_timestamp msg)
          _similarityScore) ;;;
  (if 75 <=? _similarityScore
   then emit (FIRVerified newId true (sender msg))
   else ret tt) ;;;
  ret newId.

Definition setVerification (msg : Msg) (_id : Z) (_verified : bool) : Tx unit :=
  onlyRole GOV_ROLE msg ;;;
  onlyValidFIR _id ;;;
  st <- get ;;
  let fir := firs st _id in
  put {| firCounter := firCounter st;
         firs := update (firs st) _id
                   {| id := id fir; victim := victim fir;
                      ipfsCid := ipfsCid fir; timestamp := timestamp fir;
                      verified := _verified; exists_ := exists_ fir;
                      similarityScore := similarityScore fir |};
         victimFIRs := victimFIRs st;
         roles := roles st;
         events := events st |} ;;;
  emit (FIRVerified _id _verified msg.(sender)).

Definition getFIR (_id : Z) : Tx FIR :=
  onlyValidFIR _id ;;;
  st <- get ;;
  ret (firs st _id).

Definition getTotalFIRs : Tx Z :=
  st <- get ;; ret (firCounter st).

(** A transaction: the storage after it and what it returned.  A revert
    rolls every write of the call back. *)
Definition transact {A} (tx : Tx A) (st : State) : Result A * State :=
  match tx st with
  | Ok (a, st') => (Ok a, st')
  | Err reason => (Err reason, st)
  end.

(** The contract right after deployment by [deployer]. *)
Definition deployed (deployer : address) : State :=
  {| firCounter := 0;
     firs := fun _ => noFIR;
     victimFIRs := fun _ => [];
     roles := fun r a =>
                match r with
                | DEFAULT_ADMIN_ROLE | GOV_ROLE => String.eqb a deployer
                | _ => false
                end;
     events := [] |}.

(** *** What the contract inherits from [AccessControl]

    [contract FIRRegistry is AccessControl]: besides its own functions the
    deployed contract has the public [grantRole], [revokeRole] and
    [renounceRole] of the library (OpenZeppelin 4, the version that still
    has [Counters]).  The contract never sets an admin role, so that the
    admin of every role is [DEFAULT_ADMIN_ROLE]. *)
Definition getRoleAdmin (role : Role) : Role := DEFAULT_ADMIN_ROLE.

Definition set_member (st : State) (role : Role) (account : address)
  (member : bool) : State :=
  {| firCounter := firCounter st; firs := firs st;
     victimFIRs := victimFIRs st;
     roles := fun r a =>
                if Role_eqb r role && String.eqb a account then member
                else roles st r a;
     events := events st |}.

Definition _grantRole (role : Role) (account : address) : Tx unit :=
  st <- get ;; put (set_member st role account true).

Definition _revokeRole (role : Role) (account : address) : Tx unit :=
  st <- get ;; put (set_member st role account false).

Definition grantRole (msg : Msg) (role : Role) (account : address) : Tx unit :=
  onlyRole (getRoleAdmin role) msg ;;;
  _grantRole role account.

Definition revokeRole (msg : Msg) (role : Role) (account : address) : Tx unit :=
  onlyRole (getRoleAdmin role) msg ;;;
  _revokeRole role account.

Definition renounceRole (msg : Msg) (role : Role) (account : address)
  : Tx unit :=
  require (String.eqb account (sender msg))
    "AccessControl: can only renounce roles for self" ;;;
  _revokeRole role account.

(** The two grants of the contract go through the public [grantRole],
    which checks the admin role of the caller once more. *)
Definition grantVictimRole (msg : Msg) (_victim : address) : Tx unit :=
  onlyRole DEFAULT_ADMIN_ROLE msg ;;;
  grantRole msg VICTIM_ROLE _victim.

Definition grantGovRole (msg : Msg) (_govStaff : address) : Tx unit :=
  onlyRole DEFAULT_ADMIN_ROLE msg ;;;
  grantRole msg GOV_ROLE _govStaff.

Definition getVictimFIRs (_victim : address) : Tx (list Z) :=
  st <- get ;; ret (victimFIRs st _victim).

(** [firs[i].verified == _verified] *)
Definition has_status (st : State) (_verified : bool) (i : Z) : bool :=
  Bool.eqb (verified (firs st i)) _verified.

(** What one turn of either loop of [getFIRsByStatus] does to
    [resultCount] and [currentOffset] at a record with the wanted status;
    [currentOffset--] and [resultCount++] cannot leave [uint256] there. *)
Definition skip_or_take (resultCount currentOffset : Z) : Z * Z :=
  if 0 <? currentOffset then (resultCount, currentOffset - 1)
  else (resultCount + 1, currentOffset).

(** The first loop of [getFIRsByStatus], from index [i] on.  [gas] bounds
    the number of turns; the checked [i++] of Solidity 0.8 panics at the
    largest [uint256]. *)
Fixpoint count_loop (gas : nat) (st : State) (_verified : bool)
  (_limit total i resultCount currentOffset : Z) : Result Z :=
  if (i <=? total) && (resultCount <? _limit) then
    match gas with
    | O => Err "out of gas"
    | S gas' =>
        let '(resultCount', currentOffset') :=
          if has_status st _verified i
          then skip_or_take resultCount currentOffset
          else (resultCount, currentOffset) in
        if i <? uint256_max
        then count_loop gas' st _verified _limit total (i + 1)
               resultCount' currentOffset'
        else Err "Panic(0x11)"
    end
  else Ok resultCount.

(** [result[k] = v] on a memory array, for [k] below its length. *)
Fixpoint store {A} (result : list A) (k : nat) (v : A) : list A :=
  match result, k with
  | [], _ => []
  | _ :: rest, O => v :: rest
  | x :: rest, S k' => x :: store rest k' v
  end.

(** The second loop, which fills the array; its condition keeps
    [resultCount] below [result.length]. *)
Fixpoint fill_loop (gas : nat) (st : State) (_verified : bool)
  (total i resultCount currentOffset : Z) (result : list FIR)
  : Result (list FIR) :=
  if (i <=? total) && (resultCount <? Z.of_nat (List.length result)) then
    match gas with
    | O => Err "out of gas"
    | S gas' =>
        let '(resultCount', currentOffset', result') :=
          if has_status st _verified i
          then if 0 <? currentOffset
               then (resultCount, currentOffset - 1, result)
               else (resultCount + 1, currentOffset,
                     store result (Z.to_nat resultCount) (firs st i))
          else (resultCount, currentOffset, result) in
        if i <? uint256_max
        then fill_loop gas' st _verified total (i + 1)
               resultCount' currentOffset' result'
        else Err "Panic(0x11)"
    end
  else Ok result.

Definition getFIRsByStatus (_verified : bool) (_limit _offset : Z)
  : Tx (list FIR) :=
  require ((0 <? _limit) && (_limit <=? 100)) "Invalid limit" ;;;
  st <- get ;;
  let total := firCounter st in
  fun st' =>
    match count_loop (Z.to_nat total) st _verified _limit total 1 0 _offset with
    | Err e => Err e
    | Ok resultCount =>
        let result := repeat noFIR (Z.to_nat resultCount) in
        match fill_loop (Z.to_nat total) st _verified total 1 0 _offset result with
        | Err e => Err e
        | Ok result' => Ok (result', st')
        end
    end.

End Registry.

(** ** The evidence publisher (the IPFS service) *)

Module IPFS.

Record FirData := {
  victimAddress : string;
  ocrText : string;
  sttText : string;
  similarityScore : JSNumber.number;
  verified : bool;
  timestamp : string;
  imageHash : string;
  audioHash : string
}.

Record UploadResult := { cid : string; url : string }.

Section Service.

(** [this.gatewayUrl] *)
Variable gatewayUrl : string.
(** [this.client.add] of the local node, when the client was created. *)
Variable client : option (FirData -> Result string).
(** [uploadToPinata], when both Pinata keys are configured. *)
Variable pinata : option (FirData -> Result string).

Definition uploadToIPFS (data : FirData) : Result UploadResult :=
  match client with
  | Some add =>
      match add data with
      | Ok c => Ok {| cid := c; url := (gatewayUrl ++ c)%string |}
      | Err e => Err e
      end
  | None =>
      match pinata with
      | Some pin =>
          match pin data with
          | Ok c => Ok {| cid := c; url := (gatewayUrl ++ c)%string |}
          | Err e => Err e
          end
      | None => Err "No IPFS client available and Pinata not configured"
      end
  end.

End Service.
End IPFS.

(** ** The orchestrator ([POST /api/submitFIR] in [backend/server.js]) *)

Module Server.
Import JSNumber.

Record OcrResult := {
  ocr_text : string;
  ocr_confidence : number;
  ocr_imageHash : string
}.

Record BlockchainResult := { firId : number; txHash : string }.

(** What the handler asks of its collaborators, with the outcome. *)
Inductive Call :=
| ExtractText (path : string) (outcome : Result OcrResult)
| TranscribeAudio (path : string) (outcome : Result STT.TranscriptionResult)
| CalculateSimilarity (ocrText sttText : string) (outcome : ML.SimilarityResult)
| UploadToIPFS (data : IPFS.FirData) (outcome : Result IPFS.UploadResult)
| CreateFIR (cid : string) (score : number) (victimAddress : string)
    (outcome : Result BlockchainResult)
| SetVerification (firId : number) (verified : bool) (outcome : Result string)
| Unlink (path : string) (ok : bool).

(** The upload directory and the calls made so far (latest last). *)
Record World := { files : FileSystem; calls : list Call }.

(** The calls made between two states of the world. *)
Definition issued (before after : World) : list Call :=
  skipn (List.length (calls before)) (calls after).

Definition is_CreateFIR (c : Call) : bool :=
  match c with CreateFIR _ _ _ _ => true | _ => false end.

Definition is_SetVerification (c : Call) : bool :=
  match c with SetVerification _ _ _ => true | _ => false end.

(** An asynchronous step: it may throw, and what it did before stays done. *)
Definition IO (A : Type) : Type := World -> Result A * World.

Definition ret {A} (a : A) : IO A := fun w => (Ok a, w).
Definition bind {A B} (m : IO A) (f : A -> IO B) : IO B :=
  fun w => match m w with
           | (Ok a, w') => f a w'
           | (Err e, w') => (Err e, w')
           end.
Definition catch {A} (m : IO A) (handler : string -> IO A) : IO A :=
  fun w => match m w with
           | (Ok a, w') => (Ok a, w')
           | (Err e, w') => handler e w'
           end.

Notation "x <- m ;; k" := (bind m (fun x => k))
  (at level 61, m at next level, right associativity).
Notation "m ;;; k" := (bind m (fun _ => k))
  (at level 61, right associativity).

(** Calls a collaborator, notes the call and passes its outcome on. *)
Definition await {A} (outcome : Result A) (c : Call) : IO A :=
  fun w => (outcome, {| files := files w; calls := calls w ++ [c] |}).

Definition fs_unlink (path : string) : IO unit :=
  fun w =>
    match unlink (files w) path with
    | Ok fs' => (Ok tt, {| files := fs'; calls := calls w ++ [Unlink path true] |})
    | Err e => (Err e, {| files := files w; calls := calls w ++ [Unlink path false] |})
    end.

Record Request := {
  victimAddress : string;
  image : option string;
  audio : option string
}.

Record SuccessBody := {
  body_firId : number;
  body_cid : string;
  body_ipfsUrl : string;
  body_txHash : string;
  body_ocrText : string;
  body_sttText : string;
  body_similarityScore : number;
  body_verified : bool;
  body_timestamp : string;
  body_gatewayUrl : string
}.

Inductive Response :=
| Success (body : SuccessBody)
| Failure (status : Z) (error : string).

Section Handler.

(** The collaborators and the configuration of one deployment.  The text
    extraction is taken by what it returns: the [_processed.png] file that
    it writes beside the image, and removes again after a successful
    recognition, is not among the [files] of the world, which follow the
    two uploads of the request. *)
Variable extractText : string -> Result OcrResult.
Variable sha256 : string -> string.
Variable sttClient : option (string -> Result (list STT.Segment)).
Variable tokenize : string -> list string.
Variable python : string -> string -> option ML.PythonOutput.
Variable uploadToIPFS : IPFS.FirData -> Result IPFS.UploadResult.
Variable createFIR : string -> number -> string -> Result BlockchainResult.
Variable setVerification : number -> bool -> Result string.
(** [parseInt(process.env.SIMILARITY_THRESHOLD)], [None] for NaN. *)
Variable SIMILARITY_THRESHOLD : option Z.
(** [process.env.IPFS_GATEWAY_URL] *)
Variable IPFS_GATEWAY_URL : option string.
(** [new Date().toISOString()] *)
Variable now : string.

(** [parseInt(process.env.SIMILARITY_THRESHOLD) || 75] *)
Definition threshold : number :=
  match SIMILARITY_THRESHOLD with
  | Some z => if z =? 0 then of_Z 75 else of_Z z
  | None => of_Z 75
  end.

Definition gateway : string :=
  match IPFS_GATEWAY_URL with
  | Some (String c u) => String c u
  | _ => "https://ipfs.io/ipfs/"
  end.

(** The body of the [try] block, once both files are known to be there. *)
Definition pipeline (req : Request) (imagePath audioPath : string)
  : IO SuccessBody :=
  ocrResult <- (fun w => await (extractText imagePath)
                           (ExtractText imagePath (extractText imagePath)) w) ;;
  sttResult <- (fun w =>
                  let r := STT.transcribeAudio sha256 sttClient (files w) audioPath in
                  await r (TranscribeAudio audioPath r) w) ;;
  similarityResult <-
    (let r := ML.calculateSimilarity tokenize python
                (ocr_text ocrResult) (STT.text sttResult) in
     await (Ok r) (CalculateSimilarity (ocr_text ocrResult) (STT.text sttResult) r)) ;;
  let firData :=
    {| IPFS.victimAddress := victimAddress req;
       IPFS.ocrText := ocr_text ocrResult;
       IPFS.sttText := STT.text sttResult;
       IPFS.similarityScore := ML.score similarityResult;
       IPFS.verified := ge (ML.score similarityResult) threshold;
       IPFS.timestamp := now;
       IPFS.imageHash := ocr_imageHash ocrResult;
       IPFS.audioHash := STT.audioHash sttResult |} in
  ipfsResult <- await (uploadToIPFS firData)
                  (UploadToIPFS firData (uploadToIPFS firData)) ;;
  blockchainResult <-
    (let r := createFIR (IPFS.cid ipfsResult) (ML.score similarityResult)
                (victimAddress req) in
     await r (CreateFIR (IPFS.cid ipfsResult) (ML.score similarityResult)
                (victimAddress req) r)) ;;
  (if IPFS.verified firData
   then (let r := setVerification (firId blockchainResult) true in
         await r (SetVerification (firId blockchainResult) true r)) ;;; ret tt
   else ret tt) ;;;
  fs_unlink imagePath ;;;
  fs_unlink audioPath ;;;
  ret {| body_firId := firId blockchainResult;
         body_cid := IPFS.cid ipfsResult;
         body_ipfsUrl := IPFS.url ipfsResult;
         body_txHash := txHash blockchainResult;
         body_ocrText := ocr_text ocrResult;
         body_sttText := STT.text sttResult;
         body_similarityScore := ML.score similarityResult;
         body_verified := IPFS.verified firData;
         body_timestamp := IPFS.timestamp firData;
         body_gatewayUrl := (gateway ++ IPFS.cid ipfsResult)%string |}.

(** The clean-up of the [catch] block; its own failure is only logged. *)
Definition cleanup (imagePath audioPath : string) : IO unit :=
  catch (fs_unlink imagePath ;;; fs_unlink audioPath) (fun _ => ret tt).

Definition submitFIR (req : Request) (w : World) : Response * World :=
  match image req, audio req with
  | Some imagePath, Some audioPath =>
      match pipeline req imagePath audioPath w with
      | (Ok body, w') => (Success body, w')
      | (Err _, w') =>
          let (_, w'') := cleanup imagePath audioPath w' in
          (Failure 500 "Failed to process FIR submission", w'')
      end
  | _, _ => (Failure 400 "Both image and audio files are required", w)
  end.

End Handler.
End Server.

(** ** The ledger client ([backend/services/blockchain.js]) *)

Module Blockchain.
Import JSNumber Registry.

(** A call of the service runs against the storage of the contract. *)
Definition Call (A : Type) : Type := State -> Result A * State.

(** [receipt.logs]: the events of one transaction. *)
Definition receipt_logs (before after : State) : list Event :=
  skipn (List.length (events before)) (events after).

Definition is_FIRCreated (e : Event) : bool :=
  match e with FIRCreated _ _ _ _ _ => true | _ => false end.

(** What [getFIR] hands to the routes: the big integers as numbers or
    decimal strings are kept as integers here. *)
Record FirView := {
  view_id : Z;
  view_victim : address;
  view_ipfsCid : string;
  view_timestamp : Z;
  view_verified : bool;
  view_exists : bool;
  view_similarityScore : Z
}.

Section Service.

(** [this.wallet.address] and [this.govWallet.address] *)
Variable wallet : address.
Variable govWallet : address.
(** The encoding of a JavaScript number as a [uint256] argument by the
    [ethers] library; [None] when the library throws. *)
Variable toUint256 : number -> option Z.
(** The time of the block and the hash of the transaction. *)
Variable block_time : Z.
Variable tx_hash : string.

(** [createFIR]: [victimAddress] is only logged; [firId] is [parseInt]
    of the decimal digits of the id in the first [FIRCreated] log, that is
    the number closest to the id (the id itself below [2^53]), and
    [parseInt(null)], NaN, without such a log. *)
Definition createFIR (ipfsCid : string) (similarityScore : number)
  (victimAddress : string) : Call Server.BlockchainResult :=
  fun st =>
    match toUint256 similarityScore with
    | None => (Err "invalid BigNumberish value", st)
    | Some s =>
        let msg := {| sender := wallet; block_timestamp := block_time |} in
        (* estimateGas runs the call without sending it *)
        match Registry.createFIR msg ipfsCid s st with
        | Err reason => (Err reason, st)
        | Ok _ =>
            match transact (Registry.createFIR msg ipfsCid s) st with
            | (Err _, st') => (Err "Transaction failed", st')
            | (Ok _, st') =>
                let firId :=
                  match find is_FIRCreated (receipt_logs st st') with
                  | Some (FIRCreated newId _ _ _ _) => of_Z newId
                  | _ => NaN
                  end in
                (Ok {| Server.firId := firId; Server.txHash := tx_hash |}, st')
            end
        end
    end.

Definition setVerification (firId : number) (verified : bool) : Call string :=
  fun st =>
    match toUint256 firId with
    | None => (Err "invalid BigNumberish value", st)
    | Some i =>
        let msg := {| sender := govWallet; block_timestamp := block_time |} in
        match Registry.setVerification msg i verified st with
        | Err reason => (Err reason, st)
        | Ok _ =>
            match transact (Registry.setVerification msg i verified) st with
            | (Err _, st') => (Err "Verification transaction failed", st')
            | (Ok _, st') => (Ok tx_hash, st')
            end
        end
    end.

Definition getFIR (firId : number) : Call FirView :=
  fun st =>
    match toUint256 firId with
    | None => (Err "invalid BigNumberish value", st)
    | Some i =>
        match Registry.getFIR i st with
        | Err reason => (Err reason, st)
        | Ok (fir, _) =>
            (Ok {| view_id := i;
                   view_victim := victim fir;
                   view_ipfsCid := ipfsCid fir;
                   view_timestamp := timestamp fir;
                   view_verified := verified fir;
                   view_exists := exists_ fir;
                   view_similarityScore := similarityScore fir |}, st)
        end
    end.

Definition getTotalFIRs : Call Z :=
  fun st =>
    match Registry.getTotalFIRs st with
    | Ok (total, _) => (Ok total, st)
    | Err reason => (Err reason, st)
    end.

Definition getVictimFIRs (victimAddress : address) : Call (list Z) :=
  fun st =>
    match Registry.getVictimFIRs victimAddress st with
    | Ok (firIds, _) => (Ok firIds, st)
    | Err reason => (Err reason, st)
    end.

(** The loop of [getAllFIRs] from [i] on, [n] turns: a record that cannot
    be read is skipped. *)
Fixpoint collect (st : State) (i : Z) (n : nat) : list FirView :=
  match n with
  | O => []
  | S n' =>
      match getFIR (of_Z i) st with
      | (Ok fir, _) =>
          if view_exists fir then fir :: collect st (i + 1) n'
          else collect st (i + 1) n'
      | (Err _, _) => collect st (i + 1) n'
      end
  end.

(** [getAllFIRs(limit, offset)] for integers; [None] is NaN, with which
    every comparison of the loop fails.  The total, [offset + 1] and
    [offset + actualLimit] are numbers in the code: the integers here are
    their values as long as they stay below [2^53] in absolute value. *)
Definition getAllFIRs (limit offset : option Z) : Call (list FirView) :=
  fun st =>
    match getTotalFIRs st with
    | (Err reason, _) => (Err reason, st)
    | (Ok totalCount, _) =>
        match limit, offset with
        | Some limit, Some offset =>
            if totalCount <=? offset then (Ok [], st)
            else
              let actualLimit := Z.min limit (totalCount - offset) in
              (Ok (collect st (offset + 1) (Z.to_nat actualLimit)), st)
        | _, _ => (Ok [], st)
        end
    end.

(** The encoding of the integers in [visited]: the library passes an
    integer that is not negative on and throws on a negative one. *)
Definition encodes (visited : list Z) : Prop :=
  forall z, In z visited ->
            toUint256 (of_Z z) = if z <? 0 then None else Some z.

End Service.
End Blockchain.

(** ** The request validation ([validateFIRSubmission]) *)

Module Validation.

(** One uploaded file as [multer] describes it. *)
Record File := { path : string; size : Z; mimetype : string }.

(** [req.files]: for each field the files received under it, when there
    are any. *)
Record Files := { image : option (list File); audio : option (list File) }.

(** [array[0]] *)
Definition first {A} (array : list A) : option A :=
  match array with x :: _ => Some x | [] => None end.

(** [array.includes(x)] and [array.join(', ')] *)
Definition includes (array : list string) (x : string) : bool :=
  existsb (String.eqb x) array.

Fixpoint join (array : list string) : string :=
  match array with
  | [] => EmptyString
  | [x] => x
  | x :: rest => (x ++ ", " ++ join rest)%string
  end.

Definition allowedImageTypes : list string :=
  ["image/jpeg"; "image/png"; "image/gif"; "image/bmp"; "image/tiff"]%string.
Definition allowedAudioTypes : list string :=
  ["audio/wav"; "audio/mp3"; "audio/mpeg"; "audio/ogg"; "audio/webm"]%string.

Definition maxSize : Z := 10 * 1024 * 1024.

(** The middleware either hands the request on or answers it. *)
Inductive Outcome (Body : Type) : Type :=
| Next (validatedData : Body)
| Respond (status : Z) (error : string) (details : list string).
Arguments Next {Body} validatedData.
Arguments Respond {Body} status error details.

Section Middleware.

Variable Body : Type.
(** [schema.validate(req.body)]: the value, or the messages of the
    error. *)
Variable validate : Body -> list string + Body.

Definition validateFIRSubmission (body : Body) (files : option Files)
  : Outcome Body :=
  match validate body with
  | inl details => Respond 400 "Validation failed" details
  | inr value =>
      match files with
      | Some {| image := Some images; audio := Some audios |} =>
          match first images with
          | None => Respond 400 "Validation failed" ["Image file is required"%string]
          | Some imageFile =>
              match first audios with
              | None =>
                  Respond 400 "Validation failed" ["Audio file is required"%string]
              | Some audioFile =>
                  if maxSize <? size imageFile then
                    Respond 400 "Validation failed"
                      ["Image file size exceeds 10MB limit"%string]
                  else if maxSize <? size audioFile then
                    Respond 400 "Validation failed"
                      ["Audio file size exceeds 10MB limit"%string]
                  else if negb (includes allowedImageTypes (mimetype imageFile)) then
                    Respond 400 "Validation failed"
                      [("Invalid image file type: " ++ mimetype imageFile
                        ++ ". Allowed types: " ++ join allowedImageTypes)%string]
                  else if negb (includes allowedAudioTypes (mimetype audioFile)) then
                    Respond 400 "Validation failed"
                      [("Invalid audio file type: " ++ mimetype audioFile
                        ++ ". Allowed types: " ++ join allowedAudioTypes)%string]
                  else Next value
              end
          end
      | _ =>
          Respond 400 "Validation failed"
            ["Both image and audio files are required"%string]
      end
  end.

End Middleware.

(** What the handler reads of the request: [req.body.victimAddress],
    [req.files?.image?.[0]] and [req.files?.audio?.[0]]. *)
Definition first_path (field : option (list File)) : option string :=
  match field with
  | Some array => option_map path (first array)
  | None => None
  end.

Definition handler_request (victimAddress : string) (files : option Files)
  : Server.Request :=
  {| Server.victimAddress := victimAddress;
     Server.image := match files with Some f => first_path (image f) | None => None end;
     Server.audio := match files with Some f => first_path (audio f) | None => None end |}.

End Validation.

(** ** Definitions used to state and prove the properties *)

Module Spec.
Import JSNumber Text ML.

(** The edit distance of two sequences given last unit first, by
    recursion on both: what [matrix[i][j]] holds for the first [i] units
    of [str2] and the first [j] units of [str1]. *)
Fixpoint lev_dist (l2 : list ascii) : list ascii -> Z :=
  match l2 with
  | [] => fun l1 => Z.of_nat (List.length l1)
  | x :: l2' =>
      fix inner (l1 : list ascii) : Z :=
        match l1 with
        | [] => Z.of_nat (List.length l2)
        | y :: l1' =>
            if Ascii.eqb x y then lev_dist l2' l1'
            else Z.min (lev_dist l2' l1' + 1)
                       (Z.min (inner l1' + 1) (lev_dist l2' l1 + 1))
        end
  end.

(** Row [p2] of the matrix from column [acc] on, [rest] being the units
    of [str1] still to come. *)
Fixpoint row_from (p2 acc rest : list ascii) : list Z :=
  lev_dist p2 acc ::
  match rest with
  | [] => []
  | c :: rest' => row_from p2 (c :: acc) rest'
  end.

(** The sum of a list of integers. *)
Definition sumZ (l : list Z) : Z := fold_right Z.add 0 l.

(** The real number a mantissa and an exponent stand for. *)
Definition F2R (m e : Z) : R := (IZR m * powerRZ 2 e)%R.

(** One plus the unit round-off of binary64. *)
Definition E : R := (1 + / IZR (2 ^ 52))%R.

(** Structural equality of numbers, as a boolean. *)
Definition same_number (x y : number) : bool :=
  match x, y with
  | S754_zero a, S754_zero b => Bool.eqb a b
  | S754_infinity a, S754_infinity b => Bool.eqb a b
  | S754_nan, S754_nan => true
  | S754_finite a m e, S754_finite b m' e' =>
      Bool.eqb a b && Pos.eqb m m' && Z.eqb e e'
  | _, _ => false
  end.

(** What the fallback returns for a Jaccard similarity of one, a cosine
    similarity [c] and an edit distance of zero. *)
Definition score_of_cosine (c : number) : number :=
  Math_min (of_Z 100) (Math_max (of_Z 0) (Math_round (ML.combined (of_Z 1) c 0))).

(** What it returns for no common word and an edit distance [lev]. *)
Definition score_of_distance (lev : Z) : number :=
  Math_min (of_Z 100)
    (Math_max (of_Z 0) (Math_round (ML.combined (of_Z 0) (of_Z 0) lev))).

End Spec.

(** Numbers that are neither negative nor NaN, and the clamp of the
    score. *)
Module Sign.
Import JSNumber.

Definition is_nonneg (x : number) : bool :=
  match x with
  | S754_zero _ | S754_finite false _ _ | S754_infinity false => true
  | _ => false
  end.

(** The result of a rounding is zero, infinite or finite with the given
    sign, never NaN, and its exponent is at least [low]. *)
Definition rounded (s : bool) (low : Z) (x : number) : Prop :=
  match x with
  | S754_zero s' | S754_infinity s' => s' = s
  | S754_nan => False
  | S754_finite s' _ e => s' = s /\ low <= e
  end.

(** [Math.min(100, Math.max(0, x))] *)
Definition clamp (x : number) : number :=
  Math_min (of_Z 100) (Math_max (of_Z 0) x).

End Sign.

(** The shape of a text cleaned for scoring. *)
Module CleanShape.
Import Text Clean.

(** A lower-case letter, a digit, an underscore or a space. *)
Definition clean_unit (c : ascii) : bool :=
  is_lower c || is_digit c || (code c =? 95) || Ascii.eqb c space.

(** Neither the first nor the last unit is white space. *)
Definition is_trimmed (l : list ascii) : bool :=
  match l with c :: _ => negb (is_space c) | [] => true end
  && match rev l with c :: _ => negb (is_space c) | [] => true end.

(** No white space stands directly before punctuation; [after_space]
    tells that the unit before [l] is white space. *)
Fixpoint no_space_before (after_space : bool) (l : list ascii) : bool :=
  match l with
  | [] => true
  | c :: l' =>
      if is_space c then no_space_before true l'
      else negb (after_space && is_punct c) && no_space_before false l'
  end.

Definition no_space_before_punct (l : list ascii) : bool :=
  no_space_before false l.

(** No lower-case letter stands directly after [[.!?]]; [after_end]
    tells that the unit before [l] is one of [[.!?]]. *)
Fixpoint no_lower_after (after_end : bool) (l : list ascii) : bool :=
  match l with
  | [] => true
  | c :: l' =>
      negb (after_end && is_lower c) && no_lower_after (is_sentence_end c) l'
  end.

End CleanShape.

(** The shape of the calls one submission makes. *)
Module Trace.
Import Server.

(** The place of a call in the pipeline. *)
Definition stage (c : Call) : nat :=
  match c with
  | ExtractText _ _ => 1
  | TranscribeAudio _ _ => 2
  | CalculateSimilarity _ _ _ => 3
  | UploadToIPFS _ _ => 4
  | CreateFIR _ _ _ _ => 5
  | SetVerification _ _ _ => 6
  | Unlink _ _ => 7
  end.

Definition is_Unlink (c : Call) : bool :=
  match c with Unlink _ _ => true | _ => false end.

(** A collaborator that threw. *)
Definition failed (c : Call) : bool :=
  match c with
  | ExtractText _ (Err _) | TranscribeAudio _ (Err _) | UploadToIPFS _ (Err _)
  | CreateFIR _ _ _ (Err _) | SetVerification _ _ (Err _) => true
  | _ => false
  end.

(** Before the clean-up every call belongs to a later stage than the
    call before it. *)
Fixpoint in_pipeline_order (prev : nat) (l : list Call) : bool :=
  match l with
  | [] => true
  | c :: l' =>
      (is_Unlink c || Nat.ltb prev (stage c)) && in_pipeline_order (stage c) l'
  end.

(** After a collaborator that threw there is nothing but clean-up. *)
Fixpoint stops_at_failure (l : list Call) : bool :=
  match l with
  | [] => true
  | c :: l' =>
      (if failed c then forallb is_Unlink l' else true) && stops_at_failure l'
  end.

(** The paths the clean-up calls name. *)
Definition unlinked (l : list Call) : list string :=
  flat_map (fun c => match c with Unlink p _ => [p] | _ => [] end) l.

End Trace.

(** The history of a deployed contract: the calls of the functions that
    write to the storage, replayed in order; a call that reverts leaves
    the storage as it was. *)
Module Ledger.
Import Registry.

(** The calls that can change the storage of the deployed contract: its
    own four functions that write, and the three it inherits from
    [AccessControl].  Every other function of either is a view. *)
Inductive Transaction :=
| CreateFIR (msg : Msg) (_ipfsCid : string) (_similarityScore : Z)
| SetVerification (msg : Msg) (_id : Z) (_verified : bool)
| GrantVictimRole (msg : Msg) (_victim : address)
| GrantGovRole (msg : Msg) (_govStaff : address)
| GrantRole (msg : Msg) (role : Role) (account : address)
| RevokeRole (msg : Msg) (role : Role) (account : address)
| RenounceRole (msg : Msg) (role : Role) (account : address).

Definition apply (t : Transaction) (st : State) : State :=
  match t with
  | CreateFIR msg c s => snd (transact (createFIR msg c s) st)
  | SetVerification msg i v => snd (transact (setVerification msg i v) st)
  | GrantVictimRole msg a => snd (transact (grantVictimRole msg a) st)
  | GrantGovRole msg a => snd (transact (grantGovRole msg a) st)
  | GrantRole msg r a => snd (transact (grantRole msg r a) st)
  | RevokeRole msg r a => snd (transact (revokeRole msg r a) st)
  | RenounceRole msg r a => snd (transact (renounceRole msg r a) st)
  end.


(** The calls that write nothing but role memberships. *)
Definition is_role_call (t : Transaction) : bool :=
  match t with
  | CreateFIR _ _ _ | SetVerification _ _ _ => false
  | _ => true
  end.

Definition replay (ts : list Transaction) (st : State) : State :=
  fold_left (fun st t => apply t st) ts st.

(** The ids [from], [from + 1], ..., [from + n - 1]. *)
Fixpoint ids_from (from : Z) (n : nat) : list Z :=
  match n with
  | O => []
  | S n' => from :: ids_from (from + 1) n'
  end.

(** The records [firs[1]], ..., [firs[total]]. *)
Definition records (st : State) : list FIR :=
  map (firs st) (ids_from 1 (Z.to_nat (firCounter st))).

Definition in_range (st : State) (i : Z) : bool :=
  (1 <=? i) && (i <=? firCounter st).

(** What the storage of a deployed contract looks like: the records are
    those numbered [1] to [firCounter], each carries its own number, a
    non-empty content identifier and a score of at most 100, every other
    slot holds the default value, and the list of a victim names the
    records of that victim in the order of their creation. *)
Definition consistent (st : State) : Prop :=
  0 <= firCounter st
  /\ (forall i, in_range st i = true ->
                exists_ (firs st i) = true
                /\ id (firs st i) = i
                /\ similarityScore (firs st i) <= 100
                /\ ipfsCid (firs st i) <> EmptyString)
  /\ (forall i, in_range st i = false -> firs st i = noFIR)
  /\ (forall a, victimFIRs st a
                = filter (fun i => String.eqb (victim (firs st i)) a)
                    (ids_from 1 (Z.to_nat (firCounter st)))).

(** The records numbered [i] to [i + n - 1] with the given status. *)
Definition candidates (st : State) (v : bool) (i : Z) (n : nat) : list FIR :=
  filter (fun f => Bool.eqb (verified f) v) (map (firs st) (ids_from i n)).

(** The records numbered [1] to [firCounter] with the given status. *)
Definition with_status (st : State) (_verified : bool) : list FIR :=
  filter (fun f => Bool.eqb (verified f) _verified) (records st).

(** The view of record [i] that the ledger client returns. *)
Definition view (st : State) (i : Z) : Blockchain.FirView :=
  {| Blockchain.view_id := i;
     Blockchain.view_victim := victim (firs st i);
     Blockchain.view_ipfsCid := ipfsCid (firs st i);
     Blockchain.view_timestamp := timestamp (firs st i);
     Blockchain.view_verified := verified (firs st i);
     Blockchain.view_exists := exists_ (firs st i);
     Blockchain.view_similarityScore := similarityScore (firs st i) |}.

(** The record numbers that the [FIRCreated] events of a log announce. *)
Definition created_ids (log : list Event) : list Z :=
  flat_map (fun e => match e with
                     | FIRCreated i _ _ _ _ => [i]
                     | FIRVerified _ _ _ => []
                     end) log.

(** The fields of a record that no function writes after its creation. *)
Definition evidence (f : FIR) : Z * address * string * Z * Z :=
  (id f, victim f, ipfsCid f, timestamp f, similarityScore f).

End Ledger.

(** ** A concrete deployment, for examples *)

Module Demo.
Import JSNumber Server.

Definition extractText (path : string) : Result OcrResult :=
  Ok {| ocr_text := "theft of motorcycle near main market";
        ocr_confidence := of_Z 90;
        ocr_imageHash := "1f" |}.

(** A stand-in for the digest: the examples do not depend on it. *)
Definition sha256 (content : string) : string := content.

(** A speech client that hears the statement of the second scenario. *)
Definition speech (audio : string) : Result (list STT.Segment) :=
  Ok [Some ("the theft of a motorcycle near the main market"%string, of_Z 1)].

Definition python (a b : string) : option ML.PythonOutput := None.

Definition createFIR (cid : string) (score : number) (victim : string)
  : Result BlockchainResult :=
  Ok {| firId := of_Z 1; txHash := "0xa1" |}.

Definition setVerification (firId : number) (verified : bool) : Result string :=
  Ok "0xb2"%string.

Definition pinned (data : IPFS.FirData) : Result string := Ok "QmDemo"%string.

(** Storage that accepts the bundle, and storage that is unreachable. *)
Definition storage_up : IPFS.FirData -> Result IPFS.UploadResult :=
  IPFS.uploadToIPFS "https://ipfs.io/ipfs/" (Some pinned) None.
Definition storage_down : IPFS.FirData -> Result IPFS.UploadResult :=
  IPFS.uploadToIPFS "https://ipfs.io/ipfs/" None None.

Definition request : Request :=
  {| victimAddress := "0x00000000000000000000000000000000000000a1";
     image := Some "uploads/image-1.png"%string;
     audio := Some "uploads/audio-1.wav"%string |}.

Definition world : World :=
  {| files := [("uploads/image-1.png", "png"); ("uploads/audio-1.wav", "wav")]%string;
     calls := [] |}.

(** The handler with a speech client and reachable storage. *)
Definition run_ok : Request -> World -> Response * World :=
  submitFIR extractText sha256 (Some speech) ML.WordTokenizer python
    storage_up createFIR setVerification None None "2024-01-01T00:00:00.000Z".

(** The handler when the storage cannot be reached. *)
Definition run_storage_down : Request -> World -> Response * World :=
  submitFIR extractText sha256 (Some speech) ML.WordTokenizer python
    storage_down createFIR setVerification None None "2024-01-01T00:00:00.000Z".

(** A registry with one victim account. *)
Definition registry : Registry.State :=
  snd (Registry.transact
         (Registry.grantVictimRole
            {| Registry.sender := "gov"%string; Registry.block_timestamp := 1 |}
            "victim"%string)
         (Registry.deployed "gov"%string)).

(** The callers of the examples. *)
Definition gov : Registry.Msg :=
  {| Registry.sender := "gov"%string; Registry.block_timestamp := 10 |}.
Definition victim : Registry.Msg :=
  {| Registry.sender := "victim"%string; Registry.block_timestamp := 20 |}.
Definition stranger : Registry.Msg :=
  {| Registry.sender := "stranger"%string; Registry.block_timestamp := 30 |}.

(** A short history: two records, a verification, and three calls that
    revert. *)
Definition history : list Ledger.Transaction :=
  [Ledger.GrantVictimRole gov "victim";
   Ledger.CreateFIR victim "QmA" 80;
   Ledger.CreateFIR victim "QmB" 40;
   Ledger.CreateFIR stranger "QmC" 90;
   Ledger.CreateFIR victim "" 50;
   Ledger.SetVerification stranger 1 false]%string.

Definition chain : Registry.State :=
  Ledger.replay history (Registry.deployed "gov"%string).

(** A longer history, in which roles are also granted, revoked and
    renounced through the inherited functions: the deployer makes an
    officer, gives up its own government role and takes the victim role
    back from the victim, so that the deployer can no longer verify and
    the victim can no longer file. *)
Definition officer : Registry.Msg :=
  {| Registry.sender := "officer"%string; Registry.block_timestamp := 40 |}.

Definition role_history : list Ledger.Transaction :=
  history ++
  [Ledger.GrantRole gov Registry.GOV_ROLE "officer";
   Ledger.RevokeRole stranger Registry.VICTIM_ROLE "victim";
   Ledger.RenounceRole gov Registry.GOV_ROLE "gov";
   Ledger.SetVerification gov 2 true;
   Ledger.GrantRole gov (Registry.OTHER_ROLE 7) "stranger";
   Ledger.RevokeRole gov Registry.VICTIM_ROLE "victim";
   Ledger.CreateFIR victim "QmD" 90;
   Ledger.RenounceRole stranger Registry.DEFAULT_ADMIN_ROLE "gov"]%string.

Definition role_chain : Registry.State :=
  Ledger.replay role_history (Registry.deployed "gov"%string).

(** An encoder of integers that are not negative. *)
Definition toUint256 (x : number) : option Z :=
  match to_Z x with
  | Some z => if z <? 0 then None else Some z
  | None => None
  end.


(** The handler without a speech client, creating its records through
    the ledger client on [chain]. *)
Definition ledger_createFIR (cid : string) (score : number) (victim : string)
  : Result BlockchainResult :=
  fst (Blockchain.createFIR "victim"%string toUint256 77 "0xfe"%string
         cid score victim chain).

Definition run_on_ledger : Request -> World -> Response * World :=
  submitFIR extractText sha256 None ML.WordTokenizer python
    storage_up ledger_createFIR setVerification None None
    "2024-01-01T00:00:00.000Z".


End Demo.

(** * Properties *)

(** ** The ledger contract *)

Section RegistryFacts.
Import Registry.

Lemma transact_revert {A} (tx : Tx A) (st : State) (reason : string) :
  tx st = Err reason -> transact tx st = (Err reason, st).
Proof. intros H. unfold transact. now rewrite H. Qed.

Lemma createFIR_empty_cid (msg : Msg) (st : State) (score : Z) :
  exists reason, createFIR msg EmptyString score st = Err reason.
Proof.
  cbv [createFIR bind onlyRole get require].
  destruct (roles st VICTIM_ROLE (sender msg)); simpl; eauto.
Qed.

Lemma createFIR_score_above_100 (msg : Msg) (st : State) (cid : string)
  (score : Z) :
  100 < score -> exists reason, createFIR msg cid score st = Err reason.
Proof.
  intros Hs.
  cbv [createFIR bind onlyRole get require].
  destruct (roles st VICTIM_ROLE (sender msg)); eauto.
  destruct (0 <? Z.of_nat (String.length cid)); eauto.
  apply Z.leb_gt in Hs. rewrite Hs. eauto.
Qed.

Lemma setVerification_missing (msg : Msg) (st : State) (_id : Z) (v : bool) :
  exists_ (firs st _id) = false ->
  exists reason, setVerification msg _id v st = Err reason.
Proof.
  intros He.
  cbv [setVerification bind onlyRole onlyValidFIR get require].
  destruct (roles st GOV_ROLE (sender msg)); eauto.
  rewrite He. eauto.
Qed.

(** C7. Both ledger writes enforce their preconditions by reverting:
    [createFIR] reverts on an empty content identifier and on a score
    above 100 (the score is a [uint256], so it cannot be negative), and
    [setVerification] reverts on a record id that does not exist; the
    storage after the reverted transaction is the storage before it. *)
Theorem ledger_writes_revert_on_bad_input (msg : Msg) (st : State) :
  (forall score,
      exists reason,
        transact (createFIR msg EmptyString score) st = (Err reason, st))
  /\ (forall cid score,
         100 < score ->
         exists reason,
           transact (createFIR msg cid score) st = (Err reason, st))
  /\ (forall _id v,
         exists_ (firs st _id) = false ->
         exists reason,
           transact (setVerification msg _id v) st = (Err reason, st)).
Proof.
  repeat split.
  - intros score. destruct (createFIR_empty_cid msg st score) as [r Hr].
    exists r. now apply transact_revert.
  - intros cid score Hs.
    destruct (createFIR_score_above_100 msg st cid score Hs) as [r Hr].
    exists r. now apply transact_revert.
  - intros _id v He.
    destruct (setVerification_missing msg st _id v He) as [r Hr].
    exists r. now apply transact_revert.
Qed.

End RegistryFacts.

(** ** The text cleaners *)

Module CleanFacts.
Import Text Clean.

Section CleanerFacts.

Lemma is_punct_not_space c : is_punct c = true -> is_space c = false.
Proof.
  unfold is_punct. cbn [existsb]. rewrite !orb_true_iff.
  intros [H|[H|[H|[H|[H|[H|H]]]]]]; try discriminate;
    apply Ascii.eqb_eq in H; subst; reflexivity.
Qed.

Lemma is_sentence_end_punct c : is_sentence_end c = true -> is_punct c = true.
Proof.
  unfold is_sentence_end, is_punct. cbn [existsb]. rewrite !orb_true_iff.
  intros [H|[H|[H|H]]]; try discriminate; rewrite H; auto.
Qed.

Lemma newline_is_space : is_space newline = true.
Proof. reflexivity. Qed.

Lemma ws_normal_weaken b l : ws_normal b l = true -> ws_normal false l = true.
Proof.
  destruct l as [|c l]; simpl; auto.
  destruct (is_space c); auto. destruct b; simpl; auto.
  rewrite andb_false_r. discriminate.
Qed.

Lemma collapse_normal l b :
  ws_normal b (replace_space_runs [space] b l) = true.
Proof.
  revert b. induction l as [|c l IH]; intros b; simpl; auto.
  destruct (is_space c) eqn:Ec.
  - destruct b; simpl; auto.
  - simpl. rewrite Ec. apply IH.
Qed.

Lemma collapse_id l b b' :
  ws_normal b l = true -> (b' = true -> b = true) ->
  replace_space_runs [space] b' l = l.
Proof.
  revert b b'. induction l as [|c l IH]; intros b b' Hn Hb; simpl in *; auto.
  destruct (is_space c) eqn:Ec.
  - apply andb_prop in Hn as [Hn Hl]. apply andb_prop in Hn as [Hc Hb0].
    apply Ascii.eqb_eq in Hc. subst c.
    destruct b; [discriminate|].
    destruct b'.
    { now specialize (Hb eq_refl). }
    simpl. f_equal. now apply (IH true).
  - f_equal. apply (IH false); auto; discriminate.
Qed.

Lemma newline_runs_id r l b b' :
  ws_normal b l = true -> replace_char_runs newline r b' l = l.
Proof.
  revert b b'. induction l as [|c l IH]; intros b b' Hn; simpl in *; auto.
  destruct (Ascii.eqb c newline) eqn:En.
  - apply Ascii.eqb_eq in En. subst c. simpl in Hn. discriminate.
  - f_equal. destruct (is_space c).
    + apply andb_prop in Hn as [_ Hl]. now apply (IH true).
    + now apply (IH false).
Qed.

Lemma strip_kept_id l :
  forallb OCR.is_kept l = true ->
  replace_class (fun c => negb (OCR.is_kept c)) [] l = l.
Proof.
  unfold replace_class. induction l as [|c l IH]; simpl; auto.
  intros H. apply andb_prop in H as [Hc Hl]. rewrite Hc. simpl.
  f_equal. auto.
Qed.

Lemma one_space_after_punct_id l st :
  ws_normal (match st with InRun => true | _ => false end) l = true ->
  one_space_after_punct st l = l.
Proof.
  revert st. induction l as [|c l IH]; intros st Hn; simpl in *; auto.
  destruct (is_space c) eqn:Ec.
  - apply andb_prop in Hn as [Hn Hl]. apply andb_prop in Hn as [Hc Hb0].
    apply Ascii.eqb_eq in Hc. subst c.
    destruct st; try discriminate; f_equal; apply IH; auto.
    now apply ws_normal_weaken in Hl.
  - destruct (is_punct c); f_equal; now apply IH.
Qed.

Lemma space_after_sentence_id l pending :
  ws_normal (match pending with Some [_] => true | _ => false end) l = true ->
  no_lower_after_sentence_end l = true ->
  match pending with
  | None => True
  | Some [] => match l with c :: _ => is_lower c = false | [] => True end
  | Some [c] => c = space
  | Some _ => False
  end ->
  space_after_sentence pending l
  = match pending with Some ws => rev ws ++ l | None => l end.
Proof.
  revert pending. induction l as [|c l IH]; intros pending Hn Hs Hp.
  - destruct pending as [ws|]; simpl; auto. now rewrite app_nil_r.
  - assert (Hs' : no_lower_after_sentence_end l = true).
    { simpl in Hs. destruct l; auto. now apply andb_prop in Hs as [_ Hs]. }
    assert (Hnext : is_sentence_end c = true ->
                    match l with c' :: _ => is_lower c' = false | [] => True end).
    { intros Hc. simpl in Hs. destruct l as [|c' l]; auto.
      apply andb_prop in Hs as [Hs _]. rewrite Hc in Hs. simpl in Hs.
      now destruct (is_lower c'). }
    simpl in Hn. simpl.
    destruct pending as [ws|].
    + destruct (is_space c) eqn:Ec.
      * apply andb_prop in Hn as [Hn Hl]. apply andb_prop in Hn as [Hc Hb0].
        apply Ascii.eqb_eq in Hc. subst c.
        destruct ws as [|c0 [|c1 ws]]; try discriminate; try contradiction.
        rewrite (IH (Some [space])); auto.
      * destruct ws as [|c0 [|c1 ws]]; try contradiction.
        -- rewrite Hp. simpl. f_equal.
           destruct (is_sentence_end c) eqn:Ese.
           ++ rewrite (IH (Some [])); auto; now apply Hnext.
           ++ rewrite (IH None); auto.
        -- subst c0. simpl.
           destruct (is_lower c) eqn:El.
           ++ f_equal. f_equal. rewrite (IH None); auto.
           ++ f_equal. f_equal. destruct (is_sentence_end c) eqn:Ese.
              ** rewrite (IH (Some [])); auto; now apply Hnext.
              ** rewrite (IH None); auto.
    + f_equal. destruct (is_space c) eqn:Ec.
      * apply andb_prop in Hn as [Hn Hl]. apply andb_prop in Hn as [Hc Hb0].
        apply Ascii.eqb_eq in Hc. subst c. simpl.
        rewrite (IH None); auto. now apply ws_normal_weaken in Hl.
      * destruct (is_sentence_end c) eqn:Ese.
        -- rewrite (IH (Some [])); auto; now apply Hnext.
        -- rewrite (IH None); auto.
Qed.

End CleanerFacts.

Section CleanerFacts2.

Lemma forallb_rev {A} (p : A -> bool) (l : list A) :
  forallb p (rev l) = forallb p l.
Proof.
  induction l as [|a l IH]; simpl; auto.
  rewrite forallb_app, IH. simpl. rewrite andb_true_r. apply andb_comm.
Qed.

Lemma drop_space_before_punct_spaces run pending :
  forallb is_space run = true ->
  drop_space_before_punct pending run = rev pending ++ run.
Proof.
  revert pending. induction run as [|c run IH]; intros pending H; simpl.
  - now rewrite app_nil_r.
  - simpl in H. apply andb_prop in H as [Hc Hr]. rewrite Hc.
    rewrite IH by assumption. simpl. now rewrite <- app_assoc.
Qed.

Lemma drop_space_before_punct_app l run pending :
  forallb is_space run = true ->
  drop_space_before_punct pending (l ++ run)
  = drop_space_before_punct pending l ++ run.
Proof.
  intros Hr. revert pending. induction l as [|c l IH]; intros pending; simpl.
  - now apply drop_space_before_punct_spaces.
  - destruct (is_space c); [apply IH|].
    destruct (is_punct c); simpl; [now rewrite IH|].
    rewrite <- app_assoc. simpl. now rewrite IH.
Qed.

Lemma trim_start_spaces run l :
  forallb is_space run = true -> trim_start (run ++ l) = trim_start l.
Proof.
  induction run as [|c run IH]; simpl; auto.
  intros H. apply andb_prop in H as [Hc Hr]. rewrite Hc. auto.
Qed.

Lemma trim_start_split l :
  exists run, l = run ++ trim_start l /\ forallb is_space run = true.
Proof.
  induction l as [|c l (run & Hl & Hr)]; simpl.
  - now exists [].
  - destruct (is_space c) eqn:Ec.
    + exists (c :: run). simpl. rewrite Ec, Hr. split; [now f_equal|reflexivity].
    + now exists [].
Qed.

Lemma trim_start_fixed l :
  match l with c :: _ => is_space c = false | [] => True end ->
  trim_start l = l.
Proof. destruct l as [|c l]; simpl; auto. now intros ->. Qed.

Lemma trim_start_head l :
  match trim_start l with c :: _ => is_space c = false | [] => True end.
Proof.
  induction l as [|c l IH]; simpl; auto.
  destruct (is_space c) eqn:Ec; simpl; auto.
Qed.

Lemma drop_space_before_punct_trim_start l pending :
  forallb is_space pending = true ->
  trim_start (drop_space_before_punct pending l)
  = drop_space_before_punct [] (trim_start l).
Proof.
  revert pending. induction l as [|c l IH]; intros pending Hp; simpl.
  - rewrite <- (app_nil_r (rev pending)). rewrite trim_start_spaces; auto.
    now rewrite forallb_rev.
  - destruct (is_space c) eqn:Ec.
    + apply IH. simpl. now rewrite Ec.
    + simpl. rewrite Ec.
      destruct (is_punct c); simpl.
      * now rewrite Ec.
      * rewrite trim_start_spaces by now rewrite forallb_rev.
        simpl. now rewrite Ec.
Qed.

Lemma trim_end_split l :
  exists run, l = trim_end l ++ run /\ forallb is_space run = true.
Proof.
  unfold trim_end. destruct (trim_start_split (rev l)) as (run & Hl & Hr).
  exists (rev run). split; [|now rewrite forallb_rev].
  rewrite <- rev_app_distr, <- Hl. now rewrite rev_involutive.
Qed.

Lemma trim_end_spaces l run :
  forallb is_space run = true -> trim_end (l ++ run) = trim_end l.
Proof.
  intros Hr. unfold trim_end. rewrite rev_app_distr.
  rewrite trim_start_spaces; auto. now rewrite forallb_rev.
Qed.

Lemma trim_end_drop_space l :
  trim_end (drop_space_before_punct [] (trim_end l))
  = trim_end (drop_space_before_punct [] l).
Proof.
  destruct (trim_end_split l) as (run & Hl & Hr).
  rewrite Hl at 2. rewrite drop_space_before_punct_app by assumption.
  now rewrite trim_end_spaces.
Qed.

Lemma trim_start_trim_end l :
  match l with c :: _ => is_space c = false | [] => True end ->
  trim_start (trim_end l) = trim_end l.
Proof.
  intros Hl. apply trim_start_fixed.
  destruct (trim_end_split l) as (run & Hs & Hr).
  destruct (trim_end l) as [|c t]; auto.
  rewrite Hs in Hl. exact Hl.
Qed.

Lemma ws_normal_app_l l1 l2 b :
  ws_normal b (l1 ++ l2) = true -> ws_normal b l1 = true.
Proof.
  revert b. induction l1 as [|c l1 IH]; intros b; simpl; auto.
  destruct (is_space c).
  - intros H. apply andb_prop in H as [H1 H2]. rewrite H1. simpl. eauto.
  - eauto.
Qed.

Lemma ws_normal_app_r l1 l2 b :
  ws_normal b (l1 ++ l2) = true -> ws_normal false l2 = true.
Proof.
  revert b. induction l1 as [|c l1 IH]; intros b; simpl.
  - apply ws_normal_weaken.
  - destruct (is_space c).
    + intros H. apply andb_prop in H as [H1 H2]. eauto.
    + eauto.
Qed.

Lemma ws_normal_trim_chars l :
  ws_normal false l = true -> ws_normal false (trim_chars l) = true.
Proof.
  intros H. change (trim_chars l) with (trim_end (trim_start l)).
  destruct (trim_start_split l) as (r1 & H1 & _).
  destruct (trim_end_split (trim_start l)) as (r2 & H2 & _).
  rewrite H1 in H. apply ws_normal_app_r in H.
  rewrite H2 in H. now apply ws_normal_app_l in H.
Qed.

Lemma drop_space_before_punct_normal l pending :
  pending = [] \/ pending = [space] ->
  ws_normal (match pending with [] => false | _ => true end) l = true ->
  ws_normal false (drop_space_before_punct pending l) = true.
Proof.
  revert pending. induction l as [|c l IH]; intros pending Hp Hn; simpl in *.
  - destruct Hp as [->| ->]; reflexivity.
  - destruct (is_space c) eqn:Ec.
    + apply andb_prop in Hn as [Hn Hl]. apply andb_prop in Hn as [Hc Hb].
      apply Ascii.eqb_eq in Hc. subst c.
      destruct Hp as [->| ->]; [|discriminate].
      apply IH; auto.
    + destruct (is_punct c).
      * simpl. rewrite Ec. apply IH; auto.
      * destruct Hp as [->| ->]; simpl; rewrite Ec; apply IH; auto.
Qed.

Lemma collapse_keeps_sentences l b :
  no_lower_after_sentence_end l = true ->
  no_lower_after_sentence_end (replace_space_runs [space] b l) = true.
Proof.
  revert b.
  assert (Hhead : forall l,
             match l with d :: _ => is_lower d = false | [] => True end ->
             match replace_space_runs [space] false l with
             | d :: _ => is_lower d = false | [] => True end).
  { intros l0. destruct l0 as [|d l0]; simpl; auto.
    destruct (is_space d); simpl; auto. }
  induction l as [|c l IH]; intros b Hs; auto.
  assert (Hs' : no_lower_after_sentence_end l = true).
  { simpl in Hs. destruct l; auto. now apply andb_prop in Hs as [_ Hs]. }
  simpl. destruct (is_space c) eqn:Ec.
  - destruct b; simpl; auto.
    specialize (IH true Hs').
    destruct (replace_space_runs [space] true l); auto.
  - specialize (IH false Hs').
    destruct (replace_space_runs [space] false l) as [|d t] eqn:Er; auto.
    change (negb (is_sentence_end c && is_lower d)
            && no_lower_after_sentence_end (d :: t) = true).
    rewrite IH, andb_true_r.
    destruct (is_sentence_end c) eqn:Ese; auto. simpl.
    assert (Hd : match l with d :: _ => is_lower d = false | [] => True end).
    { simpl in Hs. destruct l as [|d0 l0]; auto.
      apply andb_prop in Hs as [Hs _]. rewrite Ese in Hs. simpl in Hs.
      now destruct (is_lower d0). }
    specialize (Hhead l Hd). rewrite Er in Hhead. now rewrite Hhead.
Qed.

End CleanerFacts2.

Section CleanerAgreement.

Lemma collapse_kept l b :
  forallb OCR.is_kept l = true ->
  forallb OCR.is_kept (replace_space_runs [space] b l) = true.
Proof.
  revert b. induction l as [|c l IH]; intros b; simpl; auto.
  intros H. apply andb_prop in H as [Hc Hl].
  destruct (is_space c); [destruct b|]; simpl; rewrite ?Hc; simpl; auto.
Qed.

Lemma trim_chars_kept l :
  forallb OCR.is_kept l = true -> forallb OCR.is_kept (trim_chars l) = true.
Proof.
  intros H. change (trim_chars l) with (trim_end (trim_start l)).
  destruct (trim_start_split l) as (r1 & H1 & _).
  destruct (trim_end_split (trim_start l)) as (r2 & H2 & _).
  rewrite H1, forallb_app in H. apply andb_prop in H as [_ H].
  rewrite H2, forallb_app in H. now apply andb_prop in H as [H _].
Qed.

(** C9 (corrected). On every input made of the units the text extractor
    keeps ([[A-Za-z0-9_]], white space, [[.,!?;:]], [-], [(], [)]) in
    which no [[.!?]] is directly followed by a lower-case letter, the two
    cleaners return the same text. *)
Theorem cleaners_agree_on_kept_text_without_glued_sentences (text : string) :
  forallb OCR.is_kept (chars text) = true ->
  no_lower_after_sentence_end (chars text) = true ->
  STT.cleanTranscription text = OCR.cleanText text.
Proof.
  intros Hk Hs. unfold STT.cleanTranscription, OCR.cleanText. cbv zeta.
  set (c := replace_space_runs [space] false (chars text)).
  assert (Hn : ws_normal false c = true) by apply collapse_normal.
  assert (Hkc : forallb OCR.is_kept c = true) by now apply collapse_kept.
  assert (Hsc : no_lower_after_sentence_end c = true)
    by now apply collapse_keeps_sentences.
  rewrite !(newline_runs_id _ c false false Hn).
  rewrite (space_after_sentence_id c None Hn Hsc I).
  rewrite strip_kept_id by now apply trim_chars_kept.
  assert (Hny : ws_normal false (trim_chars c) = true)
    by now apply ws_normal_trim_chars.
  assert (Hna : forall l, ws_normal false l = true ->
                  ws_normal false (drop_space_before_punct [] l) = true).
  { intros l Hl. apply drop_space_before_punct_normal; auto. }
  rewrite (one_space_after_punct_id _ Apart (Hna _ Hn)).
  rewrite (one_space_after_punct_id _ Apart (Hna _ Hny)).
  rewrite (collapse_id _ false false (Hna _ Hny)) by discriminate.
  f_equal.
  change (trim_end (trim_start (drop_space_before_punct [] c))
          = trim_end (trim_start (drop_space_before_punct []
                                    (trim_end (trim_start c))))).
  rewrite !drop_space_before_punct_trim_start by reflexivity.
  rewrite trim_start_trim_end by apply trim_start_head.
  now rewrite trim_end_drop_space.
Qed.

(** The text extractor's cleaner strips [@]; the transcriber's keeps it. *)
Lemma cleaners_differ_on_special_character :
  STT.cleanTranscription "a@b" <> OCR.cleanText "a@b".
Proof. vm_compute. discriminate. Qed.

(** The transcriber's cleaner puts a space after a full stop that is
    followed by a lower-case letter; the text extractor's does not. *)
Lemma cleaners_differ_after_full_stop :
  STT.cleanTranscription "a.b" = "a. b"%string
  /\ OCR.cleanText "a.b" = "a.b"%string.
Proof. split; reflexivity. Qed.

Lemma cleaners_agree_example :
  STT.cleanTranscription "  Hello ,  world .It  is ; ok !  "
  = "Hello, world.It is; ok!"%string
  /\ STT.cleanTranscription "  Hello ,  world .It  is ; ok !  "
     = OCR.cleanText "  Hello ,  world .It  is ; ok !  ".
Proof.
  split; [reflexivity|].
  apply cleaners_agree_on_kept_text_without_glued_sentences; reflexivity.
Defined.

End CleanerAgreement.

End CleanFacts.

(** ** The orchestrator *)

Module ServerFacts.
Import JSNumber Server.

Lemma file_exists_remove_same fs p : file_exists (remove_file fs p) p = false.
Proof.
  unfold file_exists, remove_file. induction fs as [|f fs IH]; simpl; auto.
  destruct (String.eqb (fst f) p) eqn:E; simpl; auto. now rewrite E.
Qed.

Lemma file_exists_remove_other fs p q :
  String.eqb q p = false ->
  file_exists (remove_file fs p) q = file_exists fs q.
Proof.
  intros Hqp. unfold file_exists, remove_file.
  induction fs as [|f fs IH]; simpl; auto.
  destruct (String.eqb (fst f) p) eqn:E; simpl.
  - apply String.eqb_eq in E. rewrite E, String.eqb_sym, Hqp. simpl. exact IH.
  - now rewrite IH.
Qed.

Lemma file_exists_remove fs p q :
  file_exists (remove_file fs p) q = true -> file_exists fs q = true.
Proof.
  destruct (String.eqb q p) eqn:E.
  - apply String.eqb_eq in E. subst. now rewrite file_exists_remove_same.
  - now rewrite file_exists_remove_other.
Qed.

Lemma issued_app w l fs :
  issued w {| files := fs; calls := calls w ++ l |} = l.
Proof.
  unfold issued. cbn [calls].
  rewrite skipn_app, skipn_all, Nat.sub_diag. reflexivity.
Qed.

(** The clean-up of the error path removes both uploads, whatever had
    already been removed, and asks nothing of the ledger. *)
Lemma cleanup_removes imagePath audioPath w :
  exists fs' l,
    cleanup imagePath audioPath w
    = (Ok tt, {| files := fs'; calls := calls w ++ l |})
    /\ (forall c, In c l -> is_CreateFIR c = false /\ is_SetVerification c = false)
    /\ (forall d o, ~ In (UploadToIPFS d o) l)
    /\ (forall c s v o, ~ In (CreateFIR c s v o) l)
    /\ (file_exists (files w) imagePath = true ->
        file_exists fs' imagePath = false /\
        (file_exists (files w) audioPath = true ->
        file_exists fs' audioPath = false))
    /\ (forall p, file_exists fs' p = true -> file_exists (files w) p = true).
Proof.
  unfold cleanup, catch, bind, fs_unlink, ret, unlink.
  destruct (file_exists (files w) imagePath) eqn:Hi; cbn [files calls].
  - destruct (file_exists (remove_file (files w) imagePath) audioPath) eqn:Ha;
      cbn [files calls]; rewrite <- ?app_assoc;
      eexists; eexists; (split; [reflexivity|]);
      (split; [intros c [<-|[<-|[]]]; auto|]);
      (split; [intros d o [H|[H|[]]]; discriminate|]);
      (split; [intros c s v o [H|[H|[]]]; discriminate|]).
    + split; [intros _; split|].
      * destruct (String.eqb imagePath audioPath) eqn:E.
        -- apply String.eqb_eq in E; subst. apply file_exists_remove_same.
        -- rewrite file_exists_remove_other by exact E.
           apply file_exists_remove_same.
      * intros _. apply file_exists_remove_same.
      * intros p Hp. now apply file_exists_remove in Hp; apply file_exists_remove in Hp.
    + split; [intros _; split|].
      * apply file_exists_remove_same.
      * intros _. exact Ha.
      * intros p Hp. now apply file_exists_remove in Hp.
  - exists (files w), [Unlink imagePath false].
    split; [reflexivity|].
    split; [intros c [<-|[]]; auto|].
    split; [intros d o [H|[]]; discriminate|].
    split; [intros c s v o [H|[]]; discriminate|].
    split; [discriminate|auto].
Qed.

Section HandlerFacts.
Variable extractText : string -> Result OcrResult.
Variable sha256 : string -> string.
Variable sttClient : option (string -> Result (list STT.Segment)).
Variable tokenize : string -> list string.
Variable python : string -> string -> option ML.PythonOutput.
Variable uploadToIPFS : IPFS.FirData -> Result IPFS.UploadResult.
Variable createFIR : string -> number -> string -> Result BlockchainResult.
Variable setVerification : number -> bool -> Result string.
Variable SIMILARITY_THRESHOLD : option Z.
Variable IPFS_GATEWAY_URL : option string.
Variable now : string.

Let run := submitFIR extractText sha256 sttClient tokenize python uploadToIPFS
             createFIR setVerification SIMILARITY_THRESHOLD IPFS_GATEWAY_URL now.
Let thr := threshold SIMILARITY_THRESHOLD.

Ltac in_cases :=
  repeat match goal with
         | H : In _ (_ ++ _) |- _ => apply in_app_or in H; destruct H as [H|H]
         | H : In _ (_ :: _) |- _ => destruct H as [H|H]
         | H : In _ [] |- _ => destruct H
         end.

Ltac failed_run :=
  match goal with
  | |- context [cleanup ?i ?a ?w1] =>
      let fs' := fresh "fs'" in
      let l := fresh "l" in
      let Hc := fresh "Hc" in
      destruct (cleanup_removes i a w1)
        as (fs' & l & Hc & Hl & Hup & Hcr & Hrm & Hsub);
      rewrite Hc; cbn [calls files] in *
  end;
  let H := fresh in
  intros H; injection H as <- <-;
  rewrite <- ?app_assoc; rewrite issued_app; cbn [files].

(** C6. A submission whose publication to the content-addressed storage
    fails issues no ledger write at all, and both uploaded files are gone
    when the handler returns; a submission whose [createFIR] fails issues
    no [setVerification]. *)
Theorem failed_publish_or_create_stops_the_ledger_writes
  (req : Request) (w w' : World) (resp : Response)
  (imagePath audioPath : string) :
  image req = Some imagePath ->
  audio req = Some audioPath ->
  file_exists (files w) imagePath = true ->
  file_exists (files w) audioPath = true ->
  run req w = (resp, w') ->
  (forall d e,
      In (UploadToIPFS d (Err e)) (issued w w') ->
      (forall c, In c (issued w w') ->
                 is_CreateFIR c = false /\ is_SetVerification c = false)
      /\ file_exists (files w') imagePath = false
      /\ file_exists (files w') audioPath = false)
  /\ (forall cid s v e,
         In (CreateFIR cid s v (Err e)) (issued w w') ->
         forall c, In c (issued w w') -> is_SetVerification c = false).
Proof.
  intros Hi Ha Hfi Hfa.
  unfold run, submitFIR. rewrite Hi, Ha.
  unfold pipeline, bind, await, ret, fs_unlink. cbn [files calls].
  destruct (extractText imagePath) as [o|e0] eqn:Ho.
  2:{ failed_run. split.
      - intros d e Hin. in_cases; try discriminate. now apply Hup in Hin.
      - intros c s v e Hin. in_cases; try discriminate. now apply Hcr in Hin. }
  destruct (STT.transcribeAudio sha256 sttClient (files w) audioPath) as [s|e0] eqn:Hs.
  2:{ failed_run. split.
      - intros d e Hin. in_cases; try discriminate. now apply Hup in Hin.
      - intros c s v e Hin. in_cases; try discriminate. now apply Hcr in Hin. }
  set (sim := ML.calculateSimilarity tokenize python (ocr_text o) (STT.text s)).
  cbn [IPFS.verified IPFS.timestamp].
  match goal with |- context [uploadToIPFS ?d] => set (d0 := d) end.
  destruct (uploadToIPFS d0) as [u|e0] eqn:Hu.
  2:{ failed_run. split.
      - intros d e Hin. split; [|destruct (Hrm Hfi) as [R1 R2]; auto].
        intros c Hc'. in_cases; subst; auto.
      - intros c s' v e Hin. in_cases; try discriminate. now apply Hcr in Hin. }
  destruct (createFIR (IPFS.cid u) (ML.score sim) (victimAddress req)) as [r|e0] eqn:Hc.
  2:{ failed_run. split.
      - intros d e Hin. in_cases; try discriminate. now apply Hup in Hin.
      - intros c s' v e Hin c' Hc'. in_cases; subst; auto; now apply Hl. }
  assert (Hno :
    forall l1 l2 (fs : FileSystem),
      (forall d o, ~ In (UploadToIPFS d o) (l1 ++ l2)) ->
      (forall c s v o, ~ In (CreateFIR c s v o) (l1 ++ l2)) ->
      (forall d e,
       In (UploadToIPFS d (Err e))
         ([ExtractText imagePath (Ok o)] ++ [TranscribeAudio audioPath (Ok s)] ++
          [CalculateSimilarity (ocr_text o) (STT.text s) sim] ++
          [UploadToIPFS d0 (Ok u)] ++
          [CreateFIR (IPFS.cid u) (ML.score sim) (victimAddress req) (Ok r)] ++ l1 ++ l2) ->
       (forall c, In c
         ([ExtractText imagePath (Ok o)] ++ [TranscribeAudio audioPath (Ok s)] ++
          [CalculateSimilarity (ocr_text o) (STT.text s) sim] ++
          [UploadToIPFS d0 (Ok u)] ++
          [CreateFIR (IPFS.cid u) (ML.score sim) (victimAddress req) (Ok r)] ++ l1 ++ l2) ->
                 is_CreateFIR c = false /\ is_SetVerification c = false)
      /\ file_exists fs imagePath = false
      /\ file_exists fs audioPath = false)
  /\ (forall cid s0 v e,
         In (CreateFIR cid s0 v (Err e))
         ([ExtractText imagePath (Ok o)] ++ [TranscribeAudio audioPath (Ok s)] ++
          [CalculateSimilarity (ocr_text o) (STT.text s) sim] ++
          [UploadToIPFS d0 (Ok u)] ++
          [CreateFIR (IPFS.cid u) (ML.score sim) (victimAddress req) (Ok r)] ++ l1 ++ l2) ->
         forall c, In c 
         ([ExtractText imagePath (Ok o)] ++ [TranscribeAudio audioPath (Ok s)] ++
          [CalculateSimilarity (ocr_text o) (STT.text s) sim] ++
          [UploadToIPFS d0 (Ok u)] ++
          [CreateFIR (IPFS.cid u) (ML.score sim) (victimAddress req) (Ok r)] ++ l1 ++ l2)
           -> is_SetVerification c = false)).
  { intros l1 l2 fs H1 H2. split.
    - intros d e Hin. cbn [app] in Hin.
      repeat (destruct Hin as [Hin|Hin]; [discriminate|]). now apply H1 in Hin.
    - intros c s0 v e Hin. cbn [app] in Hin.
      repeat (destruct Hin as [Hin|Hin]; [discriminate|]). now apply H2 in Hin. }
  destruct (ge (ML.score sim) (threshold SIMILARITY_THRESHOLD)) eqn:Hge.
  - destruct (setVerification (firId r) true) as [t|e0] eqn:Hv.
    2:{ failed_run. apply (Hno [_]).
        - intros d x Hin. in_cases; try discriminate. now apply Hup in Hin.
        - intros c s' v x Hin. in_cases; try discriminate. now apply Hcr in Hin. }
    cbn [files calls]. unfold unlink. rewrite Hfi. cbn [files calls].
    destruct (file_exists (remove_file (files w) imagePath) audioPath) eqn:Hfa'.
    + cbn [files calls]. intros H; injection H as <- <-.
      rewrite <- ?app_assoc; rewrite issued_app; cbn [files].
      apply (Hno [_] [_; _]).
      * intros d x Hin. in_cases; discriminate.
      * intros c s' v x Hin. in_cases; discriminate.
    + failed_run. apply (Hno [_; _; _]).
      * intros d x Hin. in_cases; try discriminate. now apply Hup in Hin.
      * intros c s' v x Hin. in_cases; try discriminate. now apply Hcr in Hin.
  - cbn [files calls]. unfold unlink. rewrite Hfi. cbn [files calls].
    destruct (file_exists (remove_file (files w) imagePath) audioPath) eqn:Hfa'.
    + cbn [files calls]. intros H; injection H as <- <-.
      rewrite <- ?app_assoc; rewrite issued_app; cbn [files].
      apply (Hno [] [_; _]).
      * intros d x Hin. in_cases; discriminate.
      * intros c s' v x Hin. in_cases; discriminate.
    + failed_run. apply (Hno [_; _]).
      * intros d x Hin. in_cases; try discriminate. now apply Hup in Hin.
      * intros c s' v x Hin. in_cases; try discriminate. now apply Hcr in Hin.
Qed.

End HandlerFacts.

Section HandlerFacts2.
Variable extractText : string -> Result OcrResult.
Variable sha256 : string -> string.
Variable sttClient : option (string -> Result (list STT.Segment)).
Variable tokenize : string -> list string.
Variable python : string -> string -> option ML.PythonOutput.
Variable uploadToIPFS : IPFS.FirData -> Result IPFS.UploadResult.
Variable createFIR : string -> number -> string -> Result BlockchainResult.
Variable setVerification : number -> bool -> Result string.
Variable SIMILARITY_THRESHOLD : option Z.
Variable IPFS_GATEWAY_URL : option string.
Variable now : string.

Let run := submitFIR extractText sha256 sttClient tokenize python uploadToIPFS
             createFIR setVerification SIMILARITY_THRESHOLD IPFS_GATEWAY_URL now.
Let thr := threshold SIMILARITY_THRESHOLD.

(** What a run that answers with success has done, call by call. *)
Lemma success_trace req w body w' :
  run req w = (Success body, w') ->
  exists imagePath audioPath o s u r,
    image req = Some imagePath /\ audio req = Some audioPath /\
    extractText imagePath = Ok o /\
    STT.transcribeAudio sha256 sttClient (files w) audioPath = Ok s /\
    let sim := ML.calculateSimilarity tokenize python (ocr_text o) (STT.text s) in
    let d := {| IPFS.victimAddress := victimAddress req;
       IPFS.ocrText := ocr_text o;
       IPFS.sttText := STT.text s;
       IPFS.similarityScore := ML.score sim;
       IPFS.verified := ge (ML.score sim) thr;
       IPFS.timestamp := now;
       IPFS.imageHash := ocr_imageHash o;
       IPFS.audioHash := STT.audioHash s |} in
    body_similarityScore body = ML.score sim /\
    body_verified body = ge (ML.score sim) thr /\
    body_firId body = firId r /\
    body_cid body = IPFS.cid u /\
    body_sttText body = STT.text s /\
    issued w w' =
      [ExtractText imagePath (Ok o); TranscribeAudio audioPath (Ok s);
       CalculateSimilarity (ocr_text o) (STT.text s) sim;
       UploadToIPFS d (Ok u);
       CreateFIR (IPFS.cid u) (ML.score sim) (victimAddress req) (Ok r)]
      ++ (if ge (ML.score sim) thr
          then [SetVerification (firId r) true (setVerification (firId r) true)]
          else [])
      ++ [Unlink imagePath true; Unlink audioPath true]
    /\ (ge (ML.score sim) thr = true -> is_ok (setVerification (firId r) true) = true).
Proof.
  unfold run, submitFIR.
  destruct (image req) as [imagePath|]; [|discriminate].
  destruct (audio req) as [audioPath|]; [|discriminate].
  unfold pipeline, bind, await, ret, fs_unlink. cbn [files calls].
  destruct (extractText imagePath) as [o|e] eqn:Ho;
    [|destruct (cleanup _ _ _); discriminate].
  destruct (STT.transcribeAudio sha256 sttClient (files w) audioPath) as [s|e] eqn:Hs;
    [|destruct (cleanup _ _ _); discriminate].
  fold thr.
  set (sim := ML.calculateSimilarity tokenize python (ocr_text o) (STT.text s)).
  cbn [IPFS.verified IPFS.timestamp].
  match goal with |- context [uploadToIPFS ?d] => set (d0 := d) end.
  destruct (uploadToIPFS d0) as [u|e] eqn:Hu;
    [|destruct (cleanup _ _ _); discriminate].
  destruct (createFIR (IPFS.cid u) (ML.score sim) (victimAddress req)) as [r|e] eqn:Hc;
    [|destruct (cleanup _ _ _); discriminate].
  destruct (ge (ML.score sim) thr) eqn:Hge.
  - destruct (setVerification (firId r) true) as [t|e] eqn:Hv;
      [|destruct (cleanup _ _ _); discriminate].
    cbn [files calls].
    destruct (unlink (files w) imagePath) as [fs1|e] eqn:Hu1;
      [|destruct (cleanup _ _ _); discriminate].
    cbn [files calls].
    destruct (unlink fs1 audioPath) as [fs2|e] eqn:Hu2;
      [|destruct (cleanup _ _ _); discriminate].
    intros H. injection H as Hb Hw. subst body w'.
    exists imagePath, audioPath, o, s, u, r. cbn.
    fold sim. rewrite Hge, Hv.
    repeat split; auto.
    rewrite <- !app_assoc. now rewrite issued_app.
  - cbn [files calls].
    destruct (unlink (files w) imagePath) as [fs1|e] eqn:Hu1;
      [|destruct (cleanup _ _ _); discriminate].
    cbn [files calls].
    destruct (unlink fs1 audioPath) as [fs2|e] eqn:Hu2;
      [|destruct (cleanup _ _ _); discriminate].
    intros H. injection H as Hb Hw. subst body w'.
    exists imagePath, audioPath, o, s, u, r. cbn.
    fold sim. rewrite Hge.
    repeat split; auto.
    + rewrite <- !app_assoc. now rewrite issued_app.
    + discriminate.
Qed.

Lemma default_threshold_is_75 (z : Z) :
  0 <= z <= 100 -> ge (of_Z z) (of_Z 75) = (75 <=? z).
Proof.
  intros Hz.
  assert (Hall : forallb (fun n => Bool.eqb (ge (of_Z (Z.of_nat n)) (of_Z 75))
                                     (75 <=? Z.of_nat n)) (seq 0 101) = true)
    by (vm_compute; reflexivity).
  rewrite forallb_forall in Hall.
  specialize (Hall (Z.to_nat z)).
  rewrite Z2Nat.id in Hall by lia.
  apply Bool.eqb_prop, Hall, in_seq. lia.
Qed.

(** C2. In a submission that succeeds, [setVerification (id, true)]
    follows the successful [createFIR] exactly when the score is at least
    the threshold, [id] being the id that [createFIR] returned; below the
    threshold no [setVerification] is issued; [setVerification (id, false)]
    is never issued; and the threshold is 75 when none is configured. *)
Theorem auto_verification_iff_score_reaches_threshold
  (req : Request) (w w' : World) (body : SuccessBody) :
  run req w = (Success body, w') ->
  let score := body_similarityScore body in
  (ge score thr = true ->
   exists pre r t post,
     issued w w'
     = pre ++ [CreateFIR (body_cid body) score (victimAddress req) (Ok r);
               SetVerification (firId r) true (Ok t)] ++ post
     /\ forall c, In c (pre ++ post) ->
                  is_CreateFIR c = false /\ is_SetVerification c = false)
  /\ (ge score thr = false ->
      forall c, In c (issued w w') -> is_SetVerification c = false)
  /\ (forall firId outcome,
         ~ In (SetVerification firId false outcome) (issued w w'))
  /\ (SIMILARITY_THRESHOLD = None ->
      forall z, (0 <= z <= 74 -> ge (of_Z z) thr = false)
                /\ (75 <= z <= 100 -> ge (of_Z z) thr = true)).
Proof.
  intros Hrun score.
  destruct (success_trace _ _ _ _ Hrun)
    as (i & a & o & s & u & r & _ & _ & _ & _ & Hscore & _ & _ & Hcid & _ & Htr & Hok).
  cbv zeta in *. subst score. rewrite Hscore, Hcid, Htr.
  set (sim := ML.calculateSimilarity tokenize python (ocr_text o) (STT.text s)) in *.
  repeat split.
  - intros Hge. rewrite Hge in *.
    specialize (Hok eq_refl).
    destruct (setVerification (firId r) true) as [t|] eqn:Hv; [|discriminate].
    eexists [_; _; _; _], r, t, [_; _]. split; [reflexivity|].
    intros c Hc. cbn in Hc.
    repeat (destruct Hc as [<-|Hc]; [auto|]). destruct Hc.
  - intros Hge c Hc. rewrite Hge in Hc. cbn in Hc.
    repeat (destruct Hc as [<-|Hc]; [auto|]). destruct Hc.
  - intros id outc Hin.
    destruct (ge (ML.score sim) thr); cbn in Hin;
      repeat (destruct Hin as [Hin|Hin]; [discriminate|]); destruct Hin.
  - subst thr. rewrite H. cbn [threshold]. intros Hz.
    rewrite default_threshold_is_75 by lia. apply Z.leb_gt. lia.
  - subst thr. rewrite H. cbn [threshold]. intros Hz.
    rewrite default_threshold_is_75 by lia. apply Z.leb_le. lia.
Qed.

End HandlerFacts2.

Section FallbackTranscription.
Variable extractText : string -> Result OcrResult.
Variable sha256 : string -> string.
Variable tokenize : string -> list string.
Variable python : string -> string -> option ML.PythonOutput.
Variable uploadToIPFS : IPFS.FirData -> Result IPFS.UploadResult.
Variable createFIR : string -> number -> string -> Result BlockchainResult.
Variable setVerification : number -> bool -> Result string.
Variable SIMILARITY_THRESHOLD : option Z.
Variable IPFS_GATEWAY_URL : option string.
Variable now : string.

(** C8. Without a speech client the transcription is the placeholder:
    its provider is ["fallback"], its confidence is 50 (so at most 50),
    and it is returned whether or not the audio file can be read.  The
    pipeline completes with it: a submission whose two uploads are there,
    whose text extraction succeeds, and for which the storage accepts the
    bundle with the placeholder text and the ledger accepts the
    [createFIR] call for it (and the [setVerification] call, should the
    score of the placeholder reach the threshold), is answered with
    success; it has called every step of the pipeline once and in order
    with the placeholder as the transcription, and the answer carries the
    extracted text, the placeholder, the score of the two, the identifier
    of the bundle and the number of the new record.  Whatever the other
    collaborators answer, the transcription step itself does not fail. *)
Theorem unavailable_speech_provider_degrades_to_placeholder :
  (forall fs audioPath,
      exists r,
        STT.transcribeAudio sha256 None fs audioPath = Ok r
        /\ STT.provider r = "fallback"%string
        /\ STT.text r = STT.mockText
        /\ STT.confidence r = of_Z 50
        /\ ge (of_Z 50) (STT.confidence r) = true
        /\ STT.audioHash r = STT.calculateAudioHash sha256 fs audioPath)
  /\ (forall req w imagePath audioPath o u r,
         image req = Some imagePath ->
         audio req = Some audioPath ->
         String.eqb audioPath imagePath = false ->
         file_exists (files w) imagePath = true ->
         file_exists (files w) audioPath = true ->
         extractText imagePath = Ok o ->
         let sim := ML.calculateSimilarity tokenize python
                      (ocr_text o) STT.mockText in
         let verified := ge (ML.score sim) (threshold SIMILARITY_THRESHOLD) in
         let firData :=
           {| IPFS.victimAddress := victimAddress req;
              IPFS.ocrText := ocr_text o;
              IPFS.sttText := STT.mockText;
              IPFS.similarityScore := ML.score sim;
              IPFS.verified := verified;
              IPFS.timestamp := now;
              IPFS.imageHash := ocr_imageHash o;
              IPFS.audioHash :=
                STT.calculateAudioHash sha256 (files w) audioPath |} in
         uploadToIPFS firData = Ok u ->
         createFIR (IPFS.cid u) (ML.score sim) (victimAddress req) = Ok r ->
         (verified = true -> is_ok (setVerification (firId r) true) = true) ->
         exists s w',
           STT.transcribeAudio sha256 None (files w) audioPath = Ok s
           /\ STT.provider s = "fallback"%string
           /\ submitFIR extractText sha256 None tokenize python uploadToIPFS
                createFIR setVerification SIMILARITY_THRESHOLD
                IPFS_GATEWAY_URL now req w
              = (Success
                   {| body_firId := firId r;
                      body_cid := IPFS.cid u;
                      body_ipfsUrl := IPFS.url u;
                      body_txHash := txHash r;
                      body_ocrText := ocr_text o;
                      body_sttText := STT.mockText;
                      body_similarityScore := ML.score sim;
                      body_verified := verified;
                      body_timestamp := now;
                      body_gatewayUrl :=
                        (gateway IPFS_GATEWAY_URL ++ IPFS.cid u)%string |},
                 w')
           /\ issued w w'
              = [ExtractText imagePath (Ok o);
                 TranscribeAudio audioPath (Ok s);
                 CalculateSimilarity (ocr_text o) STT.mockText sim;
                 UploadToIPFS firData (Ok u);
                 CreateFIR (IPFS.cid u) (ML.score sim) (victimAddress req)
                   (Ok r)]
                ++ (if verified
                    then [SetVerification (firId r) true
                            (setVerification (firId r) true)]
                    else [])
                ++ [Unlink imagePath true; Unlink audioPath true])
  /\ (forall req w audioPath e,
         ~ In (TranscribeAudio audioPath (Err e))
             (issued w
                (snd (submitFIR extractText sha256 None tokenize python
                        uploadToIPFS createFIR setVerification
                        SIMILARITY_THRESHOLD IPFS_GATEWAY_URL now req w)))).
Proof.
  split; [|split].
  - intros fs p. eexists. split; [reflexivity|]. cbn. repeat split.
  - intros req w i a o u r Hi Ha Hne Hfi Hfa Ho sim verified firData Hup Hcr Hsv.
    assert (Hu2 : unlink (remove_file (files w) i) a
                  = Ok (remove_file (remove_file (files w) i) a)).
    { unfold unlink. now rewrite file_exists_remove_other, Hfa. }
    unfold submitFIR. rewrite Hi, Ha.
    unfold pipeline, bind, await, ret, fs_unlink. cbn [files calls].
    rewrite Ho.
    cbn [STT.transcribeAudio STT.transcribeWithFallback].
    cbn [IPFS.verified IPFS.timestamp STT.text STT.audioHash].
    fold sim. fold verified. fold firData. rewrite Hup, Hcr.
    destruct verified eqn:Ev.
    + specialize (Hsv eq_refl).
      destruct (setVerification (firId r) true) as [t|] eqn:Et; [|discriminate].
      cbn [files calls]. unfold unlink at 1. rewrite Hfi. cbn [files calls].
      rewrite Hu2. cbn [files calls].
      eexists. eexists. split; [reflexivity|]. split; [reflexivity|].
      split; [reflexivity|].
      rewrite <- ?app_assoc, issued_app. reflexivity.
    + cbn [files calls]. unfold unlink at 1. rewrite Hfi. cbn [files calls].
      rewrite Hu2. cbn [files calls].
      eexists. eexists. split; [reflexivity|]. split; [reflexivity|].
      split; [reflexivity|].
      rewrite <- ?app_assoc, issued_app. reflexivity.
  - intros req w p e.
    unfold submitFIR, pipeline, cleanup, catch, bind, await, ret, fs_unlink, unlink.
    cbn [files calls STT.transcribeAudio STT.transcribeWithFallback].
    repeat match goal with
           | |- context [match ?x with _ => _ end] =>
               lazymatch x with
               | context [match _ with _ => _ end] => fail
               | _ => destruct x eqn:?; cbn [files calls]
               end
           end;
      cbn [snd calls files]; rewrite <- ?app_assoc; rewrite ?issued_app;
      try (unfold issued; rewrite skipn_all);
      cbn [In app]; intros Hin;
      repeat (destruct Hin as [Hin|Hin]; [discriminate|]); destruct Hin.
Qed.
End FallbackTranscription.

End ServerFacts.

(** ** The agreement scorer *)

Module MLFacts.
Import JSNumber Text ML Spec.

Section Levenshtein.

Lemma lev_dist_nil_r l2 : lev_dist l2 [] = Z.of_nat (List.length l2).
Proof. destruct l2; reflexivity. Qed.

Lemma lev_dist_cons x l2 y l1 :
  lev_dist (x :: l2) (y :: l1)
  = if Ascii.eqb x y then lev_dist l2 l1
    else Z.min (lev_dist l2 l1 + 1)
               (Z.min (lev_dist (x :: l2) l1 + 1) (lev_dist l2 (y :: l1) + 1)).
Proof. reflexivity. Qed.

Lemma first_row_spec rest acc :
  first_row rest (Z.of_nat (List.length acc)) = row_from [] acc rest.
Proof.
  revert acc. induction rest as [|c rest IH]; intros acc; simpl; auto.
  f_equal. rewrite <- IH. f_equal. simpl. lia.
Qed.

Lemma lev_row_spec c2 p2 rest acc :
  lev_dist (c2 :: p2) acc :: lev_row c2 rest (row_from p2 acc rest)
                               (lev_dist (c2 :: p2) acc)
  = row_from (c2 :: p2) acc rest.
Proof.
  revert acc. induction rest as [|c1 rest IH]; intros acc.
  - reflexivity.
  - cbn [row_from]. f_equal.
    specialize (IH (c1 :: acc)).
    destruct rest as [|c rest'].
    + cbn [lev_row row_from]. rewrite lev_dist_cons. reflexivity.
    + cbn [row_from] in *. cbn [lev_row].
      rewrite <- lev_dist_cons. exact IH.
Qed.

Lemma lev_rows_spec str1 str2 p2 :
  forall n,
    (n <= List.length str2)%nat ->
    nth n (row_from p2 [] str1
             :: lev_rows str1 str2 (Z.of_nat (List.length p2) + 1)
                  (row_from p2 [] str1)) []
    = row_from (rev (firstn n str2) ++ p2) [] str1.
Proof.
  revert p2. induction str2 as [|c2 str2 IH]; intros p2 n Hn.
  - simpl in Hn. assert (n = 0)%nat by lia. subst. reflexivity.
  - destruct n as [|n]; [reflexivity|].
    cbn [nth lev_rows firstn rev]. rewrite <- app_assoc. cbn [app].
    rewrite <- (IH (c2 :: p2) n) by (simpl in Hn; lia).
    assert (Hrow : Z.of_nat (List.length p2) + 1
                   :: lev_row c2 str1 (row_from p2 [] str1)
                        (Z.of_nat (List.length p2) + 1)
                   = row_from (c2 :: p2) [] str1).
    { rewrite <- lev_row_spec. rewrite lev_dist_nil_r. simpl List.length.
      replace (Z.of_nat (S (List.length p2))) with (Z.of_nat (List.length p2) + 1)
        by lia. reflexivity. }
    rewrite Hrow. simpl List.length.
    replace (Z.of_nat (S (List.length p2)) + 1)
      with (Z.of_nat (List.length p2) + 1 + 1) by lia.
    reflexivity.
Qed.

Lemma row_from_nth p2 rest acc :
  nth (List.length rest) (row_from p2 acc rest) 0 = lev_dist p2 (rev rest ++ acc).
Proof.
  revert acc. induction rest as [|c rest IH]; intros acc; simpl.
  - reflexivity.
  - rewrite IH, <- app_assoc. reflexivity.
Qed.

Lemma length_chars s : List.length (chars s) = String.length s.
Proof.
  unfold chars. induction s; simpl; auto.
Qed.

Lemma calculateLevenshteinDistance_spec str1 str2 :
  calculateLevenshteinDistance str1 str2
  = lev_dist (rev (chars str2)) (rev (chars str1)).
Proof.
  unfold calculateLevenshteinDistance, lev_matrix.
  rewrite <- !length_chars.
  pose proof (first_row_spec (chars str1) []) as H0. cbn [List.length Z.of_nat] in H0.
  rewrite H0.
  pose proof (lev_rows_spec (chars str1) (chars str2) [] _ (Nat.le_refl _)) as H1.
  cbn [List.length Z.of_nat Z.add] in H1. rewrite H1.
  rewrite firstn_all, app_nil_r, row_from_nth, app_nil_r. reflexivity.
Qed.

Lemma lev_dist_sym l2 : forall l1, lev_dist l2 l1 = lev_dist l1 l2.
Proof.
  induction l2 as [|x l2 IH2]; intros l1.
  - now rewrite lev_dist_nil_r.
  - induction l1 as [|y l1 IH1].
    + reflexivity.
    + rewrite !lev_dist_cons. rewrite (Ascii.eqb_sym y x).
      rewrite IH1, !IH2.
      destruct (Ascii.eqb x y); [reflexivity|]. lia.
Qed.

Lemma lev_dist_refl l : lev_dist l l = 0.
Proof.
  induction l as [|x l IH]; [reflexivity|].
  rewrite lev_dist_cons, Ascii.eqb_refl. exact IH.
Qed.

Lemma lev_dist_disjoint l2 : forall l1,
  (forall x y, In x l2 -> In y l1 -> x <> y) ->
  lev_dist l2 l1 = Z.max (Z.of_nat (List.length l2)) (Z.of_nat (List.length l1)).
Proof.
  induction l2 as [|x l2 IH2]; intros l1 Hd.
  - simpl. lia.
  - induction l1 as [|y l1 IH1].
    + rewrite lev_dist_nil_r. simpl List.length. lia.
    + rewrite lev_dist_cons.
      destruct (Ascii.eqb x y) eqn:E.
      * apply Ascii.eqb_eq in E. exfalso. apply (Hd x y); simpl; auto.
      * rewrite IH1 by (intros; apply Hd; simpl; auto).
        rewrite !IH2 by (intros; apply Hd; simpl; auto).
        simpl List.length. lia.
Qed.

Lemma levenshtein_sym a b :
  calculateLevenshteinDistance a b = calculateLevenshteinDistance b a.
Proof. rewrite !calculateLevenshteinDistance_spec. apply lev_dist_sym. Qed.

Lemma levenshtein_same a : calculateLevenshteinDistance a a = 0.
Proof. rewrite calculateLevenshteinDistance_spec. apply lev_dist_refl. Qed.

Lemma levenshtein_disjoint a b :
  (forall x y, In x (chars a) -> In y (chars b) -> x <> y) ->
  calculateLevenshteinDistance a b
  = Z.max (Z.of_nat (String.length a)) (Z.of_nat (String.length b)).
Proof.
  intros Hd. rewrite calculateLevenshteinDistance_spec.
  rewrite lev_dist_disjoint.
  - rewrite !length_rev, !length_chars. lia.
  - intros x y Hx Hy. apply in_rev in Hx. apply in_rev in Hy.
    intros ->. now apply (Hd y y).
Qed.

End Levenshtein.


Section Sets.

Lemma Set_has_In s x : Set_has s x = true <-> In x s.
Proof.
  unfold Set_has. rewrite existsb_exists. split.
  - intros (y & Hy & E). apply String.eqb_eq in E. now subst.
  - intros H. exists x. split; auto. apply String.eqb_refl.
Qed.

Lemma Set_has_false s x : Set_has s x = false <-> ~ In x s.
Proof.
  rewrite <- Set_has_In. destruct (Set_has s x); split; congruence.
Qed.

Lemma fold_Set_add_In l : forall acc x,
  In x (fold_left Set_add l acc) <-> In x acc \/ In x l.
Proof.
  induction l as [|a l IH]; intros acc x; simpl.
  - tauto.
  - rewrite IH. unfold Set_add.
    destruct (Set_has acc a) eqn:E.
    + apply Set_has_In in E. split; [tauto|].
      intros [H|[<-|H]]; auto.
    + rewrite in_app_iff. simpl. tauto.
Qed.

Lemma fold_Set_add_NoDup l : forall acc,
  NoDup acc -> NoDup (fold_left Set_add l acc).
Proof.
  induction l as [|a l IH]; intros acc Hn; simpl; auto.
  apply IH. unfold Set_add.
  destruct (Set_has acc a) eqn:E; auto.
  apply Set_has_false in E.
  apply NoDup_rev in Hn. rewrite <- (rev_involutive (acc ++ [a])).
  apply NoDup_rev. rewrite rev_app_distr. simpl. constructor; auto.
  now rewrite <- in_rev.
Qed.

Lemma Set_of_In l x : In x (Set_of l) <-> In x l.
Proof. unfold Set_of. rewrite fold_Set_add_In. simpl. tauto. Qed.

Lemma Set_of_NoDup l : NoDup (Set_of l).
Proof. apply fold_Set_add_NoDup. constructor. Qed.

Lemma Set_of_nil_iff l : Set_of l = [] <-> l = [].
Proof.
  split; [|now intros ->].
  destruct l as [|a l]; auto. intros H.
  assert (Ha : In a (Set_of (a :: l))) by (apply Set_of_In; simpl; auto).
  rewrite H in Ha. destruct Ha.
Qed.

Lemma Set_of_perm l1 l2 :
  (forall x, In x l1 <-> In x l2) -> Permutation (Set_of l1) (Set_of l2).
Proof.
  intros H. apply NoDup_Permutation; try apply Set_of_NoDup.
  intros x. rewrite !Set_of_In. apply H.
Qed.

Lemma size_Set_of_le l : size (Set_of l) <= size l.
Proof.
  unfold size. apply inj_le. apply NoDup_incl_length.
  - apply Set_of_NoDup.
  - intros x. apply Set_of_In.
Qed.

Lemma filter_has_In s1 s2 x :
  In x (filter (Set_has s2) s1) <-> In x s1 /\ In x s2.
Proof. rewrite filter_In, Set_has_In. tauto. Qed.

(** The sizes that [calculateJaccardSimilarity] divides. *)
Lemma intersection_size_sym w1 w2 :
  size (Set_of (filter (Set_has (Set_of w2)) (Set_of w1)))
  = size (Set_of (filter (Set_has (Set_of w1)) (Set_of w2))).
Proof.
  unfold size. f_equal. apply Permutation_length, Set_of_perm.
  intros x. rewrite !filter_has_In. tauto.
Qed.

Lemma union_size_sym w1 w2 :
  size (Set_of (Set_of w1 ++ Set_of w2)) = size (Set_of (Set_of w2 ++ Set_of w1)).
Proof.
  unfold size. f_equal. apply Permutation_length, Set_of_perm.
  intros x. rewrite !in_app_iff. tauto.
Qed.

Lemma sumZ_perm l1 l2 : Permutation l1 l2 -> sumZ l1 = sumZ l2.
Proof.
  induction 1; simpl; try lia.
Qed.

Lemma fold_left_sum {A} (f : A -> Z) (l : list A) : forall acc,
  fold_left (fun sum a => sum + f a) l acc = acc + sumZ (map f l).
Proof.
  induction l as [|a l IH]; intros acc; simpl; [lia|].
  rewrite IH. lia.
Qed.

Lemma dot_product_sum (f g : string -> Z) (L : list string) :
  fold_left (fun sum '(val, val2) => sum + val * val2)
            (combine (map f L) (map g L)) 0
  = sumZ (map (fun w => f w * g w) L).
Proof.
  assert (H : forall acc,
             fold_left (fun sum '(val, val2) => sum + val * val2)
                       (combine (map f L) (map g L)) acc
             = acc + sumZ (map (fun w => f w * g w) L)).
  { induction L as [|w L IH]; intros acc; simpl; [lia|]. rewrite IH. lia. }
  now rewrite H.
Qed.

Lemma magnitude_sum (f : string -> Z) (L : list string) :
  fold_left (fun sum val => sum + val * val) (map f L) 0
  = sumZ (map (fun w => f w * f w) L).
Proof.
  assert (H : forall acc,
             fold_left (fun sum val => sum + val * val) (map f L) acc
             = acc + sumZ (map (fun w => f w * f w) L)).
  { induction L as [|w L IH]; intros acc; simpl; [lia|]. rewrite IH. lia. }
  now rewrite H.
Qed.

Lemma allWords_perm w1 w2 :
  Permutation (Set_of (w1 ++ w2)) (Set_of (w2 ++ w1)).
Proof. apply Set_of_perm. intros x. rewrite !in_app_iff. tauto. Qed.

Lemma occurrences_bounds words w :
  0 <= occurrences words w <= size words.
Proof.
  unfold occurrences, size. split; [lia|].
  apply inj_le, filter_length_le.
Qed.

Lemma occurrences_pos words w : In w words -> 1 <= occurrences words w.
Proof.
  unfold occurrences, size. induction words as [|a l IH]; simpl; [tauto|].
  intros [->|H].
  - rewrite String.eqb_refl. simpl. lia.
  - specialize (IH H). destruct (String.eqb a w); simpl; lia.
Qed.

Lemma occurrences_zero words w : ~ In w words -> occurrences words w = 0.
Proof.
  unfold occurrences, size. induction words as [|a l IH]; simpl; auto.
  intros H. destruct (String.eqb a w) eqn:E.
  - apply String.eqb_eq in E. tauto.
  - apply IH. tauto.
Qed.

End Sets.

Section Symmetry.
Variable tokenize : string -> list string.

Lemma mul_comm (x y : number) : mul x y = mul y x.
Proof.
  unfold mul. destruct x as [sx|sx| |sx mx ex], y as [sy|sy| |sy my ey];
    simpl; try reflexivity; try (now rewrite xorb_comm).
  now rewrite xorb_comm, Pos.mul_comm, Z.add_comm.
Qed.

Lemma add_NaN_l (x : number) : add NaN x = NaN.
Proof. now destruct x. Qed.

Lemma jaccard_sym w1 w2 :
  calculateJaccardSimilarity w1 w2 = calculateJaccardSimilarity w2 w1.
Proof.
  unfold calculateJaccardSimilarity. cbv zeta.
  now rewrite intersection_size_sym, union_size_sym.
Qed.

Lemma cosine_unfold w1 w2 :
  calculateCosineSimilarity w1 w2
  = let L := Set_of (w1 ++ w2) in
    let dot := sumZ (map (fun w => occurrences w1 w * occurrences w2 w) L) in
    let magnitude1 :=
      sqrt (of_Z (sumZ (map (fun w => occurrences w1 w * occurrences w1 w) L))) in
    let magnitude2 :=
      sqrt (of_Z (sumZ (map (fun w => occurrences w2 w * occurrences w2 w) L))) in
    if strict_eq magnitude1 (of_Z 0) || strict_eq magnitude2 (of_Z 0)
    then of_Z 0
    else div (of_Z dot) (mul magnitude1 magnitude2).
Proof.
  unfold calculateCosineSimilarity. cbv zeta.
  now rewrite dot_product_sum, !magnitude_sum.
Qed.

Lemma cosine_sym w1 w2 :
  calculateCosineSimilarity w1 w2 = calculateCosineSimilarity w2 w1.
Proof.
  rewrite !cosine_unfold. cbv zeta.
  pose proof (allWords_perm w1 w2) as HP.
  rewrite (sumZ_perm _ _ (Permutation_map (fun w => occurrences w1 w * occurrences w2 w) HP)).
  rewrite (sumZ_perm _ _ (Permutation_map (fun w => occurrences w1 w * occurrences w1 w) HP)).
  rewrite (sumZ_perm _ _ (Permutation_map (fun w => occurrences w2 w * occurrences w2 w) HP)).
  rewrite orb_comm, mul_comm.
  assert (E : map (fun w => occurrences w1 w * occurrences w2 w) (Set_of (w2 ++ w1))
              = map (fun w => occurrences w2 w * occurrences w1 w) (Set_of (w2 ++ w1))).
  { apply map_ext. intros; lia. }
  now rewrite E.
Qed.

(** C5. The local-ensemble score of [(a, b)] is the score of [(b, a)]. *)
Theorem fallback_score_symmetric (a b : string) :
  score (calculateSimilarityFallback tokenize a b)
  = score (calculateSimilarityFallback tokenize b a).
Proof.
  unfold calculateSimilarityFallback. cbv zeta. cbn [score].
  now rewrite jaccard_sym, cosine_sym, levenshtein_sym.
Qed.

(** C10. When no token of either text survives [removeStopWords], the
    Jaccard metric divides zero by zero and the score is NaN, which is no
    integer; the cosine metric returns 0 through its guard. *)
Theorem fallback_score_NaN_without_surviving_words (a b : string) :
  surviving_words tokenize a = [] ->
  surviving_words tokenize b = [] ->
  calculateJaccardSimilarity (surviving_words tokenize a)
    (surviving_words tokenize b) = div (of_Z 0) (of_Z 0)
  /\ div (of_Z 0) (of_Z 0) = NaN
  /\ calculateCosineSimilarity (surviving_words tokenize a)
       (surviving_words tokenize b) = of_Z 0
  /\ score (calculateSimilarityFallback tokenize a b) = NaN
  /\ to_Z (score (calculateSimilarityFallback tokenize a b)) = None.
Proof.
  intros Ha Hb.
  assert (Hs : score (calculateSimilarityFallback tokenize a b) = NaN).
  { unfold calculateSimilarityFallback. cbv zeta. cbn [score].
    fold (surviving_words tokenize a). fold (surviving_words tokenize b).
    rewrite Ha, Hb. unfold combined.
    change (calculateJaccardSimilarity [] []) with NaN.
    change (calculateCosineSimilarity [] []) with (of_Z 0).
    change (add (mul NaN (of_Z 40)) (mul (of_Z 0) (of_Z 40))) with NaN.
    rewrite add_NaN_l. reflexivity. }
  rewrite Ha, Hb, Hs. repeat split.
Qed.

End Symmetry.

End MLFacts.

(** ** Binary64 arithmetic on normal numbers *)

Module FloatFacts.
Import JSNumber Spec.

Section Rounding.

Lemma digits2_pos_size p : digits2_pos p = Pos.size p.
Proof. induction p; simpl; congruence. Qed.

Lemma Zdigits2_bounds p :
  2 ^ (Zdigits2 (Zpos p) - 1) <= Zpos p < 2 ^ Zdigits2 (Zpos p).
Proof.
  change (Zdigits2 (Zpos p)) with (Zpos (digits2_pos p)).
  rewrite digits2_pos_size.
  set (s := Pos.size p).
  assert (Hgt : Zpos p < 2 ^ Zpos s).
  { change 2 with (Zpos 2). rewrite <- Pos2Z.inj_pow.
    apply Pos2Z.pos_lt_pos, Pos.size_gt. }
  assert (Hle : 2 ^ Zpos s <= 2 * Zpos p).
  { change 2 with (Zpos 2) at 1. rewrite <- Pos2Z.inj_pow.
    change (2 * Zpos p) with (Zpos p~0).
    apply Pos2Z.pos_le_pos, Pos.size_le. }
  assert (H : 2 * 2 ^ (Zpos s - 1) = 2 ^ Zpos s).
  { rewrite <- Z.pow_succ_r by lia. f_equal. lia. }
  lia.
Qed.

Lemma Zdigits2_unique m d :
  2 ^ (d - 1) <= m < 2 ^ d -> 0 < d -> Zdigits2 m = d.
Proof.
  intros [Hlo Hhi] Hd.
  assert (Hm : 0 < m) by (pose proof (Z.pow_pos_nonneg 2 (d - 1)); lia).
  destruct m as [|p|p]; try lia.
  pose proof (Zdigits2_bounds p) as [Blo Bhi].
  set (k := Zdigits2 (Zpos p)) in *.
  assert (Hk : 0 < k) by (unfold k; simpl; lia).
  destruct (Z.lt_trichotomy k d) as [Hlt|[Heq|Hgt]]; auto.
  - assert (2 ^ k <= 2 ^ (d - 1)) by (apply Z.pow_le_mono_r; lia). lia.
  - assert (2 ^ d <= 2 ^ (k - 1)) by (apply Z.pow_le_mono_r; lia). lia.
Qed.

Lemma shr_1_m r : 0 <= shr_m r -> shr_m (shr_1 r) = shr_m r / 2.
Proof.
  destruct r as [m rr s]. simpl. intros Hm.
  destruct m as [|[p|p|]|p]; simpl; try lia; try reflexivity.
  - rewrite Pos2Z.inj_xI. apply Z.div_unique with 1; lia.
  - rewrite Pos2Z.inj_xO. apply Z.div_unique with 0; lia.
Qed.

Lemma iter_shr_1_m p : forall r,
  0 <= shr_m r ->
  shr_m (SpecFloat.iter_pos shr_1 p r) = shr_m r / 2 ^ Zpos p.
Proof.
  assert (Hnn : forall r, 0 <= shr_m r -> 0 <= shr_m (shr_1 r)).
  { intros r Hr. rewrite shr_1_m by assumption. apply Z.div_pos; lia. }
  assert (HxI : forall q, 2 ^ Zpos q~1 = 2 * (2 ^ Zpos q * 2 ^ Zpos q)).
  { intros q. rewrite Pos2Z.inj_xI, <- Z.pow_add_r, <- Z.pow_succ_r by lia.
    f_equal. lia. }
  assert (HxO : forall q, 2 ^ Zpos q~0 = 2 ^ Zpos q * 2 ^ Zpos q).
  { intros q. rewrite Pos2Z.inj_xO, <- Z.pow_add_r by lia. f_equal. lia. }
  induction p as [p IH|p IH|]; intros r Hr; cbn [SpecFloat.iter_pos].
  - assert (H1 := Hnn r Hr).
    assert (H2 : 0 <= shr_m (SpecFloat.iter_pos shr_1 p (shr_1 r)))
      by (rewrite IH by assumption; apply Z.div_pos; lia).
    rewrite IH, IH, shr_1_m by assumption.
    rewrite !Z.div_div by lia. now rewrite HxI.
  - assert (H2 : 0 <= shr_m (SpecFloat.iter_pos shr_1 p r))
      by (rewrite IH by assumption; apply Z.div_pos; lia).
    rewrite IH, IH by assumption.
    rewrite !Z.div_div by lia. now rewrite HxO.
  - rewrite shr_1_m by assumption. reflexivity.
Qed.

Lemma shr_record_of_loc_m m l : shr_m (shr_record_of_loc m l) = m.
Proof. destruct l as [|[]]; reflexivity. Qed.

(** Shifting a mantissa of at least 53 digits down to 53 digits. *)
Lemma shr_fexp_normal m e l :
  2 ^ 52 <= m ->
  -1074 <= Zdigits2 m + e - 53 ->
  let n := Zdigits2 m - 53 in
  shr_m (fst (shr_fexp prec emax m e l)) = m / 2 ^ n
  /\ snd (shr_fexp prec emax m e l) = e + n
  /\ 0 <= n.
Proof.
  intros Hm He n.
  assert (Hpos : 0 < m) by lia.
  destruct m as [|p|p]; try lia.
  pose proof (Zdigits2_bounds p) as [Blo Bhi].
  assert (Hn : 0 <= n).
  { unfold n. destruct (Z_lt_le_dec (Zdigits2 (Zpos p)) 53) as [Hlt|]; [|lia].
    assert (2 ^ Zdigits2 (Zpos p) <= 2 ^ 52) by (apply Z.pow_le_mono_r; lia).
    lia. }
  unfold shr_fexp, fexp, SpecFloat.emin, prec, emax.
  replace (Z.max (Zdigits2 (Zpos p) + e - 53) (3 - 1024 - 53) - e) with n
    by (unfold n; lia).
  unfold shr. destruct n as [|q|q] eqn:En; try lia.
  - cbn [fst snd]. rewrite shr_record_of_loc_m, Z.pow_0_r, Z.div_1_r.
    repeat split; lia.
  - cbn [fst snd]. rewrite iter_shr_1_m by (rewrite shr_record_of_loc_m; lia).
    rewrite shr_record_of_loc_m. repeat split; lia.
Qed.

Lemma round_nearest_even_cases m l :
  round_nearest_even m l = m \/ round_nearest_even m l = m + 1.
Proof.
  destruct l as [|[]]; simpl; auto. destruct (Z.even m); auto.
Qed.

(** Rounding a positive mantissa of at least 53 digits, away from the
    ends of the exponent range: the result is a normal number, and it is
    the mantissa cut to 53 digits or the next one up. *)
Lemma binary_round_aux_normal mx ex lx :
  2 ^ 52 <= mx ->
  let n := Zdigits2 mx - 53 in
  -1074 <= ex + n -> ex + n + 1 <= 971 ->
  exists m e,
    binary_round_aux prec emax false mx ex lx = S754_finite false m e
    /\ 2 ^ 52 <= Zpos m < 2 ^ 53
    /\ ex + n <= e <= ex + n + 1
    /\ (Zpos m * 2 ^ (e - (ex + n)) = mx / 2 ^ n
        \/ Zpos m * 2 ^ (e - (ex + n)) = mx / 2 ^ n + 1)
    /\ 0 <= n /\ 2 ^ 52 <= mx / 2 ^ n < 2 ^ 53.
Proof.
  intros Hm n Hlo Hhi.
  destruct (shr_fexp_normal mx ex lx Hm) as (H1 & H2 & Hn); [fold n; lia|].
  fold n in H1, H2, Hn.
  assert (Hpos : 0 < mx) by lia.
  destruct mx as [|p|p]; try lia.
  pose proof (Zdigits2_bounds p) as [Blo Bhi].
  set (m1 := Zpos p / 2 ^ n) in *.
  assert (Hm1 : 2 ^ 52 <= m1 < 2 ^ 53).
  { unfold m1.
    assert (Hd : Zdigits2 (Zpos p) = n + 53) by (unfold n; lia).
    rewrite Hd in Blo, Bhi.
    replace (n + 53 - 1) with (52 + n) in Blo by lia.
    rewrite Z.pow_add_r in Blo, Bhi by lia.
    assert (0 < 2 ^ n) by (apply Z.pow_pos_nonneg; lia).
    split.
    - apply Z.div_le_lower_bound; lia.
    - apply Z.div_lt_upper_bound; lia. }
  unfold binary_round_aux.
  destruct (shr_fexp prec emax (Zpos p) ex lx) as [mrs' e'] eqn:E1.
  cbn [fst snd] in H1, H2. subst e'.
  set (m2 := round_nearest_even (shr_m mrs') (loc_of_shr_record mrs')).
  assert (Hm2 : m2 = m1 \/ m2 = m1 + 1).
  { unfold m2. rewrite <- H1. apply round_nearest_even_cases. }
  assert (Hm2b : 2 ^ 52 <= m2 <= 2 ^ 53) by lia.
  destruct (Z_lt_le_dec m2 (2 ^ 53)) as [Hlt|Hge].
  - assert (Hd2 : Zdigits2 m2 = 53) by (apply Zdigits2_unique; simpl; lia).
    destruct (shr_fexp_normal m2 (ex + n) loc_Exact) as (H3 & H4 & _);
      [lia|lia|].
    rewrite Hd2 in H3, H4.
    destruct (shr_fexp prec emax m2 (ex + n) loc_Exact) as [mrs'' e''] eqn:E2.
    cbn [fst snd] in H3, H4. subst e''.
    change (2 ^ (53 - 53)) with 1 in H3. rewrite Z.div_1_r in H3.
    rewrite H3.
    destruct m2 as [|q|q] eqn:Eq; try lia.
    replace (ex + n + (53 - 53) <=? emax - prec) with true
      by (symmetry; apply Z.leb_le; unfold emax, prec; lia).
    exists q, (ex + n + (53 - 53)).
    split; [reflexivity|]. split; [lia|]. split; [lia|].
    split; [|split; [exact Hn|exact Hm1]].
    replace (ex + n + (53 - 53) - (ex + n)) with 0 by lia.
    rewrite Z.pow_0_r, Z.mul_1_r. exact Hm2.
  - assert (Hm2e : m2 = 2 ^ 53) by lia.
    assert (Hd2 : Zdigits2 m2 = 54) by (rewrite Hm2e; reflexivity).
    destruct (shr_fexp_normal m2 (ex + n) loc_Exact) as (H3 & H4 & _);
      [lia|lia|].
    rewrite Hd2 in H3, H4.
    destruct (shr_fexp prec emax m2 (ex + n) loc_Exact) as [mrs'' e''] eqn:E2.
    cbn [fst snd] in H3, H4. subst e''.
    rewrite Hm2e in H3. change (2 ^ 53 / 2 ^ (54 - 53)) with (2 ^ 52) in H3.
    rewrite H3. change (2 ^ 52) with (Zpos (2 ^ 52)%positive).
    cbv iota beta.
    replace (ex + n + (54 - 53) <=? emax - prec) with true
      by (symmetry; apply Z.leb_le; unfold emax, prec; lia).
    exists (2 ^ 52)%positive, (ex + n + (54 - 53)).
    split; [reflexivity|]. split; [simpl; lia|]. split; [lia|].
    split; [|split; [exact Hn|exact Hm1]].
    replace (ex + n + (54 - 53) - (ex + n)) with 1 by lia.
    change (Zpos (2 ^ 52)%positive * 2 ^ 1) with (2 ^ 53).
    lia.
Qed.

End Rounding.

Section RealValue.

Lemma pow2_pos e : (0 < powerRZ 2 e)%R.
Proof. apply powerRZ_lt. lra. Qed.

Lemma pow2_add a b : powerRZ 2 (a + b) = (powerRZ 2 a * powerRZ 2 b)%R.
Proof. apply powerRZ_add. lra. Qed.

Lemma pow2_IZR k : 0 <= k -> IZR (2 ^ k) = powerRZ 2 k.
Proof.
  intros Hk. rewrite <- (Z2Nat.id k Hk).
  rewrite <- pow_IZR, <- pow_powerRZ. reflexivity.
Qed.

Lemma F2R_pos m e : 0 < m -> (0 < F2R m e)%R.
Proof.
  intros Hm. unfold F2R. apply Rmult_lt_0_compat; [|apply pow2_pos].
  now apply IZR_lt.
Qed.

Lemma F2R_le m1 m2 e : m1 <= m2 -> (F2R m1 e <= F2R m2 e)%R.
Proof.
  intros H. unfold F2R. apply Rmult_le_compat_r.
  - left. apply pow2_pos.
  - now apply IZR_le.
Qed.

Lemma F2R_lt m1 m2 e : m1 < m2 -> (F2R m1 e < F2R m2 e)%R.
Proof.
  intros H. unfold F2R. apply Rmult_lt_compat_r.
  - apply pow2_pos.
  - now apply IZR_lt.
Qed.

Lemma F2R_shift m e k : 0 <= k -> F2R (m * 2 ^ k) e = F2R m (e + k).
Proof.
  intros Hk. unfold F2R. rewrite mult_IZR, pow2_IZR, pow2_add by assumption.
  ring.
Qed.

Lemma F2R_mul m1 e1 m2 e2 :
  (F2R m1 e1 * F2R m2 e2)%R = F2R (m1 * m2) (e1 + e2).
Proof. unfold F2R. rewrite mult_IZR, pow2_add. ring. Qed.

Lemma F2R_succ m e : F2R (m + 1) e = (F2R m e + powerRZ 2 e)%R.
Proof. unfold F2R. rewrite plus_IZR. ring. Qed.

Lemma E_pos : (1 < E)%R.
Proof.
  unfold E. assert (0 < / IZR (2 ^ 52))%R; [|lra].
  apply Rinv_0_lt_compat. apply IZR_lt. reflexivity.
Qed.

(** One unit in the last place of a 53-digit mantissa is at most the
    round-off times the number. *)
Lemma ulp_bound m e :
  2 ^ 52 <= m -> (F2R (m + 1) e <= E * F2R m e)%R.
Proof.
  intros Hm. rewrite F2R_succ. unfold E, F2R.
  assert (Hp := pow2_pos e).
  assert (Hm' : (IZR (2 ^ 52) <= IZR m)%R) by now apply IZR_le.
  assert (H52 : (0 < IZR (2 ^ 52))%R) by (apply IZR_lt; reflexivity).
  assert (Hi : (1 <= / IZR (2 ^ 52) * IZR m)%R).
  { apply Rmult_le_reg_l with (IZR (2 ^ 52)); [assumption|].
    rewrite <- Rmult_assoc, Rinv_r by lra. lra. }
  nra.
Qed.

(** The rounding lemma on real values: the result lies between the
    mantissa cut to 53 digits ([L]) and the next one up ([U]), and these
    two are within a factor [E] of each other. *)
Lemma binary_round_aux_real mx ex lx :
  2 ^ 52 <= mx ->
  let n := Zdigits2 mx - 53 in
  -1074 <= ex + n -> ex + n + 1 <= 971 ->
  exists m e L U,
    binary_round_aux prec emax false mx ex lx = S754_finite false m e
    /\ 2 ^ 52 <= Zpos m < 2 ^ 53
    /\ ex + n <= e <= ex + n + 1
    /\ (0 < L)%R /\ (U <= E * L)%R
    /\ (L <= F2R (Zpos m) e <= U)%R
    /\ (L <= F2R mx ex)%R /\ (F2R (mx + 1) ex <= U)%R.
Proof.
  intros Hm n Hlo Hhi.
  destruct (binary_round_aux_normal mx ex lx Hm Hlo Hhi)
    as (m & e & Hr & Hmn & He & Hv & Hn & Hm1).
  fold n in He, Hv, Hn, Hm1.
  set (m1 := mx / 2 ^ n) in *.
  assert (H2n : 0 < 2 ^ n) by (apply Z.pow_pos_nonneg; lia).
  assert (Hdm : m1 * 2 ^ n <= mx < (m1 + 1) * 2 ^ n).
  { unfold m1. clear - H2n. generalize dependent (2 ^ n). intros t Ht.
    pose proof (Z.div_mod mx t) as Hd.
    pose proof (Z.mod_pos_bound mx t Ht). nia. }
  exists m, e, (F2R m1 (ex + n)), (F2R (m1 + 1) (ex + n)).
  split; [exact Hr|]. split; [exact Hmn|]. split; [exact He|].
  split; [apply F2R_pos; lia|].
  split; [apply ulp_bound; lia|].
  assert (Hme : F2R (Zpos m) e = F2R (Zpos m * 2 ^ (e - (ex + n))) (ex + n)).
  { rewrite F2R_shift by lia. f_equal. lia. }
  split.
  - rewrite Hme. destruct Hv as [-> | ->]; split;
      try apply Rle_refl; apply F2R_le; lia.
  - split.
    + rewrite <- (F2R_shift m1 ex n) by lia. apply F2R_le. lia.
    + rewrite <- (F2R_shift (m1 + 1) ex n) by lia. apply F2R_le. lia.
Qed.

End RealValue.

Section Operations.

Lemma normal_digits m : 2 ^ 52 <= Zpos m < 2 ^ 53 -> Zdigits2 (Zpos m) = 53.
Proof. intros H. apply Zdigits2_unique; [exact H|lia]. Qed.

Lemma iter_xO_pow p d : Zpos (Pos.iter xO p d) = Zpos p * 2 ^ Zpos d.
Proof.
  apply (Pos.iter_ind positive xO p (fun d r => Zpos r = Zpos p * 2 ^ Zpos d)).
  - rewrite Pos2Z.inj_xO. change (2 ^ 1) with 2. lia.
  - intros q r Hr. rewrite Pos2Z.inj_xO, Hr, Pos2Z.inj_succ, Z.pow_succ_r by lia.
    lia.
Qed.

(** A positive integer below [2^1023] converts to a normal number. *)
Lemma of_Z_normal z k :
  1 <= z < 2 ^ k -> 0 <= k <= 1023 ->
  exists m e,
    of_Z z = S754_finite false m e
    /\ 2 ^ 52 <= Zpos m < 2 ^ 53
    /\ -52 <= e <= Z.max 1 (k - 52).
Proof.
  intros [Hz1 Hzk] Hk.
  destruct z as [|p|p]; try lia.
  unfold of_Z, binary_normalize, binary_round.
  pose proof (Zdigits2_bounds p) as [Blo Bhi].
  change (Zpos (digits2_pos p)) with (Zdigits2 (Zpos p)).
  set (dg := Zdigits2 (Zpos p)) in *.
  assert (Hdg1 : 1 <= dg) by (unfold dg; simpl; lia).
  assert (Hdgk : dg <= k).
  { destruct (Z_lt_le_dec k dg) as [Hlt|]; [|lia].
    assert (2 ^ k <= 2 ^ (dg - 1)) by (apply Z.pow_le_mono_r; lia). lia. }
  replace (fexp prec emax (dg + 0)) with (dg - 53)
    by (unfold fexp, SpecFloat.emin, prec, emax; lia).
  unfold shl_align. rewrite Z.sub_0_r.
  destruct (dg - 53) as [|d|d] eqn:Ed.
  - destruct (binary_round_aux_real (Zpos p) 0 loc_Exact) as
      (m & e & L & U & Hr & Hm & He & _).
    + replace 52 with (dg - 1) by lia. exact Blo.
    + fold dg. lia.
    + fold dg. lia.
    + fold dg in He. exists m, e. split; [exact Hr|]. split; [exact Hm|]. lia.
  - destruct (binary_round_aux_real (Zpos p) 0 loc_Exact) as
      (m & e & L & U & Hr & Hm & He & _).
    + assert (2 ^ 52 <= 2 ^ (dg - 1)) by (apply Z.pow_le_mono_r; lia). lia.
    + fold dg. lia.
    + fold dg. lia.
    + fold dg in He. exists m, e. split; [exact Hr|]. split; [exact Hm|]. lia.
  - assert (Hmz : 2 ^ 52 <= Zpos (Pos.iter xO p d) < 2 ^ 53).
    { rewrite iter_xO_pow.
      assert (Hd : Zpos d = 53 - dg) by lia. rewrite Hd.
      assert (H52 : 2 ^ 52 = 2 ^ (dg - 1) * 2 ^ (53 - dg))
        by (rewrite <- Z.pow_add_r by lia; f_equal; lia).
      assert (H53 : 2 ^ 53 = 2 ^ dg * 2 ^ (53 - dg))
        by (rewrite <- Z.pow_add_r by lia; f_equal; lia).
      assert (0 < 2 ^ (53 - dg)) by (apply Z.pow_pos_nonneg; lia).
      rewrite H52, H53. split.
      - apply Z.mul_le_mono_nonneg_r; lia.
      - apply Z.mul_lt_mono_pos_r; lia. }
    destruct (binary_round_aux_real (Zpos (Pos.iter xO p d)) (Zneg d) loc_Exact)
      as (m & e & L & U & Hr & Hm & He & _).
    + lia.
    + rewrite (normal_digits _ Hmz). lia.
    + rewrite (normal_digits _ Hmz). lia.
    + rewrite (normal_digits _ Hmz) in He.
      exists m, e. split; [exact Hr|]. split; [exact Hm|]. lia.
Qed.

(** A normal number divided by itself is exactly one. *)
Lemma div_self m e :
  2 ^ 52 <= Zpos m < 2 ^ 53 ->
  div (S754_finite false m e) (S754_finite false m e) = of_Z 1.
Proof.
  intros Hm. unfold div, SFdiv, SFdiv_core_binary.
  rewrite (normal_digits _ Hm).
  replace (53 + e - (53 + e)) with 0 by lia.
  replace (e - e) with 0 by lia.
  change (Z.min (fexp prec emax 0) 0) with (-53).
  change (0 - -53) with 53.
  cbv iota beta.
  assert (Hq : Z.div_eucl (Z.shiftl (Zpos m) 53) (Zpos m) = (2 ^ 53, 0)).
  { rewrite Z.shiftl_mul_pow2 by lia.
    pose proof (Z.div_eucl_eq (Zpos m * 2 ^ 53) (Zpos m)) as Heq.
    pose proof (Z.mod_pos_bound (Zpos m * 2 ^ 53) (Zpos m)) as Hb.
    unfold Z.modulo, Z.div in *.
    destruct (Z.div_eucl (Zpos m * 2 ^ 53) (Zpos m)) as [q r].
    specialize (Heq ltac:(lia)). specialize (Hb ltac:(lia)).
    assert (Hr : r = 0).
    { assert (Zpos m * (2 ^ 53 - q) = r) by lia.
      destruct (Z.eq_dec q (2 ^ 53)) as [->|Hne]; [lia|].
      exfalso. assert (2 ^ 53 - q <= -1 \/ 1 <= 2 ^ 53 - q) by lia. nia. }
    subst r. f_equal. nia. }
  rewrite Hq.
  assert (Hl : new_location (Zpos m) 0 = loc_Exact).
  { unfold new_location. destruct (Z.even (Zpos m)); reflexivity. }
  rewrite Hl. reflexivity.
Qed.

End Operations.

Section Operations2.

Lemma digits_range m a b :
  0 <= a -> 2 ^ a <= m < 2 ^ b -> a < Zdigits2 m <= b.
Proof.
  intros Ha [Hlo Hhi].
  assert (Hm : 0 < m) by (pose proof (Z.pow_pos_nonneg 2 a); lia).
  destruct m as [|p|p]; try lia.
  pose proof (Zdigits2_bounds p) as [Blo Bhi].
  set (dg := Zdigits2 (Zpos p)) in *.
  assert (Hdg : 1 <= dg) by (unfold dg; simpl; lia).
  split.
  - destruct (Z_lt_le_dec a dg) as [|Hle]; [assumption|].
    assert (2 ^ dg <= 2 ^ a) by (apply Z.pow_le_mono_r; lia). lia.
  - destruct (Z_lt_le_dec b dg) as [Hlt|]; [|assumption].
    assert (2 ^ b <= 2 ^ (dg - 1)) by (apply Z.pow_le_mono_r; lia). lia.
Qed.

Lemma Rsqr_le_mul (a b : R) : (0 <= a <= b)%R -> (a * a <= b * b)%R.
Proof. intros [Ha Hab]. apply Rmult_le_compat; lra. Qed.

Lemma round_chain (v L U A B x y : R) :
  (0 < L)%R -> (0 < y)%R -> (L <= v <= U)%R -> (U <= E * L)%R ->
  (L <= A)%R -> (B <= U)%R -> (A * y <= x)%R -> (x <= B * y)%R ->
  (v * y <= E * x)%R /\ (x <= E * (v * y))%R.
Proof.
  intros HL Hy [HLv HvU] HU HLA HBU HAx HxB.
  pose proof E_pos as HE.
  assert (H1 : (v * y <= U * y)%R) by (apply Rmult_le_compat_r; lra).
  assert (H2 : (U * y <= E * L * y)%R) by (apply Rmult_le_compat_r; lra).
  assert (H3 : (L * y <= A * y)%R) by (apply Rmult_le_compat_r; lra).
  assert (H4 : (E * (L * y) <= E * (A * y))%R)
    by (apply Rmult_le_compat_l; lra).
  assert (H5 : (E * (A * y) <= E * x)%R) by (apply Rmult_le_compat_l; lra).
  assert (H6 : (B * y <= U * y)%R) by (apply Rmult_le_compat_r; lra).
  assert (H7 : (L * y <= v * y)%R) by (apply Rmult_le_compat_r; lra).
  assert (H8 : (E * (L * y) <= E * (v * y))%R)
    by (apply Rmult_le_compat_l; lra).
  split; lra.
Qed.

(** The product of two normal numbers, away from overflow and underflow,
    is a normal number within a factor [E] of the exact product. *)
Lemma mul_normal m1 e1 m2 e2 :
  2 ^ 52 <= Zpos m1 < 2 ^ 53 -> 2 ^ 52 <= Zpos m2 < 2 ^ 53 ->
  -1126 <= e1 + e2 <= 917 ->
  exists m e,
    mul (S754_finite false m1 e1) (S754_finite false m2 e2)
    = S754_finite false m e
    /\ 2 ^ 52 <= Zpos m < 2 ^ 53
    /\ e1 + e2 + 52 <= e <= e1 + e2 + 54
    /\ (F2R (Zpos m) e <= E * (F2R (Zpos m1) e1 * F2R (Zpos m2) e2))%R
    /\ (F2R (Zpos m1) e1 * F2R (Zpos m2) e2 <= E * F2R (Zpos m) e)%R.
Proof.
  intros H1 H2 He.
  unfold mul, SFmul. cbn [xorb].
  assert (Hp : 2 ^ 104 <= Zpos (m1 * m2) < 2 ^ 106).
  { rewrite Pos2Z.inj_mul.
    change (2 ^ 104) with (2 ^ 52 * 2 ^ 52). change (2 ^ 106) with (2 ^ 53 * 2 ^ 53).
    split.
    - apply Z.mul_le_mono_nonneg; lia.
    - apply Z.mul_lt_mono_nonneg; lia. }
  destruct (digits_range _ 104 106 ltac:(lia) Hp) as [Hd1 Hd2].
  destruct (binary_round_aux_real (Zpos (m1 * m2)) (e1 + e2) loc_Exact)
    as (m & e & L & U & Hr & Hm & Hee & HL & HU & [HLv HvU] & HLx & HxU).
  - assert (2 ^ 52 <= 2 ^ 104) by (apply Z.pow_le_mono_r; lia). lia.
  - lia.
  - lia.
  - exists m, e. split; [exact Hr|]. split; [exact Hm|]. split; [lia|].
    rewrite F2R_mul, <- Pos2Z.inj_mul.
    assert (Hx1 : (F2R (Zpos (m1 * m2)) (e1 + e2)
                   <= F2R (Zpos (m1 * m2) + 1) (e1 + e2))%R)
      by (apply F2R_le; lia).
    pose proof E_pos. split; nra.
Qed.

(** The quotient of two normal numbers. *)
Lemma div_normal m1 e1 m2 e2 :
  2 ^ 52 <= Zpos m1 < 2 ^ 53 -> 2 ^ 52 <= Zpos m2 < 2 ^ 53 ->
  -1021 <= e1 - e2 <= 1021 ->
  exists m e,
    div (S754_finite false m1 e1) (S754_finite false m2 e2)
    = S754_finite false m e
    /\ 2 ^ 52 <= Zpos m < 2 ^ 53
    /\ e1 - e2 - 53 <= e <= e1 - e2 - 51
    /\ (F2R (Zpos m) e * F2R (Zpos m2) e2 <= E * F2R (Zpos m1) e1)%R
    /\ (F2R (Zpos m1) e1 <= E * (F2R (Zpos m) e * F2R (Zpos m2) e2))%R.
Proof.
  intros H1 H2 He.
  unfold div, SFdiv, SFdiv_core_binary.
  rewrite (normal_digits _ H1), (normal_digits _ H2).
  replace (Z.min (fexp prec emax (53 + e1 - (53 + e2))) (e1 - e2))
    with (e1 - e2 - 53)
    by (unfold fexp, SpecFloat.emin, prec, emax; lia).
  replace (e1 - e2 - (e1 - e2 - 53)) with 53 by lia.
  cbv iota beta.
  rewrite Z.shiftl_mul_pow2 by lia.
  set (m' := Zpos m1 * 2 ^ 53).
  pose proof (Z.div_eucl_eq m' (Zpos m2) ltac:(lia)) as Heq.
  pose proof (Z.mod_pos_bound m' (Zpos m2) ltac:(lia)) as Hb.
  unfold Z.modulo in Hb.
  destruct (Z.div_eucl m' (Zpos m2)) as [q r] eqn:Eqr.
  assert (Hm' : 2 ^ 105 <= m' < 2 ^ 106).
  { unfold m'. change (2 ^ 105) with (2 ^ 52 * 2 ^ 53).
    change (2 ^ 106) with (2 ^ 53 * 2 ^ 53). lia. }
  assert (Hq0 : 0 <= q).
  { destruct (Z_lt_le_dec q 0) as [Hlt|]; [|assumption]. exfalso.
    assert (Zpos m2 * q <= Zpos m2 * (-1))
      by (apply Z.mul_le_mono_nonneg_l; lia).
    lia. }
  assert (Hq : 2 ^ 52 <= q < 2 ^ 54).
  { split.
    - destruct (Z_lt_le_dec q (2 ^ 52)) as [Hlt|]; [|assumption]. exfalso.
      assert (Zpos m2 * q <= (2 ^ 53 - 1) * (2 ^ 52 - 1))
        by (apply Z.mul_le_mono_nonneg; lia).
      change (2 ^ 105) with (2 ^ 53 * 2 ^ 52) in Hm'. lia.
    - destruct (Z_lt_le_dec q (2 ^ 54)) as [|Hge]; [assumption|]. exfalso.
      assert (2 ^ 52 * 2 ^ 54 <= Zpos m2 * q)
        by (apply Z.mul_le_mono_nonneg; lia).
      change (2 ^ 106) with (2 ^ 52 * 2 ^ 54) in Hm'. lia. }
  destruct (digits_range _ 52 54 ltac:(lia) Hq) as [Hd1 Hd2].
  destruct (binary_round_aux_real q (e1 - e2 - 53) (new_location (Zpos m2) r))
    as (m & e & L & U & Hr & Hm & Hee & HL & HU & [HLv HvU] & HLx & HxU).
  - lia.
  - lia.
  - lia.
  - exists m, e. split; [exact Hr|]. split; [exact Hm|]. split; [lia|].
    set (y := F2R (Zpos m2) e2).
    assert (Hy : (0 < y)%R) by (apply F2R_pos; lia).
    assert (Hx : F2R (Zpos m1) e1 = F2R m' (e1 - 53)).
    { unfold m'. rewrite F2R_shift by lia. f_equal. lia. }
    assert (Hlo : (F2R q (e1 - e2 - 53) * y <= F2R (Zpos m1) e1)%R).
    { unfold y. rewrite F2R_mul, Hx.
      replace (e1 - e2 - 53 + e2) with (e1 - 53) by lia.
      apply F2R_le. lia. }
    assert (Hhi : (F2R (Zpos m1) e1 <= F2R (q + 1) (e1 - e2 - 53) * y)%R).
    { unfold y. rewrite F2R_mul, Hx.
      replace (e1 - e2 - 53 + e2) with (e1 - 53) by lia.
      apply F2R_le. lia. }
    exact (round_chain _ L U _ _ _ y HL Hy (conj HLv HvU) HU HLx HxU Hlo Hhi).
Qed.

(** The square root of a normal number. *)
Lemma sqrt_normal m e :
  2 ^ 52 <= Zpos m < 2 ^ 53 -> -1000 <= e <= 1000 ->
  exists ms es,
    sqrt (S754_finite false m e) = S754_finite false ms es
    /\ 2 ^ 52 <= Zpos ms < 2 ^ 53
    /\ e / 2 - 26 <= es <= e / 2 - 25
    /\ (F2R (Zpos ms) es * F2R (Zpos ms) es <= E * E * F2R (Zpos m) e)%R
    /\ (F2R (Zpos m) e <= E * E * (F2R (Zpos ms) es * F2R (Zpos ms) es))%R.
Proof.
  intros Hm He.
  unfold sqrt, SFsqrt.
  set (k := e / 2).
  assert (Hcore :
    exists s l,
      (52 <= s <= 53) /\ e = 2 * (k - 26) + s /\
      SFsqrt_core_binary prec emax (Zpos m) e
      = (Z.sqrt (Zpos m * 2 ^ s), k - 26, l)).
  { unfold SFsqrt_core_binary.
    rewrite (normal_digits _ Hm).
    replace (Z.min (fexp prec emax (Z.div2 (53 + e + 1))) (Z.div2 e))
      with (k - 26)
      by (rewrite !Z.div2_div; unfold fexp, SpecFloat.emin, prec, emax, k;
          change IntDef.Z.max with Z.max; Z.div_mod_to_equations; lia).
    assert (Hs : e - 2 * (k - 26) = 52 \/ e - 2 * (k - 26) = 53)
      by (unfold k; Z.div_mod_to_equations; lia).
    cbv zeta.
    destruct Hs as [Hs|Hs]; rewrite Hs; cbv iota beta;
      rewrite Z.shiftl_mul_pow2 by lia;
      match goal with |- context [Z.sqrtrem ?a] =>
        pose proof (Z.sqrtrem_sqrt a) as Hq;
        destruct (Z.sqrtrem a) as [q r]; cbn [fst] in Hq; subst q
      end; eexists _, _; (split; [|split; [|reflexivity]]); lia. }
  destruct Hcore as (s & l & Hsr & Hes & Hcore). rewrite Hcore. clear Hcore.
  set (m' := Zpos m * 2 ^ s).
  assert (Hm' : 2 ^ 104 <= m' < 2 ^ 106).
  { unfold m'. destruct (Z.eq_dec s 52) as [->|Hne].
    - change (2 ^ 104) with (2 ^ 52 * 2 ^ 52).
      change (2 ^ 106) with (2 ^ 54 * 2 ^ 52). lia.
    - replace s with 53 by lia.
      change (2 ^ 104) with (2 ^ 51 * 2 ^ 53).
      change (2 ^ 106) with (2 ^ 53 * 2 ^ 53). lia. }
  pose proof (Z.sqrt_spec m' ltac:(lia)) as Hsq.
  set (q := Z.sqrt m') in *.
  assert (Hq : 2 ^ 52 <= q < 2 ^ 53).
  { split.
    - change (2 ^ 52) with (Z.sqrt (2 ^ 104)). apply Z.sqrt_le_mono. lia.
    - assert (q <= Z.sqrt (2 ^ 106 - 1)) by (apply Z.sqrt_le_mono; lia).
      change (Z.sqrt (2 ^ 106 - 1)) with (2 ^ 53 - 1) in H. lia. }
  destruct (binary_round_aux_real q (k - 26) l)
    as (ms & es & L & U & Hr & Hms & Hee & HL & HU & [HLv HvU] & HLx & HxU).
  - lia.
  - rewrite (Zdigits2_unique q 53) by lia. lia.
  - rewrite (Zdigits2_unique q 53) by lia. lia.
  - rewrite (Zdigits2_unique q 53) in Hee by lia.
    exists ms, es. split; [exact Hr|]. split; [exact Hms|]. split; [lia|].
    set (v := F2R (Zpos ms) es) in *.
    set (A := F2R q (k - 26)) in *. set (B := F2R (q + 1) (k - 26)) in *.
    assert (Hx : F2R (Zpos m) e = F2R m' ((k - 26) + (k - 26))).
    { unfold m'. rewrite F2R_shift by lia. f_equal. lia. }
    assert (HA : (A * A <= F2R (Zpos m) e)%R).
    { unfold A. rewrite F2R_mul, Hx. apply F2R_le.
      unfold Z.succ in Hsq. lia. }
    assert (HB : (F2R (Zpos m) e <= B * B)%R).
    { unfold B. rewrite F2R_mul, Hx. apply F2R_le.
      unfold Z.succ in Hsq. lia. }
    assert (HA0 : (0 < A)%R) by (apply F2R_pos; lia).
    pose proof E_pos as HE.
    assert (HB0 : (0 < B)%R) by (apply F2R_pos; lia).
    assert (HEL : (E * L <= E * A)%R) by (apply Rmult_le_compat_l; lra).
    assert (HEv : (E * L <= E * v)%R) by (apply Rmult_le_compat_l; lra).
    assert (Hv1 : (v * v <= (E * A) * (E * A))%R)
      by (apply Rsqr_le_mul; lra).
    assert (Hv2 : (B * B <= (E * v) * (E * v))%R)
      by (apply Rsqr_le_mul; lra).
    assert (HEE : (0 <= E * E)%R) by (apply Rmult_le_pos; lra).
    assert (H1 : (E * E * (A * A) <= E * E * F2R (Zpos m) e)%R)
      by (apply Rmult_le_compat_l; lra).
    split; lra.
Qed.

End Operations2.

Section CosineOfIdenticalTexts.

Lemma E4_upper : (E * E * E * E <= 1 + 5 * / IZR (2 ^ 52))%R.
Proof.
  unfold E. change (2 ^ 52) with 4503599627370496. lra.
Qed.

Lemma E4_lower : ((1 - 4 * / IZR (2 ^ 52)) * (E * E * E * E) <= 1)%R.
Proof.
  unfold E. change (2 ^ 52) with 4503599627370496. nra.
Qed.

(** [x / (sqrt x * sqrt x)] in binary64, for a normal [x]: a normal
    number within a few units in the last place of one. *)
Lemma cosine_self_near_one m e :
  2 ^ 52 <= Zpos m < 2 ^ 53 -> -400 <= e <= 400 ->
  let x := S754_finite false m e in
  exists mc ec,
    div x (mul (sqrt x) (sqrt x)) = S754_finite false mc ec
    /\ 2 ^ 52 <= Zpos mc < 2 ^ 53
    /\ -57 <= ec <= -50
    /\ (1 - 4 * / IZR (2 ^ 52) <= F2R (Zpos mc) ec <= 1 + 5 * / IZR (2 ^ 52))%R.
Proof.
  intros Hm He x. unfold x.
  destruct (sqrt_normal m e Hm ltac:(lia))
    as (ms & es & Hs & Hms & Hes & Hs1 & Hs2).
  rewrite Hs.
  destruct (mul_normal ms es ms es Hms Hms)
    as (mp & ep & Hp & Hmp & Hep & Hp1 & Hp2);
    [Z.div_mod_to_equations; lia|].
  rewrite Hp.
  destruct (div_normal m e mp ep Hm Hmp)
    as (mc & ec & Hc & Hmc & Hec & Hc1 & Hc2);
    [Z.div_mod_to_equations; lia|].
  exists mc, ec. split; [exact Hc|]. split; [exact Hmc|].
  split; [Z.div_mod_to_equations; lia|].
  set (X := F2R (Zpos m) e) in *. set (V := F2R (Zpos ms) es) in *.
  set (P := F2R (Zpos mp) ep) in *. set (G := F2R (Zpos mc) ec) in *.
  assert (HP : (0 < P)%R) by (apply F2R_pos; lia).
  assert (HG : (0 < G)%R) by (apply F2R_pos; lia).
  pose proof E_pos as HE.
  assert (HE2 : (0 <= E * E)%R) by (apply Rmult_le_pos; lra).
  assert (HE3 : (0 <= E * E * E)%R) by (apply Rmult_le_pos; lra).
  (* G * P <= E^4 * P *)
  assert (A1 : (E * X <= E * (E * E * (V * V)))%R)
    by (apply Rmult_le_compat_l; lra).
  assert (A2 : (E * E * E * (V * V) <= E * E * E * (E * P))%R)
    by (apply Rmult_le_compat_l; lra).
  assert (A3 : (G * P <= E * E * E * E * P)%R) by lra.
  assert (A4 : (G <= E * E * E * E)%R)
    by (apply Rmult_le_reg_r with P; lra).
  (* P <= E^4 * G * P *)
  assert (B1 : (E * (V * V) <= E * (E * E * X))%R)
    by (apply Rmult_le_compat_l; lra).
  assert (B2 : (E * E * E * X <= E * E * E * (E * (G * P)))%R)
    by (apply Rmult_le_compat_l; lra).
  assert (B3 : (1 * P <= E * E * E * E * G * P)%R) by lra.
  assert (B4 : (1 <= E * E * E * E * G)%R)
    by (apply Rmult_le_reg_r with P; lra).
  pose proof E4_upper as U4. pose proof E4_lower as L4.
  split; [|lra].
  assert (HE4 : (0 < E * E * E * E)%R).
  { apply Rmult_lt_0_compat; [|lra]. apply Rmult_lt_0_compat; [|lra].
    apply Rmult_lt_0_compat; lra. }
  apply Rmult_le_reg_r with (E * E * E * E)%R; [exact HE4|].
  assert (G * (E * E * E * E) = E * E * E * E * G)%R by ring.
  lra.
Qed.

End CosineOfIdenticalTexts.

Section NearOne.

Lemma pow2_neg j : 0 <= j -> powerRZ 2 (- j) = (/ IZR (2 ^ j))%R.
Proof.
  intros Hj.
  assert (Hp : (0 < IZR (2 ^ j))%R)
    by (apply IZR_lt, Z.pow_pos_nonneg; lia).
  apply Rmult_eq_reg_r with (IZR (2 ^ j)); [|lra].
  rewrite Rinv_l by lra.
  rewrite pow2_IZR, <- pow2_add by assumption.
  replace (- j + j) with 0 by lia. reflexivity.
Qed.

Ltac use_pow2_neg j :=
  let Hp := fresh in
  pose proof (pow2_neg j ltac:(lia)) as Hp; cbn [Z.opp] in Hp;
  rewrite Hp in *; clear Hp.

Lemma near_one_cases mc ec :
  2 ^ 52 <= Zpos mc < 2 ^ 53 -> -57 <= ec <= -50 ->
  (1 - 4 * / IZR (2 ^ 52) <= F2R (Zpos mc) ec <= 1 + 5 * / IZR (2 ^ 52))%R ->
  (ec = -53 /\ 2 ^ 53 - 8 <= Zpos mc) \/ (ec = -52 /\ Zpos mc <= 2 ^ 52 + 5).
Proof.
  intros [Hm1 Hm2] He [Hlo Hhi].
  apply IZR_le in Hm1. apply IZR_lt in Hm2.
  unfold F2R in Hlo, Hhi.
  change (2 ^ 52) with 4503599627370496 in *.
  change (2 ^ 53) with 9007199254740992 in *.
  assert (Hec : ec = -57 \/ ec = -56 \/ ec = -55 \/ ec = -54 \/ ec = -53
                \/ ec = -52 \/ ec = -51 \/ ec = -50) by lia.
  destruct Hec as [->|[->|[->|[->|[->|[->|[->| ->]]]]]]].
  - exfalso. use_pow2_neg 57.
    change (2 ^ 57) with 144115188075855872 in Hlo. lra.
  - exfalso. use_pow2_neg 56.
    change (2 ^ 56) with 72057594037927936 in Hlo. lra.
  - exfalso. use_pow2_neg 55.
    change (2 ^ 55) with 36028797018963968 in Hlo. lra.
  - exfalso. use_pow2_neg 54.
    change (2 ^ 54) with 18014398509481984 in Hlo. lra.
  - left. split; [reflexivity|].
    use_pow2_neg 53.
    change (2 ^ 53) with 9007199254740992 in Hlo.
    apply le_IZR. change (9007199254740992 - 8) with 9007199254740984. lra.
  - right. split; [reflexivity|].
    use_pow2_neg 52.
    change (2 ^ 52) with 4503599627370496 in Hhi.
    apply le_IZR. change (4503599627370496 + 5) with 4503599627370501. lra.
  - exfalso. use_pow2_neg 51.
    change (2 ^ 51) with 2251799813685248 in Hhi. lra.
  - exfalso. use_pow2_neg 50.
    change (2 ^ 50) with 1125899906842624 in Hhi. lra.
Qed.

Lemma same_number_eq x y : same_number x y = true -> x = y.
Proof.
  destruct x as [sx|sx| |sx mx ex], y as [sy|sy| |sy my ey]; simpl;
    try discriminate; auto.
  - intros H. apply eqb_prop in H. now subst.
  - intros H. apply eqb_prop in H. now subst.
  - intros H. apply andb_prop in H as [H He]. apply andb_prop in H as [Hs Hm].
    apply eqb_prop in Hs. apply Pos.eqb_eq in Hm. apply Z.eqb_eq in He.
    now subst.
Qed.

(** Every binary64 number that close to one gives a score of 100. *)
Lemma score_of_cosine_near_one mc ec :
  2 ^ 52 <= Zpos mc < 2 ^ 53 ->
  (ec = -53 /\ 2 ^ 53 - 8 <= Zpos mc) \/ (ec = -52 /\ Zpos mc <= 2 ^ 52 + 5) ->
  score_of_cosine (S754_finite false mc ec) = of_Z 100.
Proof.
  intros [Hm1 Hm2] [[-> Hm]|[-> Hm]]; apply same_number_eq.
  - assert (Hall : forallb
               (fun k => same_number
                           (score_of_cosine
                              (S754_finite false (Z.to_pos (2 ^ 53 - Z.of_nat k)) (-53)))
                           (of_Z 100))
               (seq 1 8) = true) by (vm_compute; reflexivity).
    rewrite forallb_forall in Hall.
    specialize (Hall (Z.to_nat (2 ^ 53 - Zpos mc))).
    rewrite Z2Nat.id in Hall by lia.
    replace (2 ^ 53 - (2 ^ 53 - Zpos mc)) with (Zpos mc) in Hall by lia.
    rewrite Pos2Z.id in Hall. apply Hall, in_seq. lia.
  - assert (Hall : forallb
               (fun k => same_number
                           (score_of_cosine
                              (S754_finite false (Z.to_pos (2 ^ 52 + Z.of_nat k)) (-52)))
                           (of_Z 100))
               (seq 0 6) = true) by (vm_compute; reflexivity).
    rewrite forallb_forall in Hall.
    specialize (Hall (Z.to_nat (Zpos mc - 2 ^ 52))).
    rewrite Z2Nat.id in Hall by lia.
    replace (2 ^ 52 + (Zpos mc - 2 ^ 52)) with (Zpos mc) in Hall by lia.
    rewrite Pos2Z.id in Hall. apply Hall, in_seq. lia.
Qed.

End NearOne.

End FloatFacts.

(** ** Scores of identical and of unrelated texts *)

Module ScoreFacts.
Import JSNumber Text ML Spec MLFacts FloatFacts.

Section EnsembleScores.
Variable tokenize : string -> list string.

Lemma sumZ_bounds {A} (f : A -> Z) (l : list A) (lo hi : Z) :
  (forall x, In x l -> lo <= f x <= hi) ->
  lo * size l <= sumZ (map f l) <= hi * size l.
Proof.
  unfold size. induction l as [|a l IH]; intros H.
  - simpl. lia.
  - cbn [map sumZ fold_right List.length].
    assert (Ha : lo <= f a <= hi) by (apply H; simpl; auto).
    assert (Hl : lo * Z.of_nat (List.length l) <= sumZ (map f l)
                 <= hi * Z.of_nat (List.length l))
      by (apply IH; intros; apply H; simpl; auto).
    unfold sumZ in Hl. rewrite Nat2Z.inj_succ. lia.
Qed.

Lemma size_nonneg {A} (l : list A) : 0 <= size l.
Proof. unfold size. lia. Qed.

Lemma size_pos {A} (l : list A) : l <> [] -> 1 <= size l.
Proof. unfold size. destruct l; [congruence|simpl; lia]. Qed.

Lemma size_app {A} (l1 l2 : list A) : size (l1 ++ l2) = size l1 + size l2.
Proof. unfold size. rewrite length_app. lia. Qed.

Lemma size_Set_of_pos l : l <> [] -> 1 <= size (Set_of l).
Proof. intros H. apply size_pos. now rewrite Set_of_nil_iff. Qed.

(** The sum of the squared term frequencies over the vocabulary. *)
Lemma squared_counts_bounds words L :
  (forall w, In w L -> In w words) -> L <> [] ->
  size L <= 2 * size words -> size words < 2 ^ 32 ->
  1 <= sumZ (map (fun w => occurrences words w * occurrences words w) L)
    < 2 ^ 100.
Proof.
  intros Hin Hne HL Hw.
  pose proof (size_pos L Hne) as HLp.
  pose proof (size_nonneg words) as Hw0.
  set (s := size words) in *.
  destruct (sumZ_bounds (fun w => occurrences words w * occurrences words w)
              L 1 (s * s)) as [Hlo Hhi].
  { intros w Hw'. pose proof (occurrences_pos words w (Hin w Hw')) as H1.
    pose proof (occurrences_bounds words w) as [_ H2]. fold s in H2.
    split; [nia|]. apply Z.mul_le_mono_nonneg; lia. }
  split; [lia|].
  assert (Hss : s * s <= (2 ^ 32 - 1) * (2 ^ 32 - 1))
    by (apply Z.mul_le_mono_nonneg; lia).
  assert (Hsl : s * s * size L <= (2 ^ 32 - 1) * (2 ^ 32 - 1) * (2 * (2 ^ 32 - 1))).
  { apply Z.mul_le_mono_nonneg; try lia; try (apply Z.mul_nonneg_nonneg; lia). }
  eapply Z.le_lt_trans; [exact Hhi|].
  eapply Z.le_lt_trans; [exact Hsl|]. reflexivity.
Qed.

Lemma strict_eq_normal_zero m e :
  strict_eq (S754_finite false m e) (of_Z 0) = false.
Proof. reflexivity. Qed.

Lemma sqrt_of_Z_zero : sqrt (of_Z 0) = of_Z 0.
Proof. reflexivity. Qed.

Lemma div_zero_normal m e : div (of_Z 0) (S754_finite false m e) = of_Z 0.
Proof. reflexivity. Qed.

(** C4 (corrected). On two copies of a text that keeps at least one
    word after stop-word removal, the local ensemble scores 100. *)
Theorem identical_texts_with_a_surviving_word_score_100 (text : string) :
  surviving_words tokenize text <> [] ->
  size (surviving_words tokenize text) < 2 ^ 32 ->
  score (calculateSimilarityFallback tokenize text text) = of_Z 100.
Proof.
  intros Hne Hlen.
  unfold calculateSimilarityFallback. cbv zeta. cbn [score].
  fold (surviving_words tokenize text).
  set (words := surviving_words tokenize text) in *.
  rewrite levenshtein_same.
  (* the Jaccard similarity is one *)
  assert (HJ : calculateJaccardSimilarity words words = of_Z 1).
  { unfold calculateJaccardSimilarity. cbv zeta.
    assert (Hi : size (Set_of (filter (Set_has (Set_of words)) (Set_of words)))
                 = size (Set_of words)).
    { unfold size. f_equal. apply Permutation_length.
      apply NoDup_Permutation; try apply Set_of_NoDup.
      intros x. rewrite Set_of_In, filter_has_In. tauto. }
    assert (Hu : size (Set_of (Set_of words ++ Set_of words))
                 = size (Set_of words)).
    { unfold size. f_equal. apply Permutation_length.
      apply NoDup_Permutation; try apply Set_of_NoDup.
      intros x. rewrite Set_of_In, in_app_iff. tauto. }
    rewrite Hi, Hu.
    pose proof (size_Set_of_pos words Hne) as Hp.
    pose proof (size_Set_of_le words) as Hle.
    destruct (of_Z_normal (size (Set_of words)) 32) as (m & e & Hz & Hm & _);
      [lia|lia|].
    rewrite Hz. now apply div_self. }
  (* the cosine similarity is within a few units in the last place of one *)
  rewrite HJ, cosine_unfold. cbv zeta.
  set (L := Set_of (words ++ words)).
  set (d := sumZ (map (fun w => occurrences words w * occurrences words w) L)).
  assert (Hd : 1 <= d < 2 ^ 100).
  { apply squared_counts_bounds; auto.
    - intros w Hw. unfold L in Hw. rewrite Set_of_In, in_app_iff in Hw. tauto.
    - unfold L. rewrite Set_of_nil_iff. destruct words; [congruence|discriminate].
    - unfold L. pose proof (size_Set_of_le (words ++ words)) as H.
      rewrite size_app in H. lia. }
  destruct (of_Z_normal d 100 Hd ltac:(lia)) as (m & e & Hz & Hm & He).
  rewrite Hz.
  destruct (sqrt_normal m e Hm ltac:(lia)) as (ms & es & Hs & _).
  rewrite Hs, strict_eq_normal_zero. cbn [orb]. rewrite <- Hs.
  destruct (cosine_self_near_one m e Hm ltac:(lia))
    as (mc & ec & Hc & Hmc & Hec & Hbounds).
  rewrite Hc.
  apply (score_of_cosine_near_one mc ec Hmc).
  now apply near_one_cases.
Qed.

End EnsembleScores.

Section DisjointTexts.
Variable tokenize : string -> list string.

(** With no common word, the score is the edit-distance term alone:
    a fifth of [max(0, 100 - distance)], rounded. *)
Lemma score_of_distance_value (lev : Z) :
  0 <= lev ->
  score_of_distance lev = of_Z ((2 * Z.max 0 (100 - lev) + 5) / 10).
Proof.
  intros Hlev. unfold score_of_distance, combined.
  set (m := Z.max 0 (100 - lev)).
  assert (Hm : 0 <= m <= 100) by (unfold m; lia).
  assert (Hall :
    forallb (fun k =>
      same_number
        (Math_min (of_Z 100)
           (Math_max (of_Z 0)
              (Math_round
                 (add (add (mul (of_Z 0) (of_Z 40)) (mul (of_Z 0) (of_Z 40)))
                      (mul (div (of_Z (Z.of_nat k)) (of_Z 100)) (of_Z 20))))))
        (of_Z ((2 * Z.of_nat k + 5) / 10)))
      (seq 0 101) = true) by (vm_compute; reflexivity).
  rewrite forallb_forall in Hall.
  specialize (Hall (Z.to_nat m)). rewrite Z2Nat.id in Hall by lia.
  apply same_number_eq, Hall, in_seq. lia.
Qed.

Lemma cosine_disjoint w1 w2 :
  (forall w, In w w1 -> ~ In w w2) ->
  size w1 < 2 ^ 32 -> size w2 < 2 ^ 32 ->
  calculateCosineSimilarity w1 w2 = of_Z 0.
Proof.
  intros Hd H1 H2. rewrite cosine_unfold. cbv zeta.
  set (L := Set_of (w1 ++ w2)).
  assert (Hdot : sumZ (map (fun w => occurrences w1 w * occurrences w2 w) L) = 0).
  { destruct (sumZ_bounds (fun w => occurrences w1 w * occurrences w2 w) L 0 0)
      as [Hlo Hhi]; [|lia].
    intros w _. destruct (in_dec string_dec w w1) as [Hi|Hn].
    - rewrite (occurrences_zero w2 w (Hd w Hi)). lia.
    - rewrite (occurrences_zero w1 w Hn). lia. }
  rewrite Hdot.
  assert (Hmag : forall words,
    (forall w, In w words -> In w L) -> size words < 2 ^ 32 ->
    size L <= size w1 + size w2 ->
    sqrt (of_Z (sumZ (map (fun w => occurrences words w * occurrences words w) L)))
    = of_Z 0
    \/ exists m e,
        sqrt (of_Z (sumZ (map (fun w => occurrences words w * occurrences words w) L)))
        = S754_finite false m e
        /\ 2 ^ 52 <= Zpos m < 2 ^ 53 /\ -52 <= e <= 50).
  { intros words Hsub Hw HL.
    set (d := sumZ (map (fun w => occurrences words w * occurrences words w) L)).
    pose proof (size_nonneg words) as Hw0.
    pose proof (size_nonneg L) as HL0.
    destruct (sumZ_bounds (fun w => occurrences words w * occurrences words w)
                L 0 (size words * size words)) as [Hlo Hhi].
    { intros w _. pose proof (occurrences_bounds words w) as [Ho1 Ho2].
      split; [nia|]. apply Z.mul_le_mono_nonneg; lia. }
    fold d in Hlo, Hhi.
    destruct (Z.eq_dec d 0) as [->|Hnz]; [left; reflexivity|right].
    assert (Hd1 : 1 <= d < 2 ^ 100).
    { split; [lia|].
      assert (size words * size words <= (2 ^ 32 - 1) * (2 ^ 32 - 1))
        by (apply Z.mul_le_mono_nonneg; lia).
      assert (size words * size words * size L
              <= (2 ^ 32 - 1) * (2 ^ 32 - 1) * (2 * (2 ^ 32 - 1)))
        by (apply Z.mul_le_mono_nonneg; try lia;
            try (apply Z.mul_nonneg_nonneg; lia)).
      eapply Z.le_lt_trans; [exact Hhi|].
      eapply Z.le_lt_trans; [eassumption|]. reflexivity. }
    destruct (of_Z_normal d 100 Hd1 ltac:(lia)) as (m & e & Hz & Hm & He).
    rewrite Hz.
    destruct (sqrt_normal m e Hm ltac:(lia)) as (ms & es & Hs & Hms & Hes & _).
    exists ms, es. split; [exact Hs|]. split; [exact Hms|].
    Z.div_mod_to_equations. lia. }
  assert (HL : size L <= size w1 + size w2).
  { unfold L. pose proof (size_Set_of_le (w1 ++ w2)) as H.
    now rewrite size_app in H. }
  assert (Hsub1 : forall w, In w w1 -> In w L)
    by (intros w Hw; unfold L; rewrite Set_of_In, in_app_iff; auto).
  assert (Hsub2 : forall w, In w w2 -> In w L)
    by (intros w Hw; unfold L; rewrite Set_of_In, in_app_iff; auto).
  destruct (Hmag w1 Hsub1 H1 HL) as [E1 | (m1 & e1 & E1 & Hm1 & He1)];
    rewrite E1; [reflexivity|].
  destruct (Hmag w2 Hsub2 H2 HL) as [E2 | (m2 & e2 & E2 & Hm2 & He2)];
    rewrite E2; [reflexivity|].
  rewrite !strict_eq_normal_zero. cbn [orb].
  destruct (mul_normal m1 e1 m2 e2 Hm1 Hm2 ltac:(lia)) as (m & e & -> & _).
  reflexivity.
Qed.

Lemma jaccard_disjoint w1 w2 :
  (forall w, In w w1 -> ~ In w w2) ->
  w1 <> [] \/ w2 <> [] ->
  size w1 < 2 ^ 32 -> size w2 < 2 ^ 32 ->
  calculateJaccardSimilarity w1 w2 = of_Z 0.
Proof.
  intros Hd Hne H1 H2. unfold calculateJaccardSimilarity. cbv zeta.
  assert (Hi : filter (Set_has (Set_of w2)) (Set_of w1) = []).
  { destruct (filter (Set_has (Set_of w2)) (Set_of w1)) as [|x l] eqn:Ef; auto.
    exfalso. assert (Hx : In x (x :: l)) by (simpl; auto).
    rewrite <- Ef, filter_has_In, !Set_of_In in Hx. now apply (Hd x). }
  rewrite Hi. change (size (Set_of [])) with 0.
  set (u := size (Set_of (Set_of w1 ++ Set_of w2))).
  assert (Hu : 1 <= u < 2 ^ 33).
  { unfold u. split.
    - apply size_Set_of_pos. intros Happ. apply app_eq_nil in Happ as [Ha Hb].
      rewrite Set_of_nil_iff in Ha, Hb. tauto.
    - pose proof (size_Set_of_le (Set_of w1 ++ Set_of w2)) as H.
      rewrite size_app in H.
      pose proof (size_Set_of_le w1). pose proof (size_Set_of_le w2). lia. }
  destruct (of_Z_normal u 33 Hu ltac:(lia)) as (m & e & -> & _).
  reflexivity.
Qed.

(** C3 (corrected). For two texts with no common word and no common
    code unit, at least one of which keeps a word, the local ensemble
    returns the edit-distance term alone: [max(0, 100 - n) / 5] rounded,
    [n] being the length of the longer text; this is zero exactly when
    the longer text has 98 code units or more. *)
Theorem disjoint_texts_score_the_distance_term (a b : string) :
  let w1 := surviving_words tokenize a in
  let w2 := surviving_words tokenize b in
  let n := Z.max (Z.of_nat (String.length a)) (Z.of_nat (String.length b)) in
  (w1 <> [] \/ w2 <> []) ->
  (forall w, In w w1 -> ~ In w w2) ->
  (forall x y, In x (chars a) -> In y (chars b) -> x <> y) ->
  size w1 < 2 ^ 32 -> size w2 < 2 ^ 32 ->
  score (calculateSimilarityFallback tokenize a b)
  = of_Z ((2 * Z.max 0 (100 - n) + 5) / 10)
  /\ (score (calculateSimilarityFallback tokenize a b) = of_Z 0 <-> 98 <= n).
Proof.
  intros w1 w2 n Hne Hd Hc H1 H2.
  assert (Hs : score (calculateSimilarityFallback tokenize a b)
               = of_Z ((2 * Z.max 0 (100 - n) + 5) / 10)).
  { unfold calculateSimilarityFallback. cbv zeta. cbn [score].
    fold (surviving_words tokenize a). fold (surviving_words tokenize b).
    fold w1. fold w2.
    rewrite jaccard_disjoint, cosine_disjoint, levenshtein_disjoint by assumption.
    fold n. apply score_of_distance_value. unfold n. lia. }
  split; [exact Hs|]. rewrite Hs.
  set (m := Z.max 0 (100 - n)).
  assert (Hm : 0 <= m <= 100) by (unfold m, n; lia).
  assert (Hall :
    forallb (fun k => Bool.eqb (same_number (of_Z ((2 * Z.of_nat k + 5) / 10)) (of_Z 0))
                               (Z.of_nat k <=? 2))
            (seq 0 101) = true) by (vm_compute; reflexivity).
  rewrite forallb_forall in Hall.
  specialize (Hall (Z.to_nat m)). rewrite Z2Nat.id in Hall by lia.
  assert (Hk : same_number (of_Z ((2 * m + 5) / 10)) (of_Z 0) = (m <=? 2))
    by (apply eqb_prop, Hall, in_seq; lia).
  split.
  - intros Hz. rewrite Hz in Hk. change (same_number (of_Z 0) (of_Z 0)) with true in Hk.
    symmetry in Hk. apply Z.leb_le in Hk. unfold m in Hk. lia.
  - intros Hn. apply same_number_eq. rewrite Hk. apply Z.leb_le. unfold m. lia.
Qed.

End DisjointTexts.

End ScoreFacts.

(** ** The properties at concrete inputs *)

Module Examples.
Import JSNumber Text ML Server.

(** *** The agreement scorer *)

(** C1. For two empty texts the local ensemble returns NaN: the Jaccard
    metric divides zero by zero, and neither [Math.round] nor the clamp
    with [Math.max] and [Math.min] turns NaN into a number of [0, 100]. *)
Theorem fallback_score_of_two_empty_texts :
  calculateJaccardSimilarity (surviving_words WordTokenizer "")
    (surviving_words WordTokenizer "") = NaN
  /\ score (calculateSimilarityFallback WordTokenizer "" "") = NaN
  /\ ge (score (calculateSimilarityFallback WordTokenizer "" "")) (of_Z 0)
     = false
  /\ ge (of_Z 100) (score (calculateSimilarityFallback WordTokenizer "" ""))
     = false.
Proof. vm_compute. repeat split. Qed.

(** The two scenarios of the specification. *)
Example scenario_theft_scores_98 :
  score (calculateSimilarityFallback WordTokenizer
           "theft of motorcycle near main market"
           "the theft of a motorcycle near the main market") = of_Z 98.
Proof. vm_compute. reflexivity. Qed.

Example scenario_unrelated_scores_16 :
  score (calculateSimilarityFallback WordTokenizer
           "assault by neighbor" "weather report for tomorrow") = of_Z 16.
Proof. vm_compute. reflexivity. Qed.

(** Two texts with no common word and no common code unit that do not
    score 0: the edit distance 3 leaves [97 / 100 * 20], which rounds to
    19. *)
Lemma unrelated_short_texts_score_19 :
  (forall w, In w (surviving_words WordTokenizer "abc") ->
             ~ In w (surviving_words WordTokenizer "xyz"))
  /\ (forall x y, In x (chars "abc") -> In y (chars "xyz") -> x <> y)
  /\ score (calculateSimilarityFallback WordTokenizer "abc" "xyz") = of_Z 19
  /\ score (calculateSimilarityFallback WordTokenizer "abc" "xyz") <> of_Z 0.
Proof.
  split; [|split; [|split]].
  - vm_compute. intros w [<-|[]] [H|[]]. discriminate.
  - vm_compute. intros x y [<-|[<-|[<-|[]]]] [<-|[<-|[<-|[]]]]; discriminate.
  - vm_compute. reflexivity.
  - vm_compute. discriminate.
Qed.

Lemma disjoint_texts_witness :
  score (calculateSimilarityFallback WordTokenizer "abc" "xyz") = of_Z 19
  /\ (score (calculateSimilarityFallback WordTokenizer "abc" "xyz") = of_Z 0
      <-> 98 <= 3).
Proof.
  apply (ScoreFacts.disjoint_texts_score_the_distance_term WordTokenizer
           "abc" "xyz").
  - left. vm_compute. discriminate.
  - vm_compute. intros w [<-|[]] [H|[]]. discriminate.
  - vm_compute. intros x y [<-|[<-|[<-|[]]]] [<-|[<-|[<-|[]]]]; discriminate.
  - vm_compute. reflexivity.
  - vm_compute. reflexivity.
Defined.

(** Two copies of the empty text do not score 100. *)
Lemma identical_empty_texts_do_not_score_100 :
  score (calculateSimilarityFallback WordTokenizer "" "") <> of_Z 100.
Proof. vm_compute. discriminate. Qed.

(** Nor do two copies of a text made of stop words and short tokens. *)
Example identical_stop_words_do_not_score_100 :
  score (calculateSimilarityFallback WordTokenizer "it is of me" "it is of me")
  = NaN.
Proof. vm_compute. reflexivity. Qed.

Lemma identical_texts_witness :
  score (calculateSimilarityFallback WordTokenizer
           "theft of motorcycle near main market"
           "theft of motorcycle near main market") = of_Z 100.
Proof.
  apply (ScoreFacts.identical_texts_with_a_surviving_word_score_100
           WordTokenizer "theft of motorcycle near main market").
  - vm_compute. discriminate.
  - vm_compute. reflexivity.
Defined.

Lemma no_surviving_word_witness :
  calculateJaccardSimilarity (surviving_words WordTokenizer "it is")
    (surviving_words WordTokenizer "of me") = div (of_Z 0) (of_Z 0)
  /\ div (of_Z 0) (of_Z 0) = NaN
  /\ calculateCosineSimilarity (surviving_words WordTokenizer "it is")
       (surviving_words WordTokenizer "of me") = of_Z 0
  /\ score (calculateSimilarityFallback WordTokenizer "it is" "of me") = NaN
  /\ to_Z (score (calculateSimilarityFallback WordTokenizer "it is" "of me"))
     = None.
Proof.
  apply (MLFacts.fallback_score_NaN_without_surviving_words WordTokenizer
           "it is" "of me"); vm_compute; reflexivity.
Defined.

(** *** The ledger contract *)

(** A well-formed [createFIR] by a victim account goes through, and the
    record it creates can then be verified by the government account. *)
Example createFIR_then_setVerification :
  let victim := {| Registry.sender := "victim"%string;
                   Registry.block_timestamp := 5 |} in
  let gov := {| Registry.sender := "gov"%string;
                Registry.block_timestamp := 6 |} in
  let (r1, st1) :=
    Registry.transact (Registry.createFIR victim "QmDemo" 60) Demo.registry in
  let (r2, st2) :=
    Registry.transact (Registry.setVerification gov 1 true) st1 in
  r1 = Ok 1
  /\ Registry.verified (Registry.firs st1 1) = false
  /\ r2 = Ok tt
  /\ Registry.verified (Registry.firs st2 1) = true
  /\ is_ok (fst (Registry.transact (Registry.setVerification gov 2 true) st2))
     = false.
Proof. vm_compute. repeat split. Qed.

(** *** The orchestrator *)

Lemma auto_verification_witness :
  exists body w',
    Demo.run_ok Demo.request Demo.world = (Success body, w')
    /\ body_similarityScore body = of_Z 98
    /\ exists pre r t post,
        issued Demo.world w'
        = pre ++ [CreateFIR (body_cid body) (body_similarityScore body)
                    (victimAddress Demo.request) (Ok r);
                  SetVerification (firId r) true (Ok t)] ++ post
        /\ forall c, In c (pre ++ post) ->
                     is_CreateFIR c = false /\ is_SetVerification c = false.
Proof.
  let r := eval vm_compute in (Demo.run_ok Demo.request Demo.world) in
  match r with
  | (Success ?b, ?w) =>
      exists b, w;
      assert (Hrun : Demo.run_ok Demo.request Demo.world = (Success b, w))
        by (vm_compute; reflexivity)
  end.
  split; [exact Hrun|]. split; [vm_compute; reflexivity|].
  apply (ServerFacts.auto_verification_iff_score_reaches_threshold
           Demo.extractText Demo.sha256 (Some Demo.speech) WordTokenizer
           Demo.python Demo.storage_up Demo.createFIR
           Demo.setVerification None None "2024-01-01T00:00:00.000Z"
           Demo.request Demo.world _ _ Hrun).
  vm_compute. reflexivity.
Defined.

Lemma failed_publish_witness :
  exists resp w',
    Demo.run_storage_down Demo.request Demo.world = (resp, w')
    /\ resp = Failure 500 "Failed to process FIR submission"
    /\ (forall c, In c (issued Demo.world w') ->
                  is_CreateFIR c = false /\ is_SetVerification c = false)
    /\ file_exists (files w') "uploads/image-1.png" = false
    /\ file_exists (files w') "uploads/audio-1.wav" = false.
Proof.
  let r := eval vm_compute in (Demo.run_storage_down Demo.request Demo.world) in
  match r with
  | (?b, ?w) =>
      exists b, w;
      assert (Hrun : Demo.run_storage_down Demo.request Demo.world = (b, w))
        by (vm_compute; reflexivity)
  end.
  split; [exact Hrun|]. split; [reflexivity|].
  destruct (ServerFacts.failed_publish_or_create_stops_the_ledger_writes
              Demo.extractText Demo.sha256 (Some Demo.speech) WordTokenizer
              Demo.python Demo.storage_down Demo.createFIR
              Demo.setVerification None None "2024-01-01T00:00:00.000Z"
              Demo.request Demo.world _ _
              "uploads/image-1.png" "uploads/audio-1.wav"
              eq_refl eq_refl eq_refl eq_refl Hrun) as [Hpub _].
  eapply Hpub. vm_compute. do 3 right. left. reflexivity.
Defined.

Lemma fallback_transcription_witness :
  exists body w',
    Demo.run_on_ledger Demo.request Demo.world = (Success body, w')
    /\ body_sttText body = STT.mockText
    /\ body_ocrText body = "theft of motorcycle near main market"%string
    /\ body_similarityScore body = of_Z 0
    /\ body_cid body = "QmDemo"%string
    /\ body_firId body = of_Z 3
    /\ List.length (issued Demo.world w') = 7%nat.
Proof.
  pose proof (proj1 (proj2
                (ServerFacts.unavailable_speech_provider_degrades_to_placeholder
                   Demo.extractText Demo.sha256 WordTokenizer Demo.python
                   Demo.storage_up Demo.ledger_createFIR Demo.setVerification
                   None None "2024-01-01T00:00:00.000Z"%string))
                Demo.request Demo.world
                "uploads/image-1.png"%string "uploads/audio-1.wav"%string
                {| ocr_text := "theft of motorcycle near main market";
                   ocr_confidence := of_Z 90;
                   ocr_imageHash := "1f" |}
                {| IPFS.cid := "QmDemo";
                   IPFS.url := "https://ipfs.io/ipfs/QmDemo" |}
                {| firId := of_Z 3; txHash := "0xfe" |}
                eq_refl eq_refl eq_refl eq_refl eq_refl eq_refl) as H.
  cbv zeta in H.
  destruct H as (s & w' & _ & _ & Hrun & Htrace);
    [vm_compute; reflexivity|vm_compute; reflexivity
    |vm_compute; discriminate|].
  eexists. exists w'. split; [exact Hrun|].
  cbn [body_sttText body_ocrText body_similarityScore body_cid body_firId
       ocr_text IPFS.cid firId].
  split; [reflexivity|]. split; [reflexivity|].
  split; [vm_compute; reflexivity|]. split; [reflexivity|].
  split; [reflexivity|].
  rewrite Htrace.
  match goal with
  | |- context [if ?b then _ else _] =>
      replace b with false by (vm_compute; reflexivity)
  end.
  reflexivity.
Defined.

End Examples.

(** ** More on the ledger contract *)

Module LedgerFacts.
Import Registry Ledger.

Lemma createFIR_ok (msg : Msg) (cid : string) (score : Z) (st : State) :
  roles st VICTIM_ROLE (sender msg) = true ->
  cid <> EmptyString ->
  score <= 100 ->
  let newId := wrap (firCounter st + 1) in
  createFIR msg cid score st
  = Ok (newId,
        {| firCounter := newId;
           firs := update (firs st) newId
                     {| id := newId; victim := sender msg; ipfsCid := cid;
                        timestamp := block_timestamp msg;
                        verified := 75 <=? score; exists_ := true;
                        similarityScore := score |};
           victimFIRs := update_addr (victimFIRs st) (sender msg)
                           (victimFIRs st (sender msg) ++ [newId]);
           roles := roles st;
           events := (events st
                      ++ [FIRCreated newId (sender msg) cid
                            (block_timestamp msg) score])
                     ++ (if 75 <=? score
                         then [FIRVerified newId true (sender msg)]
                         else []) |}).
Proof.
  intros Hr Hc Hs newId.
  cbv [createFIR bind onlyRole get require increment put emit ret].
  rewrite Hr.
  destruct cid as [|c cid]; [congruence|].
  replace (0 <? Z.of_nat (String.length (String c cid))) with true
    by (symmetry; apply Z.ltb_lt; cbn [String.length]; lia).
  apply Z.leb_le in Hs. rewrite Hs. cbn [firCounter firs victimFIRs roles events].
  fold newId.
  destruct (75 <=? score); cbn [firCounter firs victimFIRs roles events];
    rewrite ?app_nil_r; reflexivity.
Qed.

Lemma createFIR_cases (msg : Msg) (cid : string) (score : Z) (st : State) :
  (exists reason, createFIR msg cid score st = Err reason)
  \/ (roles st VICTIM_ROLE (sender msg) = true /\ cid <> EmptyString
      /\ score <= 100).
Proof.
  destruct (roles st VICTIM_ROLE (sender msg)) eqn:Hr.
  2:{ left. cbv [createFIR bind onlyRole get require]. rewrite Hr. eauto. }
  destruct cid as [|c cid].
  { left. apply createFIR_empty_cid. }
  destruct (Z_le_gt_dec score 100) as [Hs|Hs].
  - right. repeat split; [congruence|exact Hs].
  - left. apply createFIR_score_above_100. lia.
Qed.

Lemma setVerification_ok (msg : Msg) (_id : Z) (v : bool) (st : State) :
  roles st GOV_ROLE (sender msg) = true ->
  exists_ (firs st _id) = true ->
  setVerification msg _id v st
  = Ok (tt,
        {| firCounter := firCounter st;
           firs := update (firs st) _id
                     {| id := id (firs st _id); victim := victim (firs st _id);
                        ipfsCid := ipfsCid (firs st _id);
                        timestamp := timestamp (firs st _id);
                        verified := v; exists_ := exists_ (firs st _id);
                        similarityScore := similarityScore (firs st _id) |};
           victimFIRs := victimFIRs st;
           roles := roles st;
           events := events st ++ [FIRVerified _id v (sender msg)] |}).
Proof.
  intros Hr He.
  cbv [setVerification bind onlyRole onlyValidFIR get require put emit].
  rewrite Hr. cbn [fst snd]. 
  assert (E : (if exists_ (firs st _id) then @Ok (unit * State) (tt, st)
               else Err "FIR does not exist") = Ok (tt, st)) by now rewrite He.
  rewrite E. reflexivity.
Qed.

Lemma setVerification_cases (msg : Msg) (_id : Z) (v : bool) (st : State) :
  (exists reason, setVerification msg _id v st = Err reason)
  \/ (roles st GOV_ROLE (sender msg) = true /\ exists_ (firs st _id) = true).
Proof.
  destruct (roles st GOV_ROLE (sender msg)) eqn:Hr.
  2:{ left. cbv [setVerification bind onlyRole get require]. rewrite Hr. eauto. }
  destruct (exists_ (firs st _id)) eqn:He.
  - now right.
  - left. now apply setVerification_missing.
Qed.




Lemma update_same {A} (f : Z -> A) k v : update f k v k = v.
Proof. unfold update. now rewrite Z.eqb_refl. Qed.

Lemma update_other {A} (f : Z -> A) k v j : j <> k -> update f k v j = f j.
Proof. intros H. unfold update. apply Z.eqb_neq in H. now rewrite H. Qed.

Lemma ids_from_snoc (a : Z) (n : nat) :
  ids_from a (S n) = ids_from a n ++ [a + Z.of_nat n].
Proof.
  revert a. induction n as [|n IH]; intros a.
  - cbn. now rewrite Z.add_0_r.
  - change (ids_from a (S (S n))) with (a :: ids_from (a + 1) (S n)).
    rewrite IH. cbn [ids_from app]. do 3 f_equal. lia.
Qed.

Lemma in_ids_from (a : Z) (n : nat) (i : Z) :
  In i (ids_from a n) <-> a <= i < a + Z.of_nat n.
Proof.
  revert a. induction n as [|n IH]; intros a.
  - cbn. lia.
  - cbn [ids_from In]. rewrite IH. lia.
Qed.

Lemma length_ids_from (a : Z) (n : nat) : List.length (ids_from a n) = n.
Proof. revert a. induction n; intros; cbn; auto. Qed.

Lemma in_range_spec (st : State) (i : Z) :
  in_range st i = true <-> 1 <= i <= firCounter st.
Proof. unfold in_range. rewrite andb_true_iff, !Z.leb_le. tauto. Qed.

Lemma in_range_false (st : State) (i : Z) :
  in_range st i = false <-> ~ (1 <= i <= firCounter st).
Proof.
  rewrite <- in_range_spec. destruct (in_range st i); split; congruence.
Qed.

Lemma consistent_deployed (deployer : address) : consistent (deployed deployer).
Proof.
  unfold consistent. cbn [deployed firCounter firs victimFIRs Z.to_nat ids_from filter].
  split; [lia|]. split; [|split]; try reflexivity.
  intros i H. apply in_range_spec in H. cbn in H. lia.
Qed.

Lemma wrap_small (z : Z) : 0 <= z <= uint256_max -> wrap z = z.
Proof. unfold wrap, uint256_max. intros H. apply Z.mod_small. lia. Qed.

Lemma consistent_createFIR (msg : Msg) (cid : string) (score : Z) (st : State) :
  consistent st -> firCounter st < uint256_max ->
  consistent (snd (transact (createFIR msg cid score) st))
  /\ firCounter (snd (transact (createFIR msg cid score) st))
     <= firCounter st + 1.
Proof.
  intros Hcons Hmax. pose proof Hcons as (H0 & Hin & Hout & Hv).
  unfold transact.
  destruct (createFIR_cases msg cid score st) as [[r Hr]|(Hr & Hc & Hs)].
  { rewrite Hr. cbn [snd]. split; [exact Hcons|lia]. }
  rewrite (createFIR_ok msg cid score st Hr Hc Hs). cbn [snd].
  rewrite wrap_small by lia.
  set (n := firCounter st) in *.
  split; [|cbn [firCounter]; lia].
  unfold consistent. cbn [firCounter firs victimFIRs].
  split; [lia|]. split; [|split].
  - intros i Hi. apply in_range_spec in Hi. cbn [firCounter] in Hi.
    destruct (Z.eq_dec i (n + 1)) as [->|Hne].
    + rewrite update_same. cbn. repeat split; auto.
    + rewrite update_other by exact Hne.
      apply Hin, in_range_spec. fold n. lia.
  - intros i Hi. apply in_range_false in Hi. cbn [firCounter] in Hi.
    rewrite update_other by lia. apply Hout, in_range_false. fold n. lia.
  - intros a.
    replace (Z.to_nat (n + 1)) with (S (Z.to_nat n)) by lia.
    rewrite ids_from_snoc, filter_app. cbn [filter].
    replace (1 + Z.of_nat (Z.to_nat n)) with (n + 1) by lia.
    rewrite update_same. cbn [victim].
    assert (E : filter (fun i => String.eqb
                                   (victim (update (firs st) (n + 1)
                                              {| id := n + 1; victim := sender msg;
                                                 ipfsCid := cid;
                                                 timestamp := block_timestamp msg;
                                                 verified := 75 <=? score;
                                                 exists_ := true;
                                                 similarityScore := score |} i)) a)
                  (ids_from 1 (Z.to_nat n))
                = victimFIRs st a).
    { rewrite Hv. apply filter_ext_in. intros i Hi.
      apply in_ids_from in Hi. rewrite update_other by lia. reflexivity. }
    rewrite E. unfold update_addr.
    rewrite (String.eqb_sym a (sender msg)).
    destruct (String.eqb (sender msg) a) eqn:Ea.
    + apply String.eqb_eq in Ea. subst a. reflexivity.
    + now rewrite app_nil_r.
Qed.

Lemma consistent_setVerification (msg : Msg) (_id : Z) (v : bool) (st : State) :
  consistent st ->
  consistent (snd (transact (setVerification msg _id v) st))
  /\ firCounter (snd (transact (setVerification msg _id v) st)) = firCounter st.
Proof.
  intros Hcons. pose proof Hcons as (H0 & Hin & Hout & Hv).
  unfold transact.
  destruct (setVerification_cases msg _id v st) as [[r Hr]|(Hr & He)].
  { rewrite Hr. cbn [snd]. split; [exact Hcons|reflexivity]. }
  rewrite (setVerification_ok msg _id v st Hr He). cbn [snd].
  split; [|reflexivity].
  unfold consistent. cbn [firCounter firs victimFIRs].
  assert (Hid : in_range st _id = true).
  { destruct (in_range st _id) eqn:E; [reflexivity|].
    rewrite (Hout _ E) in He. discriminate. }
  split; [exact H0|]. split; [|split].
  - intros i Hi.
    assert (Hi' : in_range st i = true) by exact Hi.
    destruct (Hin i Hi') as (A & B & C & D).
    destruct (Z.eq_dec i _id) as [->|Hne].
    + rewrite update_same. cbn. auto.
    + rewrite update_other by exact Hne. auto.
  - intros i Hi.
    assert (Hi' : in_range st i = false) by exact Hi.
    destruct (Z.eq_dec i _id) as [->|Hne]; [congruence|].
    rewrite update_other by exact Hne. now apply Hout.
  - intros a. rewrite Hv. apply filter_ext. intros i.
    destruct (Z.eq_dec i _id) as [->|Hne].
    + now rewrite update_same.
    + now rewrite update_other.
Qed.

(** The five calls on roles write nothing but role memberships. *)
Lemma role_call_keeps_records (t : Transaction) (st : State) :
  is_role_call t = true ->
  firCounter (apply t st) = firCounter st /\ firs (apply t st) = firs st
  /\ victimFIRs (apply t st) = victimFIRs st
  /\ events (apply t st) = events st.
Proof.
  destruct t as [msg c s|msg i v|msg a|msg a|msg r a|msg r a|msg r a];
    try discriminate; intros _; cbn [apply]; unfold transact;
    cbv [grantVictimRole grantGovRole grantRole revokeRole renounceRole
         getRoleAdmin bind onlyRole get require _grantRole _revokeRole put
         set_member].
  1-4: destruct (roles st DEFAULT_ADMIN_ROLE (sender msg)) eqn:E; cbn;
    rewrite ?E; cbn; auto.
  destruct (String.eqb a (sender msg)); cbn; auto.
Qed.

Lemma consistent_ext (st st' : State) :
  firCounter st' = firCounter st -> firs st' = firs st ->
  victimFIRs st' = victimFIRs st -> consistent st -> consistent st'.
Proof.
  intros Hc Hf Hv. unfold consistent, in_range. now rewrite Hc, Hf, Hv.
Qed.

Lemma consistent_apply (t : Transaction) (st : State) :
  consistent st -> firCounter st < uint256_max ->
  consistent (apply t st) /\ firCounter (apply t st) <= firCounter st + 1.
Proof.
  intros Hc Hmax. destruct (is_role_call t) eqn:Er.
  { destruct (role_call_keeps_records t st Er) as (A & B & C & _).
    split; [eapply consistent_ext; eauto|lia]. }
  destruct t as [msg c s|msg i v| | | | | ]; try discriminate; cbn [apply].
  - now apply consistent_createFIR.
  - destruct (consistent_setVerification msg i v st Hc) as [H1 H2].
    split; [exact H1|lia].
Qed.

Lemma consistent_replay (ts : list Transaction) (st : State) :
  consistent st ->
  firCounter st + Z.of_nat (List.length ts) <= uint256_max ->
  consistent (replay ts st)
  /\ firCounter (replay ts st) <= firCounter st + Z.of_nat (List.length ts).
Proof.
  revert st. induction ts as [|t ts IH]; intros st Hc Hlen.
  - cbn. split; [exact Hc|lia].
  - cbn [replay fold_left]. cbn [List.length] in Hlen.
    destruct (consistent_apply t st Hc) as [H1 H2]; [lia|].
    destruct (IH (apply t st) H1) as [H3 H4]; [lia|].
    split; [exact H3|]. unfold replay in H4. cbn [List.length]. lia.
Qed.

(** *** The two loops of [getFIRsByStatus] *)

Lemma candidates_S (st : State) (v : bool) (i : Z) (n : nat) :
  candidates st v i (S n)
  = if has_status st v i
    then firs st i :: candidates st v (i + 1) n
    else candidates st v (i + 1) n.
Proof. reflexivity. Qed.

Lemma count_loop_spec (n : nat) (st : State) (v : bool)
  (limit total i rc off : Z) :
  Z.of_nat n = total + 1 - i -> total < uint256_max ->
  0 <= rc <= limit -> 0 <= off ->
  count_loop n st v limit total i rc off
  = Ok (Z.min limit
          (rc + Z.of_nat (List.length (skipn (Z.to_nat off)
                                         (candidates st v i n))))).
Proof.
  revert i rc off. induction n as [|n IH]; intros i rc off Hn Hmax Hrc Hoff.
  - cbn [count_loop].
    replace (i <=? total) with false by (symmetry; apply Z.leb_gt; lia).
    cbn [andb candidates ids_from map filter]. rewrite skipn_nil.
    cbn [List.length]. f_equal. lia.
  - cbn [count_loop].
    replace (i <=? total) with true by (symmetry; apply Z.leb_le; lia).
    cbn [andb]. destruct (rc <? limit) eqn:Hlt.
    2:{ apply Z.ltb_ge in Hlt. f_equal. lia. }
    apply Z.ltb_lt in Hlt.
    replace (i <? uint256_max) with true by (symmetry; apply Z.ltb_lt; lia).
    rewrite candidates_S.
    destruct (has_status st v i).
    + unfold skip_or_take. destruct (0 <? off) eqn:Ho.
      * apply Z.ltb_lt in Ho. rewrite IH by lia.
        replace (Z.to_nat off) with (S (Z.to_nat (off - 1))) by lia.
        reflexivity.
      * apply Z.ltb_ge in Ho. rewrite IH by lia.
        replace off with 0 by lia. cbn [Z.to_nat skipn List.length].
        f_equal. lia.
    + now rewrite IH by lia.
Qed.

Lemma store_app {A} (pre : list A) (t x : A) (tail : list A) :
  store (pre ++ t :: tail) (List.length pre) x = pre ++ x :: tail.
Proof. induction pre as [|p pre IH]; cbn; [reflexivity|now rewrite IH]. Qed.

Lemma fill_loop_spec (n : nat) (st : State) (v : bool)
  (total i off : Z) (pre tail : list FIR) :
  Z.of_nat n = total + 1 - i -> total < uint256_max -> 0 <= off ->
  fill_loop n st v total i (Z.of_nat (List.length pre)) off (pre ++ tail)
  = Ok (pre
        ++ firstn (List.length tail) (skipn (Z.to_nat off) (candidates st v i n))
        ++ skipn (List.length (skipn (Z.to_nat off) (candidates st v i n))) tail).
Proof.
  revert i off pre tail.
  induction n as [|n IH]; intros i off pre tail Hn Hmax Hoff.
  - cbn [fill_loop].
    replace (i <=? total) with false by (symmetry; apply Z.leb_gt; lia).
    cbn [andb candidates ids_from map filter]. rewrite skipn_nil, firstn_nil.
    reflexivity.
  - cbn [fill_loop].
    replace (i <=? total) with true by (symmetry; apply Z.leb_le; lia).
    cbn [andb]. rewrite length_app.
    destruct tail as [|t tail].
    { replace (Z.of_nat (List.length pre) <? Z.of_nat (List.length pre + List.length (@nil FIR)))
        with false by (symmetry; apply Z.ltb_ge; cbn [List.length]; lia).
      cbn [List.length firstn]. now rewrite skipn_nil. }
    replace (Z.of_nat (List.length pre) <? Z.of_nat (List.length pre + List.length (t :: tail)))
      with true by (symmetry; apply Z.ltb_lt; cbn [List.length]; lia).
    replace (i <? uint256_max) with true by (symmetry; apply Z.ltb_lt; lia).
    rewrite candidates_S.
    destruct (has_status st v i).
    + destruct (0 <? off) eqn:Ho.
      * apply Z.ltb_lt in Ho. rewrite IH by lia.
        replace (Z.to_nat off) with (S (Z.to_nat (off - 1))) by lia.
        reflexivity.
      * apply Z.ltb_ge in Ho. replace off with 0 by lia.
        rewrite Nat2Z.id, store_app.
        replace (Z.of_nat (List.length pre) + 1)
          with (Z.of_nat (List.length (pre ++ [firs st i])))
          by (rewrite length_app; cbn [List.length]; lia).
        replace (pre ++ firs st i :: tail) with ((pre ++ [firs st i]) ++ tail)
          by (now rewrite <- app_assoc).
        rewrite IH by lia. cbn [Z.to_nat skipn List.length firstn].
        rewrite <- app_assoc. reflexivity.
    + now rewrite IH by lia.
Qed.

Lemma getFIRsByStatus_ok (v : bool) (limit offset : Z) (st : State) :
  0 < limit <= 100 -> 0 <= offset ->
  0 <= firCounter st < uint256_max ->
  getFIRsByStatus v limit offset st
  = Ok (firstn (Z.to_nat limit) (skipn (Z.to_nat offset) (with_status st v)), st).
Proof.
  intros Hl Ho Hc.
  cbv [getFIRsByStatus bind require get].
  replace ((0 <? limit) && (limit <=? 100)) with true
    by (symmetry; apply andb_true_iff; split; [apply Z.ltb_lt|apply Z.leb_le]; lia).
  rewrite count_loop_spec by lia.
  fold (records st). change (candidates st v 1 (Z.to_nat (firCounter st)))
    with (with_status st v).
  set (S := skipn (Z.to_nat offset) (with_status st v)).
  set (k := Z.to_nat (Z.min limit (0 + Z.of_nat (List.length S)))).
  pose proof (fill_loop_spec (Z.to_nat (firCounter st)) st v (firCounter st) 1
                offset [] (repeat noFIR k)) as H.
  cbn [List.length app] in H. change (Z.of_nat 0) with 0 in H.
  rewrite H by lia.
  change (candidates st v 1 (Z.to_nat (firCounter st))) with (with_status st v).
  fold S. rewrite repeat_length.
  rewrite skipn_all2 by (rewrite repeat_length; unfold k; lia).
  rewrite app_nil_r. f_equal. f_equal.
  destruct (Z_le_gt_dec limit (Z.of_nat (List.length S))) as [Hle|Hgt].
  - f_equal. unfold k. lia.
  - rewrite !firstn_all2; [reflexivity|lia|unfold k; lia].
Qed.

Lemma exists_in_range (st : State) (i : Z) :
  consistent st -> exists_ (firs st i) = true -> 1 <= i <= firCounter st.
Proof.
  intros (_ & _ & Hout & _) He.
  destruct (in_range st i) eqn:E; [now apply in_range_spec|].
  rewrite (Hout i E) in He. discriminate.
Qed.

(** What one call does to a record that exists. *)
Lemma apply_on_existing (t : Transaction) (st : State) (i : Z) :
  consistent st -> firCounter st < uint256_max ->
  exists_ (firs st i) = true ->
  firs (apply t st) i = firs st i
  \/ exists msg v,
       t = SetVerification msg i v
       /\ roles st GOV_ROLE (sender msg) = true
       /\ firs (apply t st) i
          = {| id := id (firs st i); victim := victim (firs st i);
               ipfsCid := ipfsCid (firs st i);
               timestamp := timestamp (firs st i);
               verified := v; exists_ := true;
               similarityScore := similarityScore (firs st i) |}.
Proof.
  intros Hcons Hmax He.
  pose proof (exists_in_range st i Hcons He) as Hi.
  destruct (is_role_call t) eqn:Er.
  { left. destruct (role_call_keeps_records t st Er) as (_ & E & _).
    now rewrite E. }
  destruct t as [msg c s|msg j v| | | | | ]; try discriminate; cbn [apply].
  - left. unfold transact.
    destruct (createFIR_cases msg c s st) as [[r Hr]|(Hr & Hc & Hs)].
    + now rewrite Hr.
    + rewrite (createFIR_ok msg c s st Hr Hc Hs). cbn [snd firs].
      destruct Hcons as (H0 & _).
      rewrite wrap_small by lia. apply update_other. lia.
  - unfold transact.
    destruct (setVerification_cases msg j v st) as [[r Hr]|(Hr & Hj)].
    + left. now rewrite Hr.
    + rewrite (setVerification_ok msg j v st Hr Hj). cbn [snd firs].
      destruct (Z.eq_dec i j) as [->|Hne].
      * right. exists msg, v. rewrite update_same, Hj. auto.
      * left. now apply update_other.
Qed.

Lemma replay_app (ts1 ts2 : list Transaction) (st : State) :
  replay (ts1 ++ ts2) st = replay ts2 (replay ts1 st).
Proof. apply fold_left_app. Qed.

Lemma replay_keeps_evidence (ts : list Transaction) (st : State) (i : Z) :
  consistent st ->
  firCounter st + Z.of_nat (List.length ts) <= uint256_max ->
  exists_ (firs st i) = true ->
  exists_ (firs (replay ts st) i) = true
  /\ evidence (firs (replay ts st) i) = evidence (firs st i).
Proof.
  revert st. induction ts as [|t ts IH]; intros st Hcons Hlen He.
  - now cbn.
  - cbn [List.length] in Hlen.
    change (replay (t :: ts) st) with (replay ts (apply t st)).
    destruct (consistent_apply t st Hcons) as [H1 H2]; [lia|].
    assert (E : exists_ (firs (apply t st) i) = true
                /\ evidence (firs (apply t st) i) = evidence (firs st i)).
    { assert (Hmax : firCounter st < uint256_max) by lia.
      destruct (apply_on_existing t st i Hcons Hmax He)
        as [->|(m & v & _ & _ & ->)]; auto. }
    destruct E as [E1 E2].
    destruct (IH (apply t st) H1) as [A B]; [lia|exact E1|].
    split; [exact A|]. now rewrite B.
Qed.

Lemma In_firstn {A} (n : nat) (l : list A) (x : A) :
  In x (firstn n l) -> In x l.
Proof.
  intros H. rewrite <- (firstn_skipn n l). apply in_or_app. now left.
Qed.

Lemma In_skipn {A} (n : nat) (l : list A) (x : A) :
  In x (skipn n l) -> In x l.
Proof.
  intros H. rewrite <- (firstn_skipn n l). apply in_or_app. now right.
Qed.

(** *** What a caller can rely on *)

(** X1. A [createFIR] call by an account with the victim role, with a
    non-empty content identifier and a score of at most 100, returns the
    next record number, and the record can be read back at once: [getFIR]
    returns the caller, the identifier, the block time and the score, with
    [verified] set exactly when the score is 75 or more; [getTotalFIRs]
    returns the new number, [getVictimFIRs] of the caller ends with it, and
    no other record and no other victim's list has changed. *)
Theorem created_record_is_read_back (msg : Msg) (cid : string) (score : Z)
  (st : State) :
  roles st VICTIM_ROLE (sender msg) = true ->
  cid <> EmptyString ->
  score <= 100 ->
  exists st',
    let newId := wrap (firCounter st + 1) in
    transact (createFIR msg cid score) st = (Ok newId, st')
    /\ getFIR newId st'
       = Ok ({| id := newId; victim := sender msg; ipfsCid := cid;
                timestamp := block_timestamp msg;
                verified := 75 <=? score; exists_ := true;
                similarityScore := score |}, st')
    /\ getTotalFIRs st' = Ok (newId, st')
    /\ getVictimFIRs (sender msg) st'
       = Ok (victimFIRs st (sender msg) ++ [newId], st')
    /\ (forall j, j <> newId -> firs st' j = firs st j)
    /\ (forall a, a <> sender msg -> victimFIRs st' a = victimFIRs st a).
Proof.
  intros Hr Hc Hs. eexists. cbv zeta.
  unfold transact. rewrite (createFIR_ok msg cid score st Hr Hc Hs).
  split; [reflexivity|].
  cbv [getFIR getTotalFIRs getVictimFIRs bind onlyValidFIR get require ret].
  cbn [firs firCounter victimFIRs]. rewrite !update_same.
  cbn [exists_ firs firCounter victimFIRs]. rewrite ?update_same.
  split; [reflexivity|]. split; [reflexivity|]. split.
  - unfold update_addr. now rewrite String.eqb_refl.
  - split.
    + intros j Hj. now apply update_other.
    + intros a Ha. unfold update_addr.
      apply String.eqb_neq in Ha. now rewrite Ha.
Qed.


(** X3. After any sequence of at most [2^256 - 1] calls on a freshly
    deployed contract, of its own functions and of the inherited
    [grantRole], [revokeRole] and [renounceRole], by whatever callers, the
    records are exactly those numbered 1 to [getTotalFIRs]: each of them
    exists, carries its own number, a non-empty content identifier and a
    score of at most 100; every other slot holds the default record, for
    which [getFIR] reverts; and there are at most as many records as
    calls. *)
Theorem replayed_records_are_numbered_from_one (deployer : address)
  (ts : list Transaction) :
  Z.of_nat (List.length ts) <= uint256_max ->
  let st := replay ts (deployed deployer) in
  0 <= firCounter st <= Z.of_nat (List.length ts)
  /\ (forall i, 1 <= i <= firCounter st ->
                exists f, getFIR i st = Ok (f, st)
                          /\ exists_ f = true /\ id f = i
                          /\ similarityScore f <= 100
                          /\ ipfsCid f <> EmptyString)
  /\ (forall i, ~ 1 <= i <= firCounter st ->
                firs st i = noFIR
                /\ getFIR i st = Err "FIR does not exist").
Proof.
  intros Hlen st.
  destruct (consistent_replay ts (deployed deployer)
              (consistent_deployed deployer)) as [(H0 & Hin & Hout & _) Hc].
  { cbn [deployed firCounter]. lia. }
  fold st in H0, Hin, Hout, Hc. cbn [deployed firCounter] in Hc.
  split; [lia|]. split.
  - intros i Hi. apply in_range_spec in Hi.
    destruct (Hin i Hi) as (A & B & C & D).
    exists (firs st i). repeat split; auto.
    cbv [getFIR bind onlyValidFIR get require ret]. now rewrite A.
  - intros i Hi. apply in_range_false in Hi.
    split; [now apply Hout|].
    cbv [getFIR bind onlyValidFIR get require ret].
    now rewrite (Hout i Hi).
Qed.

(** X4. After any sequence of at most [2^256 - 1] calls on a freshly
    deployed contract, the inherited role functions included,
    [getVictimFIRs] of an address returns the numbers of exactly the
    records whose victim is that address, in increasing order and without
    repetition; an account that has lost the victim role since keeps its
    list. *)
Theorem victim_list_names_the_records_of_the_victim (deployer : address)
  (ts : list Transaction) (a : address) :
  Z.of_nat (List.length ts) <= uint256_max ->
  let st := replay ts (deployed deployer) in
  getVictimFIRs a st
  = Ok (filter (fun i => String.eqb (victim (firs st i)) a)
          (ids_from 1 (Z.to_nat (firCounter st))), st)
  /\ (forall i, In i (victimFIRs st a)
                <-> exists_ (firs st i) = true /\ victim (firs st i) = a).
Proof.
  intros Hlen st.
  destruct (consistent_replay ts (deployed deployer)
              (consistent_deployed deployer)) as [(H0 & Hin & Hout & Hv) Hc].
  { cbn [deployed firCounter]. lia. }
  fold st in H0, Hin, Hout, Hv, Hc.
  split.
  - cbv [getVictimFIRs bind get ret]. now rewrite Hv.
  - intros i. rewrite Hv, filter_In, in_ids_from, String.eqb_eq.
    split.
    + intros [Hi Ha]. split; [|exact Ha].
      apply Hin, in_range_spec. lia.
    + intros [He Ha]. split; [|exact Ha].
      destruct (in_range st i) eqn:E.
      * apply in_range_spec in E. lia.
      * rewrite (Hout i E) in He. discriminate.
Qed.

(** X5. A [setVerification] call by an account with the government
    role on a record that exists sets its [verified] flag to the given
    value and nothing else: [getFIR] returns the record with the new flag
    and the same number, victim, content identifier, time and score; the
    other records, the counter and the victims' lists are as before, and
    one [FIRVerified] event is logged. *)
Theorem verification_is_read_back (msg : Msg) (i : Z) (v : bool) (st : State) :
  roles st GOV_ROLE (sender msg) = true ->
  exists_ (firs st i) = true ->
  exists st' f,
    transact (setVerification msg i v) st = (Ok tt, st')
    /\ getFIR i st' = Ok (f, st')
    /\ verified f = v
    /\ evidence f = evidence (firs st i)
    /\ (forall j, j <> i -> firs st' j = firs st j)
    /\ firCounter st' = firCounter st
    /\ victimFIRs st' = victimFIRs st
    /\ events st' = events st ++ [FIRVerified i v (sender msg)].
Proof.
  intros Hr He. eexists. eexists.
  unfold transact. rewrite (setVerification_ok msg i v st Hr He).
  split; [reflexivity|].
  cbv [getFIR bind onlyValidFIR get require ret].
  cbn [firs firCounter victimFIRs events]. rewrite !update_same.
  cbn [exists_]. rewrite He.
  split; [reflexivity|].
  cbn [firs firCounter victimFIRs events]. rewrite ?update_same.
  split; [reflexivity|]. split; [reflexivity|]. split; [|auto].
  intros j Hj. now apply update_other.
Qed.

(** X6. Once a record exists it stays, and its number, victim, content
    identifier, time and score are never written again: whatever calls
    follow (fewer than [2^256] in all), of the contract's own functions or
    of the inherited [grantRole], [revokeRole] and [renounceRole], and
    whoever holds which role by then, the record read later carries the
    same evidence. *)
Theorem evidence_is_never_rewritten (deployer : address)
  (before after : list Transaction) (i : Z) :
  Z.of_nat (List.length (before ++ after)) <= uint256_max ->
  exists_ (firs (replay before (deployed deployer)) i) = true ->
  exists_ (firs (replay (before ++ after) (deployed deployer)) i) = true
  /\ evidence (firs (replay (before ++ after) (deployed deployer)) i)
     = evidence (firs (replay before (deployed deployer)) i).
Proof.
  intros Hlen He. rewrite length_app, Nat2Z.inj_add in Hlen.
  rewrite replay_app.
  destruct (consistent_replay before (deployed deployer)
              (consistent_deployed deployer)) as [Hcons Hc].
  { cbn [deployed firCounter]. lia. }
  cbn [deployed firCounter] in Hc.
  apply replay_keeps_evidence; [exact Hcons|lia|exact He].
Qed.

(** X7. The [verified] flag of an existing record changes only through a
    [setVerification] call for that record by an account that holds the
    government role at that time: none of the other six functions that
    write, the inherited [grantRole], [revokeRole] and [renounceRole]
    among them, changes it, and neither does a [setVerification] by an
    account whose government role has been revoked or renounced. *)
Theorem only_government_changes_the_verified_flag (deployer : address)
  (ts : list Transaction) (t : Transaction) (i : Z) :
  Z.of_nat (List.length ts) < uint256_max ->
  let st := replay ts (deployed deployer) in
  exists_ (firs st i) = true ->
  verified (firs (apply t st) i) <> verified (firs st i) ->
  exists msg,
    t = SetVerification msg i (negb (verified (firs st i)))
    /\ roles st GOV_ROLE (sender msg) = true.
Proof.
  intros Hlen st He Hv.
  destruct (consistent_replay ts (deployed deployer)
              (consistent_deployed deployer)) as [Hcons Hc].
  { cbn [deployed firCounter]. lia. }
  fold st in Hcons, Hc. cbn [deployed firCounter] in Hc.
  assert (Hmax : firCounter st < uint256_max) by lia.
  clearbody st.
  destruct (apply_on_existing t st i Hcons Hmax He)
    as [E|(m & v & -> & Hr & E)].
  { exfalso. apply Hv. now rewrite E. }
  exists m. split; [|exact Hr].
  rewrite E in Hv. cbn [verified] in Hv.
  f_equal. destruct v, (verified (firs st i)); cbn; congruence.
Qed.

(** X8. [getFIRsByStatus] reverts unless the limit is between 1 and 100.
    Otherwise, after any sequence of fewer than [2^256 - 1] calls on a
    fresh contract, it returns the records with the wanted status in the
    order of their numbers, without the first [_offset] of them and cut
    after [_limit]: never more than [_limit] records, each of them
    existing and with the wanted status. *)
Theorem status_page_is_a_slice_of_the_matching_records (deployer : address)
  (ts : list Transaction) (v : bool) (limit offset : Z) :
  Z.of_nat (List.length ts) < uint256_max ->
  let st := replay ts (deployed deployer) in
  (~ 0 < limit <= 100 ->
   getFIRsByStatus v limit offset st = Err "Invalid limit")
  /\ (0 < limit <= 100 -> 0 <= offset ->
      let page := firstn (Z.to_nat limit)
                    (skipn (Z.to_nat offset) (with_status st v)) in
      getFIRsByStatus v limit offset st = Ok (page, st)
      /\ Z.of_nat (List.length page) <= limit
      /\ (forall f, In f page -> verified f = v /\ exists_ f = true)).
Proof.
  intros Hlen st.
  destruct (consistent_replay ts (deployed deployer)
              (consistent_deployed deployer)) as [Hcons Hc].
  { cbn [deployed firCounter]. lia. }
  fold st in Hcons, Hc. cbn [deployed firCounter] in Hc.
  split.
  - intros Hl. cbv [getFIRsByStatus bind require].
    replace ((0 <? limit) && (limit <=? 100)) with false; [reflexivity|].
    symmetry. apply andb_false_iff.
    destruct (Z_lt_ge_dec 0 limit); [right; apply Z.leb_gt|left; apply Z.ltb_ge]; lia.
  - intros Hl Ho page.
    pose proof Hcons as (H0 & Hin & _).
    split; [apply getFIRsByStatus_ok; lia|]. split.
    + unfold page. rewrite length_firstn. lia.
    + intros f Hf. unfold page in Hf.
      apply In_firstn, In_skipn in Hf.
      unfold with_status, records in Hf.
      apply filter_In in Hf as [Hf Hs].
      apply in_map_iff in Hf as (j & <- & Hj).
      apply in_ids_from in Hj. split.
      * now apply Bool.eqb_prop.
      * apply Hin, in_range_spec. lia.
Qed.

(** X9. Pages of [getFIRsByStatus] that follow one another fit together:
    the page of [l1] records at an offset followed by the page of [l2]
    records at that offset plus [l1] is the page of [l1 + l2] records at
    the offset, so paging neither loses nor repeats a record. *)
Theorem consecutive_status_pages_concatenate (deployer : address)
  (ts : list Transaction) (v : bool) (l1 l2 offset : Z) :
  Z.of_nat (List.length ts) < uint256_max ->
  0 < l1 -> 0 < l2 -> l1 + l2 <= 100 -> 0 <= offset ->
  let st := replay ts (deployed deployer) in
  exists p1 p2,
    getFIRsByStatus v l1 offset st = Ok (p1, st)
    /\ getFIRsByStatus v l2 (offset + l1) st = Ok (p2, st)
    /\ getFIRsByStatus v (l1 + l2) offset st = Ok (p1 ++ p2, st).
Proof.
  intros Hlen H1 H2 H12 Ho st.
  destruct (consistent_replay ts (deployed deployer)
              (consistent_deployed deployer)) as [Hcons Hc].
  { cbn [deployed firCounter]. lia. }
  fold st in Hcons, Hc. cbn [deployed firCounter] in Hc.
  pose proof Hcons as (H0 & _).
  eexists. eexists.
  rewrite !getFIRsByStatus_ok by lia.
  split; [reflexivity|]. split; [reflexivity|].
  f_equal. f_equal.
  replace (Z.to_nat (l1 + l2)) with (Z.to_nat l1 + Z.to_nat l2)%nat by lia.
  replace (Z.to_nat (offset + l1)) with (Z.to_nat l1 + Z.to_nat offset)%nat by lia.
  rewrite <- skipn_skipn.
  generalize (skipn (Z.to_nat offset) (with_status st v)) as l.
  generalize (Z.to_nat l1) as a. generalize (Z.to_nat l2) as b.
  intros b a. induction a as [|a IH]; intros l.
  - reflexivity.
  - destruct l as [|x l]; cbn [Nat.add firstn skipn app].
    + now rewrite firstn_nil.
    + now rewrite IH.
Qed.

(** X26. A record created with a score of 75 or more is verified from
    the start, so that a [setVerification] call with [true] that follows
    it changes no record and only adds an event; a record created with a
    lower score is unverified until that call. *)
Theorem verification_after_creation (victim_ gov : Msg) (cid : string)
  (score : Z) (st : State) :
  roles st VICTIM_ROLE (sender victim_) = true ->
  roles st GOV_ROLE (sender gov) = true ->
  cid <> EmptyString ->
  score <= 100 ->
  exists newId st1 st2,
    transact (createFIR victim_ cid score) st = (Ok newId, st1)
    /\ transact (setVerification gov newId true) st1 = (Ok tt, st2)
    /\ verified (firs st1 newId) = (75 <=? score)
    /\ verified (firs st2 newId) = true
    /\ (75 <= score -> forall j, firs st2 j = firs st1 j)
    /\ events st2 = events st1 ++ [FIRVerified newId true (sender gov)].
Proof.
  intros Hv Hg Hc Hs. unfold transact.
  rewrite (createFIR_ok victim_ cid score st Hv Hc Hs).
  set (newId := wrap (firCounter st + 1)).
  eexists. eexists. eexists. split; [reflexivity|].
  rewrite setVerification_ok;
    [|exact Hg|cbn [firs]; now rewrite update_same].
  split; [reflexivity|].
  cbn [firs events]. rewrite !update_same. cbn [verified].
  split; [reflexivity|]. split; [reflexivity|]. split; [|reflexivity].
  intros H75 j. apply Z.leb_le in H75.
  destruct (Z.eq_dec j newId) as [->|Hne].
  - rewrite !update_same. cbn. now rewrite H75.
  - now rewrite !update_other by exact Hne.
Qed.

Lemma created_ids_app l1 l2 :
  created_ids (l1 ++ l2) = created_ids l1 ++ created_ids l2.
Proof. apply flat_map_app. Qed.

Lemma created_ids_apply (t : Transaction) (st : State) :
  consistent st -> firCounter st < uint256_max ->
  created_ids (events st) = ids_from 1 (Z.to_nat (firCounter st)) ->
  created_ids (events (apply t st))
  = ids_from 1 (Z.to_nat (firCounter (apply t st))).
Proof.
  intros Hcons Hmax H. pose proof Hcons as (H0 & _).
  destruct (is_role_call t) eqn:Er.
  { destruct (role_call_keeps_records t st Er) as (A & _ & _ & B).
    now rewrite A, B. }
  destruct t as [msg c s|msg i v| | | | | ]; try discriminate;
    cbn [apply]; unfold transact.
  - destruct (createFIR_cases msg c s st) as [[r Hr]|(Hr & Hc & Hs)].
    + now rewrite Hr.
    + rewrite (createFIR_ok msg c s st Hr Hc Hs). cbn [snd events firCounter].
      rewrite wrap_small by lia.
      rewrite !created_ids_app, H.
      replace (Z.to_nat (firCounter st + 1)) with (S (Z.to_nat (firCounter st)))
        by lia.
      rewrite ids_from_snoc.
      replace (1 + Z.of_nat (Z.to_nat (firCounter st))) with (firCounter st + 1)
        by lia.
      destruct (75 <=? s); cbn [created_ids flat_map app];
        now rewrite ?app_nil_r.
  - destruct (setVerification_cases msg i v st) as [[r Hr]|(Hr & He)].
    + now rewrite Hr.
    + rewrite (setVerification_ok msg i v st Hr He). cbn [snd events firCounter].
      rewrite created_ids_app, H. cbn [created_ids flat_map app].
      now rewrite app_nil_r.
Qed.

Lemma created_ids_replay (ts : list Transaction) (st : State) :
  consistent st ->
  firCounter st + Z.of_nat (List.length ts) <= uint256_max ->
  created_ids (events st) = ids_from 1 (Z.to_nat (firCounter st)) ->
  created_ids (events (replay ts st))
  = ids_from 1 (Z.to_nat (firCounter (replay ts st))).
Proof.
  revert st. induction ts as [|t ts IH]; intros st Hcons Hlen H; [exact H|].
  cbn [List.length] in Hlen.
  change (replay (t :: ts) st) with (replay ts (apply t st)).
  destruct (consistent_apply t st Hcons) as [H1 H2]; [lia|].
  apply IH; [exact H1|lia|].
  apply created_ids_apply; [exact Hcons|lia|exact H].
Qed.

(** X27. The log announces every record once and in order: after any
    sequence of at most [2^256 - 1] calls on a fresh contract, the
    inherited role functions included, the [FIRCreated] events of the log
    carry the numbers 1, 2, ... up to [getTotalFIRs], so that the record
    number a client reads from the receipt of its transaction is the
    number of its record. *)
Theorem log_announces_every_record_once (deployer : address)
  (ts : list Transaction) :
  Z.of_nat (List.length ts) <= uint256_max ->
  let st := replay ts (deployed deployer) in
  created_ids (events st) = ids_from 1 (Z.to_nat (firCounter st)).
Proof.
  intros Hlen st. apply created_ids_replay.
  - apply consistent_deployed.
  - cbn [deployed firCounter]. lia.
  - reflexivity.
Qed.

End LedgerFacts.

(** ** The edit distance is a metric *)

Module DistanceFacts.
Import JSNumber Text ML Spec MLFacts.

Lemma lev_dist_nil_l l1 : lev_dist [] l1 = Z.of_nat (List.length l1).
Proof. reflexivity. Qed.

Lemma lev_dist_lower l2 : forall l1,
  Z.abs (Z.of_nat (List.length l2) - Z.of_nat (List.length l1)) <= lev_dist l2 l1.
Proof.
  induction l2 as [|x l2 IH2]; intros l1.
  - rewrite lev_dist_nil_l. cbn [List.length]. lia.
  - induction l1 as [|y l1 IH1].
    + rewrite lev_dist_nil_r. cbn [List.length]. lia.
    + rewrite lev_dist_cons.
      pose proof (IH2 l1) as A. pose proof (IH2 (y :: l1)) as B.
      cbn [List.length] in *.
      destruct (Ascii.eqb x y); lia.
Qed.

Lemma lev_dist_nonneg l2 l1 : 0 <= lev_dist l2 l1.
Proof. pose proof (lev_dist_lower l2 l1). lia. Qed.

Lemma lev_dist_upper l2 : forall l1,
  lev_dist l2 l1 <= Z.max (Z.of_nat (List.length l2)) (Z.of_nat (List.length l1)).
Proof.
  induction l2 as [|x l2 IH2]; intros l1.
  - rewrite lev_dist_nil_l. lia.
  - destruct l1 as [|y l1].
    + rewrite lev_dist_nil_r. lia.
    + rewrite lev_dist_cons. pose proof (IH2 l1) as A.
      cbn [List.length]. destruct (Ascii.eqb x y); lia.
Qed.

Lemma lev_dist_zero l2 : forall l1, lev_dist l2 l1 = 0 -> l2 = l1.
Proof.
  induction l2 as [|x l2 IH2]; intros l1 H.
  - rewrite lev_dist_nil_l in H. destruct l1; [reflexivity|cbn in H; lia].
  - destruct l1 as [|y l1].
    + rewrite lev_dist_nil_r in H. cbn in H. lia.
    + rewrite lev_dist_cons in H.
      destruct (Ascii.eqb x y) eqn:E.
      * apply Ascii.eqb_eq in E. subst y. f_equal. now apply IH2.
      * pose proof (lev_dist_nonneg l2 l1).
        pose proof (lev_dist_nonneg (x :: l2) l1).
        pose proof (lev_dist_nonneg l2 (y :: l1)). lia.
Qed.

(** One more unit on one side moves the distance by at most one. *)
Lemma lev_dist_step (n : nat) : forall a b,
  (List.length a + List.length b <= n)%nat ->
  forall x, lev_dist (x :: a) b <= lev_dist a b + 1
            /\ lev_dist a b <= lev_dist (x :: a) b + 1.
Proof.
  induction n as [|n IH]; intros a b Hn x.
  - destruct a, b; cbn [List.length] in Hn; try lia.
    rewrite lev_dist_nil_r, lev_dist_nil_l. cbn [List.length]. lia.
  - destruct b as [|y b].
    + rewrite !lev_dist_nil_r. cbn [List.length]. lia.
    + cbn [List.length] in Hn.
      assert (Hba : forall z, lev_dist a (z :: b) <= lev_dist a b + 1
                              /\ lev_dist a b <= lev_dist a (z :: b) + 1).
      { intros z. rewrite (lev_dist_sym a (z :: b)), (lev_dist_sym a b).
        apply IH. lia. }
      assert (Hab : lev_dist a b <= lev_dist (x :: a) b + 1).
      { apply IH. lia. }
      destruct (Hba y) as [B1 B2].
      rewrite lev_dist_cons. destruct (Ascii.eqb x y); lia.
Qed.

Lemma lev_dist_cons_l x a b : lev_dist (x :: a) b <= lev_dist a b + 1.
Proof. now apply (lev_dist_step (List.length a + List.length b) a b). Qed.

Lemma lev_dist_cons_r y a b : lev_dist a (y :: b) <= lev_dist a b + 1.
Proof. rewrite (lev_dist_sym a (y :: b)), (lev_dist_sym a b). apply lev_dist_cons_l. Qed.

Lemma lev_dist_triangle (n : nat) : forall a b c,
  (List.length a + List.length b + List.length c <= n)%nat ->
  lev_dist a c <= lev_dist a b + lev_dist b c.
Proof.
  induction n as [|n IH]; intros a b c Hn.
  - destruct a, b, c; cbn [List.length] in Hn; try lia. cbn. lia.
  - destruct a as [|x a].
    { rewrite !lev_dist_nil_l. pose proof (lev_dist_lower b c). lia. }
    destruct c as [|z c].
    { rewrite !lev_dist_nil_r. pose proof (lev_dist_lower (x :: a) b). lia. }
    destruct b as [|y b].
    { rewrite lev_dist_nil_r, lev_dist_nil_l.
      pose proof (lev_dist_upper (x :: a) (z :: c)). lia. }
    cbn [List.length] in Hn.
    pose proof (IH a (y :: b) (z :: c)) as T1.
    pose proof (IH (x :: a) (y :: b) c) as T2.
    pose proof (IH (x :: a) b (z :: c)) as T3.
    pose proof (IH (x :: a) b c) as T4.
    pose proof (IH a b (z :: c)) as T5.
    pose proof (IH a b c) as T6.
    cbn [List.length] in T1, T2, T3, T4, T5, T6.
    specialize (T1 ltac:(lia)). specialize (T2 ltac:(lia)).
    specialize (T3 ltac:(lia)). specialize (T4 ltac:(lia)).
    specialize (T5 ltac:(lia)). specialize (T6 ltac:(lia)).
    pose proof (lev_dist_cons_l x a (z :: c)) as L1.
    pose proof (lev_dist_cons_r z (x :: a) c) as L2.
    pose proof (lev_dist_cons_l x a c) as L3.
    pose proof (lev_dist_cons_r z a c) as L4.
    pose proof (lev_dist_cons x a y b) as E1.
    pose proof (lev_dist_cons y b z c) as E2.
    pose proof (lev_dist_cons x a z c) as E3.
    assert (Exz : Ascii.eqb x y = true -> Ascii.eqb y z = true ->
                  Ascii.eqb x z = true).
    { intros H1 H2. apply Ascii.eqb_eq in H1, H2. subst.
      apply Ascii.eqb_refl. }
    destruct (Ascii.eqb x y), (Ascii.eqb y z), (Ascii.eqb x z);
      try (specialize (Exz eq_refl eq_refl); discriminate); lia.
Qed.

(** X10. [calculateLevenshteinDistance] is a metric on strings: it is
    symmetric, it is zero exactly on equal strings, and it obeys the
    triangle inequality; it lies between the difference of the two lengths
    and the larger of them, so the distance to the empty string is the
    length. *)
Theorem edit_distance_is_a_metric (a b c : string) :
  calculateLevenshteinDistance a b = calculateLevenshteinDistance b a
  /\ (calculateLevenshteinDistance a b = 0 <-> a = b)
  /\ calculateLevenshteinDistance a c
     <= calculateLevenshteinDistance a b + calculateLevenshteinDistance b c
  /\ Z.abs (Z.of_nat (String.length a) - Z.of_nat (String.length b))
     <= calculateLevenshteinDistance a b
     <= Z.max (Z.of_nat (String.length a)) (Z.of_nat (String.length b))
  /\ calculateLevenshteinDistance a EmptyString = Z.of_nat (String.length a)
  /\ calculateLevenshteinDistance EmptyString b = Z.of_nat (String.length b).
Proof.
  rewrite !calculateLevenshteinDistance_spec.
  split; [apply lev_dist_sym|]. split; [|split; [|split; [|split]]].
  - split.
    + intros H. apply lev_dist_zero in H.
      apply (f_equal (@rev ascii)) in H. rewrite !rev_involutive in H.
      apply (f_equal of_chars) in H. unfold of_chars, chars in H.
      now rewrite !string_of_list_ascii_of_string in H.
    + intros ->. apply lev_dist_refl.
  - rewrite (lev_dist_sym (rev (chars c)) (rev (chars a))),
      (lev_dist_sym (rev (chars b)) (rev (chars a))),
      (lev_dist_sym (rev (chars c)) (rev (chars b))).
    eapply lev_dist_triangle. reflexivity.
  - pose proof (lev_dist_lower (rev (chars b)) (rev (chars a))) as L.
    pose proof (lev_dist_upper (rev (chars b)) (rev (chars a))) as U.
    rewrite !length_rev, !length_chars in L, U. lia.
  - cbn [chars list_ascii_of_string rev]. rewrite lev_dist_nil_l.
    now rewrite length_rev, length_chars.
  - cbn [chars list_ascii_of_string rev]. rewrite lev_dist_nil_r.
    now rewrite length_rev, length_chars.
Qed.

End DistanceFacts.

(** ** The word-set metrics *)

Module VocabularyFacts.
Import JSNumber Text ML Spec MLFacts FloatFacts ScoreFacts.

Lemma intersection_In w1 w2 x :
  In x (Set_of (filter (Set_has (Set_of w2)) (Set_of w1)))
  <-> In x w1 /\ In x w2.
Proof. now rewrite Set_of_In, filter_has_In, !Set_of_In. Qed.

Lemma union_In w1 w2 x :
  In x (Set_of (Set_of w1 ++ Set_of w2)) <-> In x w1 \/ In x w2.
Proof. now rewrite Set_of_In, in_app_iff, !Set_of_In. Qed.

Lemma size_perm {A} (l1 l2 : list A) : Permutation l1 l2 -> size l1 = size l2.
Proof. intros H. unfold size. f_equal. now apply Permutation_length. Qed.

Lemma same_members_same_size (l1 l2 : list string) :
  NoDup l1 -> NoDup l2 -> (forall x, In x l1 <-> In x l2) -> size l1 = size l2.
Proof. intros H1 H2 H. apply size_perm. now apply NoDup_Permutation. Qed.

(** X11. The Jaccard metric looks at the two word lists as sets: neither
    the order of the words nor their repetitions matter. *)
Theorem jaccard_depends_only_on_the_word_sets (w1 w2 w1' w2' : list string) :
  (forall x, In x w1 <-> In x w1') ->
  (forall x, In x w2 <-> In x w2') ->
  calculateJaccardSimilarity w1 w2 = calculateJaccardSimilarity w1' w2'.
Proof.
  intros H1 H2. unfold calculateJaccardSimilarity. cbv zeta.
  f_equal; f_equal; apply same_members_same_size; try apply Set_of_NoDup.
  - intros x. rewrite !intersection_In, H1, H2. tauto.
  - intros x. rewrite !union_In, H1, H2. tauto.
Qed.

(** X12. Two word lists with the same words, of which there is at least
    one, have a Jaccard metric of exactly 1, however often and in whatever
    order the words occur. *)
Theorem jaccard_of_equal_word_sets_is_one (w1 w2 : list string) :
  w1 <> [] ->
  size w1 < 2 ^ 32 ->
  (forall x, In x w1 <-> In x w2) ->
  calculateJaccardSimilarity w1 w2 = of_Z 1.
Proof.
  intros Hne Hs H. unfold calculateJaccardSimilarity. cbv zeta.
  assert (E : size (Set_of (filter (Set_has (Set_of w2)) (Set_of w1)))
              = size (Set_of (Set_of w1 ++ Set_of w2))).
  { apply same_members_same_size; try apply Set_of_NoDup.
    intros x. rewrite intersection_In, union_In, <- H. tauto. }
  rewrite E.
  set (u := size (Set_of (Set_of w1 ++ Set_of w2))).
  assert (Hu : 1 <= u < 2 ^ 32).
  { assert (Eu : u = size (Set_of w1)).
    { apply same_members_same_size; try apply Set_of_NoDup.
      intros x. rewrite union_In, Set_of_In, <- H. tauto. }
    rewrite Eu. split.
    - now apply size_Set_of_pos.
    - pose proof (size_Set_of_le w1). lia. }
  destruct (of_Z_normal u 32 Hu) as (m & e & -> & Hm & _); [lia|].
  now apply div_self.
Qed.

(** X13. [findCommonWords] returns every word that occurs in both lists
    once, whatever the number of its occurrences, and nothing else; the
    number of common words does not depend on which list comes first. *)
Theorem common_words_are_the_shared_words_once (w1 w2 : list string) :
  NoDup (findCommonWords w1 w2)
  /\ (forall x, In x (findCommonWords w1 w2) <-> In x w1 /\ In x w2)
  /\ size (findCommonWords w1 w2) = size (findCommonWords w2 w1).
Proof.
  unfold findCommonWords. cbv zeta.
  assert (Hn : forall a b, NoDup (filter (Set_has (Set_of b)) (Set_of a))).
  { intros a b. apply NoDup_filter, Set_of_NoDup. }
  assert (Hi : forall a b x, In x (filter (Set_has (Set_of b)) (Set_of a))
                             <-> In x a /\ In x b).
  { intros a b x. now rewrite filter_has_In, !Set_of_In. }
  split; [apply Hn|]. split; [apply Hi|].
  apply same_members_same_size; try apply Hn.
  intros x. rewrite !Hi. tauto.
Qed.

End VocabularyFacts.

(** ** The cleaners return clean text *)

Module CleaningFacts.
Import Text Clean CleanShape CleanFacts.

Ltac each_unit c :=
  destruct c as [[] [] [] [] [] [] [] []]; try reflexivity; try discriminate.

Lemma chars_of_chars l : chars (of_chars l) = l.
Proof. apply list_ascii_of_string_of_list_ascii. Qed.

Lemma of_chars_chars s : of_chars (chars s) = s.
Proof. apply string_of_list_ascii_of_string. Qed.

Lemma lower_char_class c :
  (is_space (lower_char c) = is_space c)
  /\ (is_word (lower_char c) = is_word c)
  /\ is_upper (lower_char c) = false.
Proof. each_unit c; repeat split. Qed.

Lemma lower_char_clean c : clean_unit c = true -> lower_char c = c.
Proof. each_unit c. Qed.

Lemma clean_unit_class c :
  clean_unit c = true -> is_word c || is_space c = true.
Proof. each_unit c. Qed.

Lemma word_not_upper_clean c :
  is_word c = true -> is_upper c = false -> clean_unit c = true.
Proof. each_unit c. Qed.

Lemma clean_space c : clean_unit c = true -> is_space c = true -> c = space.
Proof. each_unit c. Qed.

Lemma forallb_trim_start (p : ascii -> bool) l :
  forallb p l = true -> forallb p (trim_start l) = true.
Proof.
  intros H. destruct (trim_start_split l) as (r & E & _).
  rewrite E, forallb_app in H. now apply andb_prop in H as [_ H].
Qed.

Lemma forallb_trim_chars (p : ascii -> bool) l :
  forallb p l = true -> forallb p (trim_chars l) = true.
Proof.
  intros H. unfold trim_chars.
  rewrite forallb_rev. apply forallb_trim_start.
  rewrite forallb_rev. now apply forallb_trim_start.
Qed.

Lemma is_trimmed_trim_chars l : is_trimmed (trim_chars l) = true.
Proof.
  unfold is_trimmed. apply andb_true_iff. split.
  - change (trim_chars l) with (trim_end (trim_start l)).
    pose proof (trim_start_head l) as Hh.
    pose proof (trim_start_trim_end (trim_start l) Hh) as Ht.
    pose proof (trim_start_head (trim_end (trim_start l))) as Hh2.
    rewrite Ht in Hh2.
    destruct (trim_end (trim_start l)); [reflexivity|]. now rewrite Hh2.
  - unfold trim_chars. rewrite rev_involutive.
    pose proof (trim_start_head (rev (trim_start l))) as Hh.
    destruct (trim_start (rev (trim_start l))); [reflexivity|]. now rewrite Hh.
Qed.

Lemma trim_chars_id l : is_trimmed l = true -> trim_chars l = l.
Proof.
  unfold is_trimmed. intros H. apply andb_prop in H as [H1 H2].
  unfold trim_chars. rewrite (trim_start_fixed l).
  - rewrite (trim_start_fixed (rev l)); [apply rev_involutive|].
    destruct (rev l); [exact I|]. now apply negb_true_iff in H2.
  - destruct l; [exact I|]. now apply negb_true_iff in H1.
Qed.

(** *** [MLService.cleanText] *)

Lemma blank_clean l :
  forallb (fun c => (is_word c && negb (is_upper c)) || is_space c)
    (replace_class (fun c => negb (is_word c || is_space c)) [space]
       (map lower_char l)) = true.
Proof.
  unfold replace_class. induction l as [|c l IH]; [reflexivity|].
  cbn [map flat_map]. rewrite forallb_app, IH, andb_true_r.
  destruct (lower_char_class c) as (Hs & Hw & Hu).
  destruct (is_word (lower_char c)) eqn:Ew; cbn [orb negb forallb].
  - now rewrite Ew, Hu.
  - destruct (is_space (lower_char c)) eqn:Es; cbn [negb forallb].
    + now rewrite Es, orb_true_r.
    + reflexivity.
Qed.

Lemma collapse_clean l b :
  forallb (fun c => (is_word c && negb (is_upper c)) || is_space c) l = true ->
  forallb clean_unit (replace_space_runs [space] b l) = true.
Proof.
  revert b. induction l as [|c l IH]; intros b H; [reflexivity|].
  cbn [forallb] in H. apply andb_prop in H as [Hc Hl].
  cbn [replace_space_runs]. destruct (is_space c) eqn:Es.
  - rewrite forallb_app, IH by exact Hl. now destruct b.
  - cbn [forallb]. rewrite IH by exact Hl. rewrite andb_true_r.
    rewrite orb_false_r in Hc. apply andb_prop in Hc as [Hw Hu].
    apply word_not_upper_clean; [exact Hw|]. now apply negb_true_iff in Hu.
Qed.

Lemma map_lower_clean l :
  forallb clean_unit l = true -> map lower_char l = l.
Proof.
  induction l as [|c l IH]; [reflexivity|]. cbn [forallb map].
  intros H. apply andb_prop in H as [Hc Hl].
  now rewrite (lower_char_clean c Hc), IH.
Qed.

Lemma blank_id l :
  forallb clean_unit l = true ->
  replace_class (fun c => negb (is_word c || is_space c)) [space] l = l.
Proof.
  unfold replace_class. induction l as [|c l IH]; [reflexivity|].
  cbn [forallb flat_map]. intros H. apply andb_prop in H as [Hc Hl].
  rewrite (clean_unit_class c Hc), IH by exact Hl. reflexivity.
Qed.

(** X14. The text [cleanText] hands to the scorers consists of
    lower-case letters, digits, underscores and single spaces only, with
    no space at either end; cleaning it again changes nothing. *)
Theorem scoring_text_is_clean (text : string) :
  let cleaned := chars (ML.cleanText text) in
  forallb clean_unit cleaned = true
  /\ ws_normal false cleaned = true
  /\ is_trimmed cleaned = true
  /\ ML.cleanText (ML.cleanText text) = ML.cleanText text.
Proof.
  cbv zeta.
  assert (Hshape : forall t,
             let l := chars (ML.cleanText t) in
             forallb clean_unit l = true /\ ws_normal false l = true
             /\ is_trimmed l = true).
  { intros t. cbv zeta. unfold ML.cleanText, toLowerCase.
    rewrite !chars_of_chars. split; [|split].
    - apply forallb_trim_chars, collapse_clean, blank_clean.
    - apply ws_normal_trim_chars, collapse_normal.
    - apply is_trimmed_trim_chars. }
  destruct (Hshape text) as (H1 & H2 & H3).
  split; [exact H1|]. split; [exact H2|]. split; [exact H3|].
  set (l := chars (ML.cleanText text)) in *.
  unfold ML.cleanText at 1. unfold toLowerCase. fold l.
  rewrite chars_of_chars, (map_lower_clean l H1), (blank_id l H1).
  rewrite (collapse_id l false false H2) by auto.
  rewrite (trim_chars_id l H3). apply of_chars_chars.
Qed.

(** *** [OCRService.cleanText] *)

Lemma no_space_before_spaces r a :
  forallb is_space r = true -> no_space_before a r = true.
Proof.
  revert a. induction r as [|c r IH]; intros a H; [reflexivity|].
  cbn [forallb] in H. apply andb_prop in H as [Hc Hr].
  cbn [no_space_before]. rewrite Hc. now apply IH.
Qed.

Lemma no_space_before_spaces_app r c l a :
  forallb is_space r = true -> is_space c = false -> is_punct c = false ->
  no_space_before a (r ++ c :: l) = no_space_before false l.
Proof.
  revert a. induction r as [|d r IH]; intros a Hr Hc Hp.
  - cbn [app no_space_before]. now rewrite Hc, Hp, andb_false_r.
  - cbn [forallb] in Hr. apply andb_prop in Hr as [Hd Hr].
    cbn [app no_space_before]. rewrite Hd. now apply IH.
Qed.

Lemma no_space_before_prefix l1 l2 a :
  no_space_before a (l1 ++ l2) = true -> no_space_before a l1 = true.
Proof.
  revert a. induction l1 as [|c l1 IH]; intros a H; [reflexivity|].
  cbn [app no_space_before] in *. destruct (is_space c).
  - now apply IH.
  - apply andb_prop in H as [H1 H2]. rewrite H1. now apply IH.
Qed.

Lemma no_space_before_weaken l a :
  no_space_before a l = true -> no_space_before false l = true.
Proof.
  destruct l as [|c l]; [reflexivity|]. cbn [no_space_before].
  destruct (is_space c); [auto|]. intros H. apply andb_prop in H as [_ H].
  now rewrite H.
Qed.

Lemma no_space_before_trim_start l a :
  no_space_before a l = true -> no_space_before false (trim_start l) = true.
Proof.
  revert a. induction l as [|c l IH]; intros a H; [reflexivity|].
  cbn [trim_start]. cbn [no_space_before] in H.
  destruct (is_space c) eqn:Es.
  - now apply (IH true).
  - cbn [no_space_before]. rewrite Es. apply andb_prop in H as [_ H].
    now rewrite H.
Qed.

Lemma no_space_before_trim_chars l :
  no_space_before false l = true ->
  no_space_before false (trim_chars l) = true.
Proof.
  intros H. change (trim_chars l) with (trim_end (trim_start l)).
  apply no_space_before_trim_start in H.
  destruct (trim_end_split (trim_start l)) as (r & E & _).
  rewrite E in H. now apply no_space_before_prefix in H.
Qed.

Lemma no_space_before_collapse l b :
  no_space_before b l = true ->
  no_space_before b (replace_space_runs [space] b l) = true.
Proof.
  revert b. induction l as [|c l IH]; intros b H; [reflexivity|].
  cbn [no_space_before] in H. cbn [replace_space_runs].
  destruct (is_space c) eqn:Es.
  - destruct b; cbn [app]; [now apply IH|].
    cbn [no_space_before]. change (is_space space) with true. cbv iota.
    now apply IH.
  - cbn [no_space_before]. rewrite Es.
    apply andb_prop in H as [H1 H2]. rewrite H1. now apply IH.
Qed.

Lemma no_space_before_one_space l st a :
  (st = InRun -> a = true) -> (st = JustAfter -> a = false) ->
  no_space_before a l = true ->
  no_space_before a (one_space_after_punct st l) = true.
Proof.
  revert st a. induction l as [|c l IH]; intros st a Hi Hj H; [reflexivity|].
  cbn [no_space_before] in H. cbn [one_space_after_punct].
  destruct (is_space c) eqn:Es.
  - destruct st.
    + cbn [no_space_before]. rewrite Es. apply IH; auto; discriminate.
    + cbn [no_space_before]. change (is_space space) with true. cbv iota.
      apply IH; auto; discriminate.
    + rewrite (Hi eq_refl). apply IH; auto; discriminate.
  - apply andb_prop in H as [H1 H2].
    destruct (is_punct c) eqn:Ep; cbn [no_space_before]; rewrite Es, Ep, H1;
      apply IH; auto; discriminate.
Qed.

Lemma no_space_before_drop l pending :
  forallb is_space pending = true ->
  no_space_before false (drop_space_before_punct pending l) = true.
Proof.
  revert pending. induction l as [|c l IH]; intros pending Hp.
  - cbn [drop_space_before_punct]. apply no_space_before_spaces.
    now rewrite forallb_rev.
  - cbn [drop_space_before_punct]. destruct (is_space c) eqn:Es.
    + apply IH. cbn [forallb]. now rewrite Es, Hp.
    + destruct (is_punct c) eqn:Ep.
      * cbn [no_space_before]. rewrite Es. cbn [andb negb]. now apply IH.
      * rewrite no_space_before_spaces_app; auto.
        now rewrite forallb_rev.
Qed.

Lemma drop_space_before_punct_id l pending a :
  match pending with
  | [] => ws_normal false l = true /\ no_space_before a l = true
  | _ => pending = [space]
         /\ ws_normal true l = true /\ no_space_before true l = true
  end ->
  drop_space_before_punct pending l = rev pending ++ l.
Proof.
  revert pending a. induction l as [|c l IH]; intros pending a H.
  - cbn [drop_space_before_punct]. now rewrite app_nil_r.
  - cbn [drop_space_before_punct].
    destruct pending as [|p pending].
    + destruct H as [Hn Hs]. cbn [ws_normal no_space_before] in Hn, Hs.
      destruct (is_space c) eqn:Es.
      * apply andb_prop in Hn as [Hn Hl]. apply andb_prop in Hn as [Hc _].
        apply Ascii.eqb_eq in Hc. subst c.
        rewrite (IH [space] true); [reflexivity|]. auto.
      * apply andb_prop in Hs as [_ Hs].
        destruct (is_punct c); cbn [rev app]; f_equal;
          apply (IH [] false); auto.
    + destruct H as (E & Hn & Hs). injection E as -> ->.
      cbn [ws_normal no_space_before] in Hn, Hs.
      destruct (is_space c) eqn:Es.
      * rewrite andb_false_r in Hn. discriminate.
      * apply andb_prop in Hs as [Hp Hs]. cbn [andb] in Hp.
        apply negb_true_iff in Hp. rewrite Hp.
        cbn [rev app]. do 2 f_equal. apply (IH [] false); auto.
Qed.

Lemma drop_kept l pending :
  forallb OCR.is_kept pending = true -> forallb OCR.is_kept l = true ->
  forallb OCR.is_kept (drop_space_before_punct pending l) = true.
Proof.
  revert pending. induction l as [|c l IH]; intros pending Hp Hl.
  - cbn [drop_space_before_punct]. now rewrite forallb_rev.
  - cbn [forallb] in Hl. apply andb_prop in Hl as [Hc Hl].
    cbn [drop_space_before_punct]. destruct (is_space c).
    + apply IH; [|exact Hl]. cbn [forallb]. now rewrite Hc, Hp.
    + destruct (is_punct c).
      * cbn [forallb]. rewrite Hc. now apply IH.
      * rewrite forallb_app, forallb_rev, Hp. cbn [forallb andb].
        rewrite Hc. now apply IH.
Qed.

Lemma one_space_kept l st :
  forallb OCR.is_kept l = true ->
  forallb OCR.is_kept (one_space_after_punct st l) = true.
Proof.
  revert st. induction l as [|c l IH]; intros st Hl; [reflexivity|].
  cbn [forallb] in Hl. apply andb_prop in Hl as [Hc Hl].
  cbn [one_space_after_punct].
  destruct (is_space c); [destruct st|destruct (is_punct c)];
    cbn [forallb]; rewrite ?Hc; try (change (OCR.is_kept space) with true);
    cbn [andb]; now apply IH.
Qed.

Lemma strip_kept l :
  forallb OCR.is_kept (replace_class (fun c => negb (OCR.is_kept c)) [] l) = true.
Proof.
  unfold replace_class. induction l as [|c l IH]; [reflexivity|].
  cbn [flat_map]. destruct (OCR.is_kept c) eqn:Ek; cbn [negb app forallb].
  - now rewrite Ek.
  - exact IH.
Qed.

(** X15. The text [OCRService.cleanText] returns consists of word
    characters, single spaces, the punctuation [.,!?;:] and [-()] only,
    has no space at either end and no space before punctuation; cleaning
    it again changes nothing. *)
Theorem extracted_text_is_clean (text : string) :
  let cleaned := chars (OCR.cleanText text) in
  forallb OCR.is_kept cleaned = true
  /\ ws_normal false cleaned = true
  /\ is_trimmed cleaned = true
  /\ no_space_before_punct cleaned = true
  /\ OCR.cleanText (OCR.cleanText text) = OCR.cleanText text.
Proof.
  cbv zeta.
  assert (Hshape : forall t,
             let l := chars (OCR.cleanText t) in
             forallb OCR.is_kept l = true /\ ws_normal false l = true
             /\ is_trimmed l = true /\ no_space_before_punct l = true).
  { intros t. cbv zeta. unfold OCR.cleanText. cbv zeta.
    rewrite !chars_of_chars. split; [|split; [|split]].
    - apply trim_chars_kept, collapse_kept, one_space_kept, drop_kept;
        [reflexivity|apply strip_kept].
    - apply ws_normal_trim_chars, collapse_normal.
    - apply is_trimmed_trim_chars.
    - apply no_space_before_trim_chars, no_space_before_collapse,
        no_space_before_one_space; try discriminate.
      now apply no_space_before_drop. }
  destruct (Hshape text) as (H1 & H2 & H3 & H4).
  split; [exact H1|]. split; [exact H2|]. split; [exact H3|].
  split; [exact H4|].
  set (l := chars (OCR.cleanText text)) in *.
  unfold OCR.cleanText at 1. cbv zeta. fold l.
  rewrite (collapse_id l false false H2) by auto.
  rewrite (newline_runs_id [newline] l false false H2).
  rewrite (trim_chars_id l H3), (strip_kept_id l H1).
  rewrite (drop_space_before_punct_id l [] false) by auto.
  cbn [rev app].
  rewrite (one_space_after_punct_id l Apart H2).
  rewrite (collapse_id l false false H2) by auto.
  rewrite (trim_chars_id l H3). apply of_chars_chars.
Qed.

(** *** [STTService.cleanTranscription] *)

Lemma space_classes c :
  is_space c = true ->
  is_lower c = false /\ is_sentence_end c = false /\ is_punct c = false.
Proof. each_unit c; repeat split. Qed.

Lemma lower_classes c :
  is_lower c = true ->
  is_space c = false /\ is_sentence_end c = false /\ is_punct c = false.
Proof. each_unit c; repeat split. Qed.

Lemma no_lower_after_spec l a :
  no_lower_after a l
  = negb (a && match l with c :: _ => is_lower c | [] => false end)
    && no_lower_after_sentence_end l.
Proof.
  revert a. induction l as [|c l IH]; intros a.
  - now rewrite andb_false_r.
  - cbn [no_lower_after]. rewrite IH.
    destruct l as [|d l]; cbn [no_lower_after_sentence_end];
      [now rewrite andb_false_r|reflexivity].
Qed.

Lemma no_lower_after_weaken l a :
  no_lower_after a l = true -> no_lower_after false l = true.
Proof.
  destruct l as [|c l]; [reflexivity|]. cbn [no_lower_after andb negb].
  intros H. now apply andb_prop in H as [_ H].
Qed.

Lemma no_lower_after_spaces r a :
  forallb is_space r = true -> no_lower_after a r = true.
Proof.
  revert a. induction r as [|c r IH]; intros a H; [reflexivity|].
  cbn [forallb] in H. apply andb_prop in H as [Hc Hr].
  destruct (space_classes c Hc) as (Hl & He & _).
  cbn [no_lower_after]. rewrite Hl, He, andb_false_r. now apply IH.
Qed.

Lemma no_lower_after_spaces_app r l a :
  forallb is_space r = true -> r <> [] ->
  no_lower_after a (r ++ l) = no_lower_after false l.
Proof.
  revert a. induction r as [|c r IH]; intros a Hr Hne; [congruence|].
  cbn [forallb] in Hr. apply andb_prop in Hr as [Hc Hr].
  destruct (space_classes c Hc) as (Hl & He & _).
  cbn [app no_lower_after]. rewrite Hl, He, andb_false_r. cbn [negb andb].
  destruct r as [|d r]; [reflexivity|]. apply IH; [exact Hr|discriminate].
Qed.

Lemma no_lower_after_prefix l1 l2 a :
  no_lower_after a (l1 ++ l2) = true -> no_lower_after a l1 = true.
Proof.
  revert a. induction l1 as [|c l1 IH]; intros a H; [reflexivity|].
  cbn [app no_lower_after] in *. apply andb_prop in H as [H1 H2].
  rewrite H1. now apply IH.
Qed.

Lemma no_lower_after_trim_start l a :
  no_lower_after a l = true -> no_lower_after false (trim_start l) = true.
Proof.
  revert a. induction l as [|c l IH]; intros a H; [reflexivity|].
  cbn [trim_start]. destruct (is_space c) eqn:Es.
  - cbn [no_lower_after] in H. apply andb_prop in H as [_ H].
    now apply IH in H.
  - now apply no_lower_after_weaken in H.
Qed.

Lemma no_lower_after_trim_chars l :
  no_lower_after false l = true -> no_lower_after false (trim_chars l) = true.
Proof.
  intros H. change (trim_chars l) with (trim_end (trim_start l)).
  apply no_lower_after_trim_start in H.
  destruct (trim_end_split (trim_start l)) as (r & E & _).
  rewrite E in H. now apply no_lower_after_prefix in H.
Qed.

Lemma no_lower_after_one_space l st a :
  (st = InRun -> a = false) ->
  no_lower_after a l = true ->
  no_lower_after a (one_space_after_punct st l) = true.
Proof.
  revert st a. induction l as [|c l IH]; intros st a Hi H; [reflexivity|].
  cbn [no_lower_after] in H. apply andb_prop in H as [H1 H2].
  cbn [one_space_after_punct].
  destruct (is_space c) eqn:Es.
  - destruct (space_classes c Es) as (Hl & He & _). rewrite He in H2.
    destruct st.
    + cbn [no_lower_after]. rewrite H1, He. apply IH; [discriminate|exact H2].
    + cbn [no_lower_after]. change (is_lower space) with false.
      change (is_sentence_end space) with false. rewrite andb_false_r.
      apply IH; [reflexivity|exact H2].
    + rewrite (Hi eq_refl). apply IH; [reflexivity|exact H2].
  - destruct (is_punct c); cbn [no_lower_after]; rewrite H1;
      apply IH; try discriminate; exact H2.
Qed.

Lemma no_lower_after_drop l pending a :
  forallb is_space pending = true ->
  no_lower_after (match pending with [] => a | _ => false end) l = true ->
  no_lower_after a (drop_space_before_punct pending l) = true.
Proof.
  revert pending a. induction l as [|c l IH]; intros pending a Hp H.
  - cbn [drop_space_before_punct]. apply no_lower_after_spaces.
    now rewrite forallb_rev.
  - cbn [drop_space_before_punct]. destruct (is_space c) eqn:Es.
    + destruct (space_classes c Es) as (Hl & He & _).
      apply IH; [cbn [forallb]; now rewrite Es, Hp|].
      cbn [no_lower_after] in H. rewrite He in H.
      now apply andb_prop in H as [_ H].
    + cbn [no_lower_after] in H. apply andb_prop in H as [H1 H2].
      destruct (is_punct c) eqn:Ep.
      * cbn [no_lower_after].
        assert (Hl : is_lower c = false).
        { destruct (is_lower c) eqn:El; [|reflexivity].
          destruct (lower_classes c El) as (_ & _ & Hx). congruence. }
        rewrite Hl, andb_false_r. cbn [negb andb]. now apply IH.
      * destruct pending as [|p pending].
        -- cbn [rev app no_lower_after]. rewrite H1. now apply IH.
        -- rewrite no_lower_after_spaces_app;
             [|now rewrite forallb_rev|intros E; apply (f_equal (@rev ascii)) in E;
               rewrite rev_involutive in E; discriminate].
           cbn [no_lower_after andb negb]. now apply IH.
Qed.

(** What [space_after_sentence] returns has no lower-case letter directly
    after the end of a sentence. *)
Lemma no_lower_after_space_after_sentence l pending :
  match pending with Some ws => forallb is_space ws = true | None => True end ->
  no_lower_after (match pending with Some _ => true | None => false end)
    (space_after_sentence pending l) = true.
Proof.
  revert pending. induction l as [|c l IH]; intros pending Hp.
  - destruct pending as [ws|]; [|reflexivity]. cbn [space_after_sentence].
    apply no_lower_after_spaces. now rewrite forallb_rev.
  - cbn [space_after_sentence]. destruct pending as [ws|].
    + destruct (is_space c) eqn:Es.
      * apply (IH (Some (c :: ws))). cbn [forallb]. now rewrite Es, Hp.
      * destruct (is_lower c) eqn:El.
        -- destruct (lower_classes c El) as (_ & He & _).
           cbn [no_lower_after]. change (is_lower space) with false.
           change (is_sentence_end space) with false.
           rewrite He. cbn [andb negb]. apply (IH None). exact I.
        -- destruct ws as [|w ws].
           ++ cbn [rev app no_lower_after]. rewrite El. cbn [andb negb].
              destruct (is_sentence_end c); [apply (IH (Some []))|apply (IH None)];
                auto.
           ++ rewrite no_lower_after_spaces_app;
                [|now rewrite forallb_rev|intros E; apply (f_equal (@rev ascii)) in E;
                  rewrite rev_involutive in E; discriminate].
              cbn [no_lower_after andb negb].
              destruct (is_sentence_end c); [apply (IH (Some []))|apply (IH None)];
                auto.
    + cbn [no_lower_after andb negb].
      destruct (is_sentence_end c); [apply (IH (Some []))|apply (IH None)]; auto.
Qed.

(** On text whose white space is normal, [space_after_sentence] keeps it
    so. *)
Lemma space_after_sentence_normal l pending :
  match pending with
  | None => True
  | Some [] => ws_normal false l = true
  | Some ws => ws = [space] /\ ws_normal true l = true
  end ->
  forall b, (pending = None -> ws_normal b l = true) ->
  ws_normal (match pending with None => b | Some _ => false end)
    (space_after_sentence pending l) = true.
Proof.
  revert pending. induction l as [|c l IH]; intros pending Hp b Hb.
  - destruct pending as [[|w ws]|]; try reflexivity.
    destruct Hp as [-> _]. reflexivity.
  - cbn [space_after_sentence]. destruct pending as [ws|].
    + destruct (is_space c) eqn:Es.
      * destruct ws as [|w ws].
        -- cbn [ws_normal] in Hp. rewrite Es in Hp.
           apply andb_prop in Hp as [Hc Hl]. apply andb_prop in Hc as [Hc _].
           apply Ascii.eqb_eq in Hc. subst c.
           apply (IH (Some [space]) (conj eq_refl Hl) false). discriminate.
        -- destruct Hp as [_ Hn]. cbn [ws_normal] in Hn. rewrite Es in Hn.
           rewrite andb_false_r in Hn. discriminate.
      * assert (Hl : ws_normal false l = true).
        { destruct ws as [|w ws]; [|destruct Hp as [_ Hp]];
            cbn [ws_normal] in Hp; now rewrite Es in Hp. }
        destruct (is_lower c) eqn:El.
        -- cbn [ws_normal]. change (is_space space) with true. cbv iota.
           rewrite Ascii.eqb_refl, Es. cbn [negb andb].
           apply (IH None I false). auto.
        -- assert (Hrest : ws_normal false
                             (c :: space_after_sentence
                                     (if is_sentence_end c then Some [] else None) l)
                           = true).
           { cbn [ws_normal]. rewrite Es.
             destruct (is_sentence_end c).
             - apply (IH (Some []) Hl false). discriminate.
             - apply (IH None I false). auto. }
           destruct ws as [|w ws]; [exact Hrest|].
           destruct Hp as [E _]. injection E as -> ->.
           cbn [rev app ws_normal]. change (is_space space) with true. cbv iota.
           rewrite Ascii.eqb_refl. cbn [negb andb].
           cbn [ws_normal] in Hrest. rewrite Es in Hrest.
           rewrite Es. exact Hrest.
    + specialize (Hb eq_refl). cbn [ws_normal] in Hb |- *.
      destruct (is_space c) eqn:Es.
      * apply andb_prop in Hb as [Hc Hl]. rewrite Hc. cbn [andb].
        destruct (space_classes c Es) as (_ & He & _). rewrite He.
        apply (IH None I true). auto.
      * destruct (is_sentence_end c).
        -- apply (IH (Some []) Hb false). discriminate.
        -- apply (IH None I false). auto.
Qed.

(** X16. The text [STTService.cleanTranscription] returns has single
    spaces only, none at either end and none before punctuation, and no
    lower-case letter directly after [.], [!] or [?]; cleaning it again
    changes nothing. *)
Theorem transcribed_text_is_clean (text : string) :
  let cleaned := chars (STT.cleanTranscription text) in
  ws_normal false cleaned = true
  /\ is_trimmed cleaned = true
  /\ no_space_before_punct cleaned = true
  /\ no_lower_after_sentence_end cleaned = true
  /\ STT.cleanTranscription (STT.cleanTranscription text)
     = STT.cleanTranscription text.
Proof.
  cbv zeta.
  assert (Hshape : forall t,
             let l := chars (STT.cleanTranscription t) in
             ws_normal false l = true /\ is_trimmed l = true
             /\ no_space_before_punct l = true
             /\ no_lower_after false l = true).
  { intros t. cbv zeta. unfold STT.cleanTranscription. cbv zeta.
    rewrite !chars_of_chars.
    set (s1 := replace_space_runs [space] false (chars t)).
    assert (N1 : ws_normal false s1 = true) by apply collapse_normal.
    rewrite (newline_runs_id [space] s1 false false N1).
    set (s3 := space_after_sentence None s1).
    assert (N3 : ws_normal false s3 = true)
      by (apply (space_after_sentence_normal s1 None I false); auto).
    set (s4 := drop_space_before_punct [] s3).
    assert (N4 : ws_normal false s4 = true)
      by (apply drop_space_before_punct_normal; auto).
    rewrite (one_space_after_punct_id s4 Apart N4).
    split; [|split; [|split]].
    - now apply ws_normal_trim_chars.
    - apply is_trimmed_trim_chars.
    - apply no_space_before_trim_chars. now apply no_space_before_drop.
    - apply no_lower_after_trim_chars, no_lower_after_drop; [reflexivity|].
      apply (no_lower_after_space_after_sentence s1 None). exact I. }
  destruct (Hshape text) as (H1 & H2 & H3 & H4).
  split; [exact H1|]. split; [exact H2|]. split; [exact H3|].
  assert (H5 : no_lower_after_sentence_end (chars (STT.cleanTranscription text))
               = true).
  { rewrite no_lower_after_spec in H4. now cbn [andb negb] in H4. }
  split; [exact H5|].
  set (l := chars (STT.cleanTranscription text)) in *.
  unfold STT.cleanTranscription at 1. cbv zeta. fold l.
  rewrite (collapse_id l false false H1) by auto.
  rewrite (newline_runs_id [space] l false false H1).
  rewrite (space_after_sentence_id l None H1 H5 I).
  rewrite (drop_space_before_punct_id l [] false) by auto.
  cbn [rev app].
  rewrite (one_space_after_punct_id l Apart H1).
  rewrite (trim_chars_id l H2). apply of_chars_chars.
Qed.

End CleaningFacts.

(** ** The keyword prediction of law sections *)

Module SectionFacts.
Import Text ML MLFacts CleaningFacts.

Lemma starts_with_spec p s :
  starts_with p s = true <-> exists post, s = p ++ post.
Proof.
  revert s. induction p as [|a p IH]; intros s.
  - cbn. split; [intros _; now exists s|reflexivity].
  - destruct s as [|b s]; cbn [starts_with].
    + split; [discriminate|]. intros (post & H). discriminate.
    + rewrite andb_true_iff, Ascii.eqb_eq, IH. split.
      * intros (-> & post & ->). now exists post.
      * intros (post & H). cbn [app] in H. injection H as -> ->. eauto.
Qed.

Lemma includes_chars_spec s p :
  includes_chars s p = true <-> exists pre post, s = pre ++ p ++ post.
Proof.
  induction s as [|c s IH].
  - cbn [includes_chars]. rewrite orb_false_r, starts_with_spec. split.
    + intros (post & H). now exists [], post.
    + intros (pre & post & H). destruct pre; [now exists post|discriminate].
  - cbn [includes_chars]. rewrite orb_true_iff, starts_with_spec, IH. split.
    + intros [(post & H)|(pre & post & H)].
      * now exists [], post.
      * exists (c :: pre), post. cbn [app]. now f_equal.
    + intros (pre & post & H). destruct pre as [|d pre].
      * left. now exists post.
      * right. cbn [app] in H. injection H as -> ->. now exists pre, post.
Qed.

Lemma lower_char_idem c : lower_char (lower_char c) = lower_char c.
Proof. each_unit c. Qed.

Lemma toLowerCase_idem s : toLowerCase (toLowerCase s) = toLowerCase s.
Proof.
  unfold toLowerCase. rewrite chars_of_chars, map_map. f_equal.
  apply map_ext. intros c. apply lower_char_idem.
Qed.

(** X17. [predictWithFallback] returns a section exactly when the text,
    in lower case, contains a keyword whose entry lists that section; no
    section is returned twice, even when several keywords list it; and
    the upper or lower case of the text makes no difference. *)
Theorem predicted_sections_are_those_of_the_keywords_found (text : string) :
  NoDup (predictWithFallback text)
  /\ (forall section,
        In section (predictWithFallback text)
        <-> exists keyword sections pre post,
              In (keyword, sections) keywords
              /\ In section sections
              /\ chars (toLowerCase text) = pre ++ chars keyword ++ post)
  /\ predictWithFallback (toLowerCase text) = predictWithFallback text.
Proof.
  unfold predictWithFallback. cbv zeta.
  split; [apply Set_of_NoDup|]. split.
  - intros section. rewrite Set_of_In, in_flat_map. split.
    + intros ([keyword sections] & Hk & Hs).
      destruct (includes (toLowerCase text) keyword) eqn:Ei; [|destruct Hs].
      apply includes_chars_spec in Ei as (pre & post & E).
      now exists keyword, sections, pre, post.
    + intros (keyword & sections & pre & post & Hk & Hs & E).
      exists (keyword, sections). split; [exact Hk|].
      replace (includes (toLowerCase text) keyword) with true; [exact Hs|].
      symmetry. apply includes_chars_spec. now exists pre, post.
  - now rewrite toLowerCase_idem.
Qed.

End SectionFacts.

(** ** More on the orchestrator *)

Module HandlerFacts.
Import JSNumber Server Trace ServerFacts.

Lemma readFile_remove_other fs p q :
  String.eqb q p = false -> readFile (remove_file fs p) q = readFile fs q.
Proof.
  intros Hqp. unfold readFile, remove_file.
  induction fs as [|f fs IH]; [reflexivity|]. cbn [filter find].
  destruct (String.eqb (fst f) p) eqn:E; cbn [negb find].
  - apply String.eqb_eq in E. rewrite E, String.eqb_sym, Hqp. exact IH.
  - destruct (String.eqb (fst f) q); [reflexivity|exact IH].
Qed.

Section Handler.
Variable extractText : string -> Result OcrResult.
Variable sha256 : string -> string.
Variable sttClient : option (string -> Result (list STT.Segment)).
Variable tokenize : string -> list string.
Variable python : string -> string -> option ML.PythonOutput.
Variable uploadToIPFS : IPFS.FirData -> Result IPFS.UploadResult.
Variable createFIR : string -> number -> string -> Result BlockchainResult.
Variable setVerification : number -> bool -> Result string.
Variable SIMILARITY_THRESHOLD : option Z.
Variable IPFS_GATEWAY_URL : option string.
Variable now : string.

Ltac run_cases :=
  unfold submitFIR, pipeline, cleanup, catch, bind, await, ret, fs_unlink, unlink;
  cbn [files calls];
  repeat match goal with
         | |- context [match ?x with _ => _ end] =>
             lazymatch x with
             | context [match _ with _ => _ end] => fail
             | _ => destruct x eqn:?; cbn [files calls]
             end
         end.

(** X18. Whatever the collaborators answer, one submission calls them in
    the order of the pipeline and each at most once: text extraction,
    transcription, scoring, publication, [createFIR], [setVerification];
    after the first one that throws nothing is called but the removal of
    the uploads; and only the two uploaded files are ever removed. *)
Theorem submission_follows_the_pipeline_and_stops_at_failure
  (req : Request) (w : World) :
  let w' := snd (submitFIR extractText sha256 sttClient tokenize python
                   uploadToIPFS createFIR setVerification
                   SIMILARITY_THRESHOLD IPFS_GATEWAY_URL now req w) in
  calls w' = calls w ++ issued w w'
  /\ in_pipeline_order 0 (issued w w') = true
  /\ stops_at_failure (issued w w') = true
  /\ (forall p, In p (unlinked (issued w w')) ->
                image req = Some p \/ audio req = Some p).
Proof.
  cbv zeta. run_cases; cbn [snd calls files];
    rewrite <- ?app_assoc; rewrite ?issued_app;
    try (unfold issued; rewrite skipn_all, app_nil_r);
    (split; [reflexivity|]); (split; [reflexivity|]); (split; [reflexivity|]);
    cbn [unlinked flat_map app]; intros p Hp;
    repeat (destruct Hp as [<-|Hp]; [auto|]); destruct Hp.
Qed.

Lemma removed_twice fs i a :
  file_exists (remove_file (remove_file fs i) a) i = false
  /\ file_exists (remove_file (remove_file fs i) a) a = false.
Proof.
  split; [|apply file_exists_remove_same].
  destruct (String.eqb i a) eqn:E.
  - apply String.eqb_eq in E. subst. apply file_exists_remove_same.
  - rewrite file_exists_remove_other by exact E. apply file_exists_remove_same.
Qed.

(** X19. A submission is answered with success only if both uploaded
    files were there, under different paths, and it has removed both: the
    last two calls of the handler are the removals of the image and of the
    audio file, both successful, no file is removed before them, and
    neither path names a file afterwards. *)
Theorem success_means_both_uploads_were_removed
  (req : Request) (w w' : World) (body : SuccessBody) :
  submitFIR extractText sha256 sttClient tokenize python uploadToIPFS
    createFIR setVerification SIMILARITY_THRESHOLD IPFS_GATEWAY_URL now req w
  = (Success body, w') ->
  exists imagePath audioPath before,
    image req = Some imagePath
    /\ audio req = Some audioPath
    /\ imagePath <> audioPath
    /\ file_exists (files w) imagePath = true
    /\ file_exists (files w) audioPath = true
    /\ issued w w'
       = before ++ [Unlink imagePath true; Unlink audioPath true]
    /\ forallb (fun c => negb (is_Unlink c)) before = true
    /\ file_exists (files w') imagePath = false
    /\ file_exists (files w') audioPath = false.
Proof.
  run_cases; intros H; try discriminate; injection H as <- <-;
    cbn [files calls]; rewrite <- ?app_assoc, issued_app;
    match goal with
    | Hi : file_exists (files w) ?i = true,
      Ha : file_exists (remove_file (files w) ?i) ?a = true |- _ =>
        exists i, a;
        first
          [eexists [_; _; _; _; _; _]; split; [reflexivity|];
           split; [reflexivity|];
           split; [|split; [exact Hi
                           |split; [|split; [reflexivity
                                            |split; [reflexivity|]]]]]
          |eexists [_; _; _; _; _]; split; [reflexivity|];
           split; [reflexivity|];
           split; [|split; [exact Hi
                           |split; [|split; [reflexivity
                                            |split; [reflexivity|]]]]]];
        [intros ->; rewrite file_exists_remove_same in Ha; discriminate
        |exact (file_exists_remove _ _ _ Ha)
        |apply removed_twice]
    end.
Qed.

End Handler.
End HandlerFacts.

(** ** The ledger client *)

Module ClientFacts.
Import JSNumber Registry Ledger LedgerFacts.

Section Client.
Variable wallet : address.
Variable govWallet : address.
Variable toUint256 : number -> option Z.
Variable block_time : Z.
Variable tx_hash : string.

Let createFIR := Blockchain.createFIR wallet toUint256 block_time tx_hash.
Let setVerification := Blockchain.setVerification govWallet toUint256 block_time tx_hash.
Let getFIR := Blockchain.getFIR toUint256.
Let getAllFIRs := Blockchain.getAllFIRs toUint256.
Let encodes := Blockchain.encodes toUint256.




Lemma collect_spec (st : State) (n : nat) : forall i,
  consistent st -> encodes (ids_from i n) ->
  i + Z.of_nat n - 1 <= firCounter st ->
  Blockchain.collect toUint256 st i n
  = map (view st) (filter (fun j => 1 <=? j) (ids_from i n)).
Proof.
  induction n as [|n IH]; intros i Hcons Henc Hi; [reflexivity|].
  cbn [Blockchain.collect ids_from filter].
  rewrite IH; [|exact Hcons|intros z Hz; apply Henc; now right|lia].
  unfold Blockchain.getFIR.
  rewrite (Henc i) by now left.
  destruct (Z_lt_ge_dec i 0) as [Hneg|Hnn].
  { replace (i <? 0) with true by (symmetry; apply Z.ltb_lt; lia).
    replace (1 <=? i) with false by (symmetry; apply Z.leb_gt; lia).
    reflexivity. }
  replace (i <? 0) with false by (symmetry; apply Z.ltb_ge; lia).
  cbv [Registry.getFIR bind onlyValidFIR get require ret].
  destruct (Z.eq_dec i 0) as [->|Hne].
  { destruct Hcons as (_ & _ & Hout & _).
    rewrite (Hout 0) by (apply in_range_false; lia). reflexivity. }
  replace (1 <=? i) with true by (symmetry; apply Z.leb_le; lia).
  destruct Hcons as (_ & Hin & _).
  destruct (Hin i) as (He & _); [apply in_range_spec; lia|].
  assert (Ev : view st i
               = {| Blockchain.view_id := i;
                    Blockchain.view_victim := victim (firs st i);
                    Blockchain.view_ipfsCid := ipfsCid (firs st i);
                    Blockchain.view_timestamp := timestamp (firs st i);
                    Blockchain.view_verified := verified (firs st i);
                    Blockchain.view_exists := true;
                    Blockchain.view_similarityScore :=
                      similarityScore (firs st i) |})
    by (unfold view; now rewrite He).
  cbn [map]. rewrite Ev, He. cbn [Blockchain.view_exists].
  rewrite He. reflexivity.
Qed.

Lemma filter_positive_ids (i : Z) (n : nat) :
  0 <= i -> filter (fun j => 1 <=? j) (ids_from (i + 1) n) = ids_from (i + 1) n.
Proof.
  revert i. induction n as [|n IH]; intros i Hi; [reflexivity|].
  cbn [ids_from filter].
  replace (1 <=? i + 1) with true by (symmetry; apply Z.leb_le; lia).
  f_equal. apply (IH (i + 1)). lia.
Qed.

Lemma filter_positive_ids_neg (n : nat) : forall i,
  i <= 0 ->
  filter (fun j => 1 <=? j) (ids_from (i + 1) n)
  = ids_from 1 (Z.to_nat (i + Z.of_nat n)).
Proof.
  induction n as [|n IH]; intros i Hi.
  - cbn [ids_from filter]. replace (Z.to_nat (i + Z.of_nat 0)) with 0%nat by lia.
    reflexivity.
  - destruct (Z.eq_dec i 0) as [->|Hne].
    + rewrite (filter_positive_ids 0) by lia.
      replace (Z.to_nat (0 + Z.of_nat (S n))) with (S n) by lia.
      reflexivity.
    + cbn [ids_from filter].
      replace (1 <=? i + 1) with false by (symmetry; apply Z.leb_gt; lia).
      rewrite (IH (i + 1)) by lia. f_equal. lia.
Qed.

(** X22. [getAllFIRs] of the ledger client returns, for an offset that
    is not negative, the records numbered from [offset + 1] up to
    [offset + limit] or the last record, in that order; for a negative
    offset the turns of the loop spent on the numbers below 1 are lost,
    so that fewer than [limit] records come back; and it returns nothing
    when the limit or the offset is not a number.  The limit, the offset
    and the number of calls are below [2^53], where the arithmetic of the
    loop on numbers is exact. *)
Theorem client_pages_through_the_records (deployer : address)
  (ts : list Transaction) (limit offset : Z) :
  Z.of_nat (List.length ts) < 2 ^ 53 ->
  Z.abs limit < 2 ^ 53 ->
  Z.abs offset < 2 ^ 53 ->
  let st := replay ts (deployed deployer) in
  let turns := Z.min limit (firCounter st - offset) in
  encodes (ids_from (offset + 1) (Z.to_nat turns)) ->
  (0 <= offset ->
   getAllFIRs (Some limit) (Some offset) st
   = (Ok (map (view st) (ids_from (offset + 1) (Z.to_nat turns))), st))
  /\ (offset < 0 ->
      getAllFIRs (Some limit) (Some offset) st
      = (Ok (map (view st) (ids_from 1 (Z.to_nat (offset + turns)))), st))
  /\ getAllFIRs None (Some offset) st = (Ok [], st)
  /\ getAllFIRs (Some limit) None st = (Ok [], st).
Proof.
  intros Hsafe _ _ st turns Henc.
  assert (Hlen : Z.of_nat (List.length ts) <= uint256_max)
    by (unfold uint256_max; lia).
  destruct (consistent_replay ts (deployed deployer)
              (consistent_deployed deployer)) as [Hcons Hc].
  { cbn [deployed firCounter]. lia. }
  fold st in Hcons, Hc. cbn [deployed firCounter] in Hc.
  assert (H0 : 0 <= firCounter st) by apply Hcons.
  unfold getAllFIRs, Blockchain.getAllFIRs, Blockchain.getTotalFIRs.
  cbv [Registry.getTotalFIRs bind get ret]. fold turns.
  split; [|split; [|split; reflexivity]].
  - intros Ho. destruct (firCounter st <=? offset) eqn:E.
    + apply Z.leb_le in E. replace (Z.to_nat turns) with 0%nat
        by (unfold turns; lia). reflexivity.
    + apply Z.leb_gt in E. rewrite collect_spec;
        [|exact Hcons|exact Henc|unfold turns; lia].
      now rewrite filter_positive_ids.
  - intros Ho. replace (firCounter st <=? offset) with false
      by (symmetry; apply Z.leb_gt; lia).
    rewrite collect_spec; [|exact Hcons|exact Henc|unfold turns; lia].
    destruct (Z_le_gt_dec turns 0) as [Ht|Ht].
    + replace (Z.to_nat turns) with 0%nat by lia.
      replace (Z.to_nat (offset + turns)) with 0%nat by lia. reflexivity.
    + rewrite filter_positive_ids_neg by lia.
      now rewrite Z2Nat.id by lia.
Qed.

End Client.
End ClientFacts.

(** ** The request validation *)

Module ValidationFacts.
Import Validation.

Section Middleware.
Variable Body : Type.
Variable validate : Body -> list string + Body.

Variable extractText : string -> Result Server.OcrResult.
Variable sha256 : string -> string.
Variable sttClient : option (string -> Result (list STT.Segment)).
Variable tokenize : string -> list string.
Variable python : string -> string -> option ML.PythonOutput.
Variable uploadToIPFS : IPFS.FirData -> Result IPFS.UploadResult.
Variable createFIR : string -> JSNumber.number -> string -> Result Server.BlockchainResult.
Variable setVerification : JSNumber.number -> bool -> Result string.
Variable SIMILARITY_THRESHOLD : option Z.
Variable IPFS_GATEWAY_URL : option string.
Variable now : string.

(** X23. [validateFIRSubmission] hands a request on exactly when the
    body passes the schema and the first file of each of the two fields
    is there, is no larger than 10 MB and has one of the five media types
    allowed for its field; every other request is answered with status
    400.  The handler behind it therefore never meets a request without
    its two files, and never gives its own answer 400. *)
Theorem validated_request_carries_both_files
  (body : Body) (files : option Files) (victimAddress : string) :
  (forall value,
      validateFIRSubmission Body validate body files = Next value
      <-> validate body = inr value
          /\ exists imageFile audioFile images audios,
               files = Some {| image := Some (imageFile :: images);
                               audio := Some (audioFile :: audios) |}
               /\ size imageFile <= 10485760
               /\ size audioFile <= 10485760
               /\ In (mimetype imageFile) allowedImageTypes
               /\ In (mimetype audioFile) allowedAudioTypes)
  /\ (forall status error details,
         validateFIRSubmission Body validate body files
         = Respond status error details -> status = 400)
  /\ (forall value w,
         validateFIRSubmission Body validate body files = Next value ->
         forall error,
         fst (Server.submitFIR extractText sha256 sttClient tokenize python
                uploadToIPFS createFIR setVerification
                SIMILARITY_THRESHOLD IPFS_GATEWAY_URL now
                (handler_request victimAddress files) w)
         <> Server.Failure 400 error).
Proof.
  assert (Hin : forall l x, includes l x = true <-> In x l).
  { intros l x. unfold includes. rewrite existsb_exists. split.
    - intros (y & Hy & E). apply String.eqb_eq in E. now subst.
    - intros H. exists x. split; [exact H|apply String.eqb_refl]. }
  assert (Hnext : forall value,
             validateFIRSubmission Body validate body files = Next value ->
             validate body = inr value
             /\ exists imageFile audioFile images audios,
                  files = Some {| image := Some (imageFile :: images);
                                  audio := Some (audioFile :: audios) |}
                  /\ size imageFile <= 10485760
                  /\ size audioFile <= 10485760
                  /\ In (mimetype imageFile) allowedImageTypes
                  /\ In (mimetype audioFile) allowedAudioTypes).
  { intros value. unfold validateFIRSubmission.
    destruct (validate body) as [d|v]; [discriminate|].
    destruct files as [[[[|i images]|] [[|a audios]|]]|]; cbn [first];
      try discriminate.
    change maxSize with 10485760.
    destruct (10485760 <? size i) eqn:E1; [discriminate|].
    destruct (10485760 <? size a) eqn:E2; [discriminate|].
    destruct (includes allowedImageTypes (mimetype i)) eqn:E3; [|discriminate].
    destruct (includes allowedAudioTypes (mimetype a)) eqn:E4; [|discriminate].
    cbn [negb]. intros H. injection H as ->. split; [reflexivity|].
    exists i, a, images, audios.
    apply Z.ltb_ge in E1, E2. apply Hin in E3, E4. auto. }
  split; [|split].
  - intros value. split; [apply Hnext|].
    intros (Hv & i & a & images & audios & -> & H1 & H2 & H3 & H4).
    unfold validateFIRSubmission. rewrite Hv. cbn [first].
    change maxSize with 10485760.
    replace (10485760 <? size i) with false by (symmetry; apply Z.ltb_ge; lia).
    replace (10485760 <? size a) with false by (symmetry; apply Z.ltb_ge; lia).
    apply Hin in H3, H4. now rewrite H3, H4.
  - intros status error details. unfold validateFIRSubmission.
    destruct (validate body) as [d|v]; [now intros [= <- _ _]|].
    destruct files as [[[[|i images]|] [[|a audios]|]]|]; cbn [first];
      try (now intros [= <- _ _]).
    destruct (maxSize <? size i); [now intros [= <- _ _]|].
    destruct (maxSize <? size a); [now intros [= <- _ _]|].
    destruct (negb (includes allowedImageTypes (mimetype i)));
      [now intros [= <- _ _]|].
    destruct (negb (includes allowedAudioTypes (mimetype a)));
      [now intros [= <- _ _]|discriminate].
  - intros value w Hv error.
    destruct (Hnext value Hv) as (_ & i & a & images & audios & -> & _).
    unfold Server.submitFIR, handler_request.
    cbn [Server.image Server.audio first_path image audio first option_map].
    destruct (Server.pipeline _ _ _ _ _ _ _ _ _ _ _ _ _ _ w) as [[body'|e] w'].
    + cbn [fst]. discriminate.
    + destruct (Server.cleanup _ _ w') as [r w'']. cbn [fst].
      intros H. injection H as H _. lia.
Qed.

End Middleware.
End ValidationFacts.

(** ** The score of the local ensemble is a percentage *)

Module RangeFacts.
Import JSNumber Text ML Spec Sign MLFacts FloatFacts ScoreFacts.

(** *** Rounding keeps the sign *)

Lemma iter_pos_invariant {A} (P : A -> Prop) (f : A -> A) :
  (forall x, P x -> P (f x)) ->
  forall n x, P x -> P (SpecFloat.iter_pos f n x).
Proof.
  intros Hf. induction n as [n IH|n IH|]; intros x Hx; cbn [SpecFloat.iter_pos];
    auto.
Qed.

Lemma shr_1_nonneg r : 0 <= shr_m r -> 0 <= shr_m (shr_1 r).
Proof. intros H. rewrite shr_1_m by exact H. apply Z.div_pos; lia. Qed.

Lemma shr_fexp_shape m e l :
  0 <= m ->
  0 <= shr_m (fst (shr_fexp prec emax m e l))
  /\ e <= snd (shr_fexp prec emax m e l)
  /\ Zdigits2 m + e - 53 <= snd (shr_fexp prec emax m e l).
Proof.
  intros Hm. unfold shr_fexp, shr.
  assert (H0 : 0 <= shr_m (shr_record_of_loc m l))
    by (destruct l as [|[]]; exact Hm).
  assert (Hf : Zdigits2 m + e - 53 <= fexp prec emax (Zdigits2 m + e))
    by (unfold fexp, prec; lia).
  destruct (fexp prec emax (Zdigits2 m + e) - e) as [|p|p] eqn:En;
    cbn [fst snd].
  - split; [exact H0|]. lia.
  - split; [|lia]. now apply (iter_pos_invariant _ shr_1 shr_1_nonneg).
  - split; [exact H0|]. lia.
Qed.

Lemma round_nearest_even_nonneg m l : 0 <= m -> 0 <= round_nearest_even m l.
Proof.
  intros H. destruct l as [|[]]; cbn [round_nearest_even]; try lia.
  destruct (Z.even m); lia.
Qed.

Lemma binary_round_aux_shape s m e l :
  0 <= m -> rounded s (Zdigits2 m + e - 53) (binary_round_aux prec emax s m e l).
Proof.
  intros Hm. unfold binary_round_aux.
  pose proof (shr_fexp_shape m e l Hm) as (A1 & A2 & A3).
  destruct (shr_fexp prec emax m e l) as [mrs' e']. cbn [fst snd] in A1, A2, A3.
  pose proof (shr_fexp_shape
                (round_nearest_even (shr_m mrs') (loc_of_shr_record mrs'))
                e' loc_Exact (round_nearest_even_nonneg _ _ A1)) as (B1 & B2 & _).
  destruct (shr_fexp prec emax _ e' loc_Exact) as [mrs'' e''].
  cbn [fst snd] in B1, B2.
  destruct (shr_m mrs'') as [|p|p]; cbn [rounded]; try lia; try reflexivity.
  destruct (e'' <=? emax - prec); cbn [rounded]; [split; [reflexivity|lia]|reflexivity].
Qed.

Lemma digits_iter_xO p d :
  Zdigits2 (Zpos (Pos.iter xO p d)) = Zdigits2 (Zpos p) + Zpos d.
Proof.
  pose proof (Zdigits2_bounds p) as [Blo Bhi].
  set (dg := Zdigits2 (Zpos p)) in *.
  assert (Hdg : 1 <= dg) by (unfold dg; cbn; lia).
  apply Zdigits2_unique; [|lia].
  rewrite iter_xO_pow.
  replace (dg + Zpos d - 1) with ((dg - 1) + Zpos d) by lia.
  rewrite !Z.pow_add_r by lia.
  assert (0 < 2 ^ Zpos d) by (apply Z.pow_pos_nonneg; lia).
  split.
  - apply Z.mul_le_mono_nonneg_r; lia.
  - apply Z.mul_lt_mono_pos_r; lia.
Qed.

Lemma binary_round_shape s p e :
  rounded s (Zdigits2 (Zpos p) + e - 53) (binary_round prec emax s p e).
Proof.
  unfold binary_round, shl_align.
  change (Zpos (digits2_pos p)) with (Zdigits2 (Zpos p)).
  destruct (fexp prec emax (Zdigits2 (Zpos p) + e) - e) as [|d|d] eqn:Ed.
  - apply binary_round_aux_shape. lia.
  - apply binary_round_aux_shape. lia.
  - pose proof (binary_round_aux_shape s (Zpos (Pos.iter xO p d))
                  (fexp prec emax (Zdigits2 (Zpos p) + e)) loc_Exact
                  ltac:(lia)) as H.
    rewrite digits_iter_xO in H.
    replace (Zdigits2 (Zpos p) + Zpos d
             + fexp prec emax (Zdigits2 (Zpos p) + e) - 53)
      with (Zdigits2 (Zpos p) + e - 53) in H by lia.
    exact H.
Qed.

Lemma rounded_nonneg low x : rounded false low x -> is_nonneg x = true.
Proof.
  destruct x as [s|s| |s m e]; cbn [rounded is_nonneg]; try tauto.
  - now intros ->.
  - now intros [-> _].
Qed.

Lemma of_Z_shape z :
  1 <= z -> rounded false (Zdigits2 z - 53) (of_Z z).
Proof.
  intros Hz. destruct z as [|p|p]; try lia.
  unfold of_Z, binary_normalize.
  replace (Zdigits2 (Zpos p) - 53) with (Zdigits2 (Zpos p) + 0 - 53) by lia.
  apply binary_round_shape.
Qed.

Lemma of_Z_nonneg z : 0 <= z -> is_nonneg (of_Z z) = true.
Proof.
  intros Hz. destruct (Z.eq_dec z 0) as [->|Hne]; [reflexivity|].
  eapply rounded_nonneg, of_Z_shape. lia.
Qed.

Lemma mul_nonneg x my ey :
  is_nonneg x = true -> is_nonneg (mul x (S754_finite false my ey)) = true.
Proof.
  destruct x as [s|[]| |[] m e]; cbn [is_nonneg]; try discriminate; intros _.
  - reflexivity.
  - reflexivity.
  - unfold mul, SFmul. cbn [xorb].
    eapply rounded_nonneg, binary_round_aux_shape. lia.
Qed.

Lemma add_nonneg x y :
  is_nonneg x = true -> is_nonneg y = true -> is_nonneg (add x y) = true.
Proof.
  destruct x as [sx|[]| |[] mx ex], y as [sy|[]| |[] my ey];
    cbn [is_nonneg]; try discriminate; intros _ _; try reflexivity.
  - now destruct sx, sy.
  - unfold add, SFadd. cbn [cond_Zopp Z.add binary_normalize].
    eapply rounded_nonneg, binary_round_shape.
Qed.

(** *** The clamp *)

Lemma clamp_high_exponent m e :
  -45 <= e -> clamp (S754_finite false m e) = of_Z 100.
Proof.
  intros He. unfold clamp, Math_max, Math_min.
  change (of_Z 0) with (S754_zero false).
  change (of_Z 100) with (S754_finite false 7036874417766400 (-46)).
  cbn [SFcompare].
  destruct (Z.compare_spec (-46) e) as [H|H|H]; try lia. reflexivity.
Qed.

Lemma clamp_small z :
  1 <= z <= 127 -> clamp (of_Z z) = of_Z (Z.min z 100).
Proof.
  intros Hz. apply same_number_eq.
  assert (Hall : forallb
                   (fun k => same_number (clamp (of_Z (Z.of_nat k)))
                               (of_Z (Z.min (Z.of_nat k) 100)))
                   (seq 1 127) = true) by (vm_compute; reflexivity).
  rewrite forallb_forall in Hall.
  specialize (Hall (Z.to_nat z)). rewrite Z2Nat.id in Hall by lia.
  apply Hall, in_seq. lia.
Qed.

Lemma digits_large z : 128 <= z -> 8 <= Zdigits2 z.
Proof.
  intros Hz. destruct z as [|p|p]; try lia.
  pose proof (Zdigits2_bounds p) as [_ Bhi].
  destruct (Z_lt_le_dec (Zdigits2 (Zpos p)) 8) as [Hlt|]; [|lia].
  assert (2 ^ Zdigits2 (Zpos p) <= 2 ^ 7).
  { apply Z.pow_le_mono_r; lia. }
  change (2 ^ 7) with 128 in *. lia.
Qed.

Lemma clamp_of_Z z :
  0 <= z -> exists p, 0 <= p <= 100 /\ clamp (of_Z z) = of_Z p.
Proof.
  intros Hz.
  destruct (Z.eq_dec z 0) as [->|Hne].
  { exists 0. split; [lia|reflexivity]. }
  destruct (Z_le_gt_dec z 127) as [Hs|Hl].
  { exists (Z.min z 100). split; [lia|]. apply clamp_small. lia. }
  pose proof (of_Z_shape z ltac:(lia)) as H.
  pose proof (digits_large z ltac:(lia)) as Hd.
  destruct (of_Z z) as [s|s| |s m e]; cbn [rounded] in H.
  - subst s. exists 0. split; [lia|reflexivity].
  - subst s. exists 100. split; [lia|reflexivity].
  - destruct H.
  - destruct H as [-> He]. exists 100. split; [lia|].
    apply clamp_high_exponent. lia.
Qed.

(** The clamped rounding of a number that is neither negative nor NaN
    is an integer between 0 and 100. *)
Lemma clamp_round x :
  is_nonneg x = true ->
  exists p, 0 <= p <= 100 /\ clamp (Math_round x) = of_Z p.
Proof.
  destruct x as [s|[]| |[] m e]; cbn [is_nonneg]; try discriminate; intros _.
  - exists 0. split; [lia|]. now destruct s.
  - exists 100. split; [lia|reflexivity].
  - cbn [Math_round]. destruct (0 <=? e) eqn:E.
    + apply Z.leb_le in E. exists 100. split; [lia|].
      apply clamp_high_exponent. lia.
    + apply Z.leb_gt in E. cbv zeta.
      set (r := (2 * Zpos m + 2 ^ (- e)) / 2 ^ (- e + 1)).
      assert (Hr : 0 <= r).
      { unfold r. apply Z.div_pos.
        - assert (0 < 2 ^ (- e)) by (apply Z.pow_pos_nonneg; lia). lia.
        - apply Z.pow_pos_nonneg; lia. }
      destruct (r =? 0) eqn:Er.
      * exists 0. split; [lia|reflexivity].
      * now apply clamp_of_Z.
Qed.

(** *** The three metrics *)

Section Ensemble.
Variable tokenize : string -> list string.

Lemma jaccard_nonneg w1 w2 :
  w1 <> [] \/ w2 <> [] -> size w1 < 2 ^ 32 -> size w2 < 2 ^ 32 ->
  is_nonneg (calculateJaccardSimilarity w1 w2) = true.
Proof.
  intros Hne H1 H2. unfold calculateJaccardSimilarity. cbv zeta.
  set (i := size (Set_of (filter (Set_has (Set_of w2)) (Set_of w1)))).
  set (u := size (Set_of (Set_of w1 ++ Set_of w2))).
  assert (Hu : 1 <= u < 2 ^ 33).
  { unfold u. split.
    - apply size_Set_of_pos. intros Happ. apply app_eq_nil in Happ as [Ha Hb].
      rewrite Set_of_nil_iff in Ha, Hb. tauto.
    - pose proof (size_Set_of_le (Set_of w1 ++ Set_of w2)) as H.
      rewrite size_app in H.
      pose proof (size_Set_of_le w1). pose proof (size_Set_of_le w2). lia. }
  assert (Hi : 0 <= i < 2 ^ 33).
  { unfold i. split; [apply size_nonneg|].
    pose proof (size_Set_of_le (filter (Set_has (Set_of w2)) (Set_of w1))) as A.
    assert (B : size (filter (Set_has (Set_of w2)) (Set_of w1)) <= size (Set_of w1)).
    { unfold size. apply inj_le, filter_length_le. }
    pose proof (size_Set_of_le w1). lia. }
  destruct (of_Z_normal u 33 Hu ltac:(lia)) as (mu & eu & -> & Hmu & Heu).
  destruct (Z.eq_dec i 0) as [->|Hnz]; [reflexivity|].
  destruct (of_Z_normal i 33 ltac:(lia) ltac:(lia)) as (mi & ei & -> & Hmi & Hei).
  destruct (div_normal mi ei mu eu Hmi Hmu ltac:(lia)) as (m & e & -> & _).
  reflexivity.
Qed.

Lemma magnitude_cases words L :
  size words < 2 ^ 32 -> size L < 2 ^ 33 ->
  sqrt (of_Z (sumZ (map (fun w => occurrences words w * occurrences words w) L)))
  = of_Z 0
  \/ exists m e,
      sqrt (of_Z (sumZ (map (fun w => occurrences words w * occurrences words w) L)))
      = S754_finite false m e
      /\ 2 ^ 52 <= Zpos m < 2 ^ 53 /\ -52 <= e <= 50.
Proof.
  intros Hw HL.
  set (d := sumZ (map (fun w => occurrences words w * occurrences words w) L)).
  pose proof (size_nonneg words) as Hw0.
  pose proof (size_nonneg L) as HL0.
  destruct (sumZ_bounds (fun w => occurrences words w * occurrences words w)
              L 0 (size words * size words)) as [Hlo Hhi].
  { intros w _. pose proof (occurrences_bounds words w) as [Ho1 Ho2].
    split; [nia|]. apply Z.mul_le_mono_nonneg; lia. }
  fold d in Hlo, Hhi.
  destruct (Z.eq_dec d 0) as [->|Hnz]; [left; reflexivity|right].
  assert (Hd1 : 1 <= d < 2 ^ 100).
  { split; [lia|].
    assert (size words * size words <= (2 ^ 32 - 1) * (2 ^ 32 - 1))
      by (apply Z.mul_le_mono_nonneg; lia).
    assert (size words * size words * size L
            <= (2 ^ 32 - 1) * (2 ^ 32 - 1) * (2 ^ 33 - 1))
      by (apply Z.mul_le_mono_nonneg; try lia;
          try (apply Z.mul_nonneg_nonneg; lia)).
    eapply Z.le_lt_trans; [exact Hhi|].
    eapply Z.le_lt_trans; [eassumption|]. reflexivity. }
  destruct (of_Z_normal d 100 Hd1 ltac:(lia)) as (m & e & Hz & Hm & He).
  rewrite Hz.
  destruct (sqrt_normal m e Hm ltac:(lia)) as (ms & es & Hs & Hms & Hes & _).
  exists ms, es. split; [exact Hs|]. split; [exact Hms|].
  Z.div_mod_to_equations. lia.
Qed.

Lemma cosine_nonneg w1 w2 :
  size w1 < 2 ^ 32 -> size w2 < 2 ^ 32 ->
  is_nonneg (calculateCosineSimilarity w1 w2) = true.
Proof.
  intros H1 H2. rewrite cosine_unfold. cbv zeta.
  set (L := Set_of (w1 ++ w2)).
  assert (HL : size L < 2 ^ 33).
  { unfold L. pose proof (size_Set_of_le (w1 ++ w2)) as H.
    rewrite size_app in H. lia. }
  pose proof (size_nonneg L) as HL0.
  pose proof (size_nonneg w1) as Hw1. pose proof (size_nonneg w2) as Hw2.
  destruct (magnitude_cases w1 L H1 HL) as [E1 | (m1 & e1 & E1 & Hm1 & He1)];
    rewrite E1; [reflexivity|].
  destruct (magnitude_cases w2 L H2 HL) as [E2 | (m2 & e2 & E2 & Hm2 & He2)];
    rewrite E2; [reflexivity|].
  rewrite !strict_eq_normal_zero. cbn [orb].
  destruct (mul_normal m1 e1 m2 e2 Hm1 Hm2 ltac:(lia))
    as (m & e & -> & Hm & He & _).
  set (dot := sumZ (map (fun w => occurrences w1 w * occurrences w2 w) L)).
  destruct (sumZ_bounds (fun w => occurrences w1 w * occurrences w2 w)
              L 0 (size w1 * size w2)) as [Hlo Hhi].
  { intros w _. pose proof (occurrences_bounds w1 w) as [A1 A2].
    pose proof (occurrences_bounds w2 w) as [B1 B2].
    split; [nia|]. apply Z.mul_le_mono_nonneg; lia. }
  fold dot in Hlo, Hhi.
  destruct (Z.eq_dec dot 0) as [->|Hnz]; [reflexivity|].
  assert (Hd : 1 <= dot < 2 ^ 100).
  { split; [lia|].
    assert (size w1 * size w2 <= (2 ^ 32 - 1) * (2 ^ 32 - 1))
      by (apply Z.mul_le_mono_nonneg; lia).
    assert (size w1 * size w2 * size L
            <= (2 ^ 32 - 1) * (2 ^ 32 - 1) * (2 ^ 33 - 1))
      by (apply Z.mul_le_mono_nonneg; try lia;
          try (apply Z.mul_nonneg_nonneg; lia)).
    eapply Z.le_lt_trans; [exact Hhi|].
    eapply Z.le_lt_trans; [eassumption|]. reflexivity. }
  destruct (of_Z_normal dot 100 Hd ltac:(lia)) as (md & ed & -> & Hmd & Hed).
  destruct (div_normal md ed m e Hmd Hm ltac:(lia)) as (mq & eq & -> & _).
  reflexivity.
Qed.

Lemma distance_term_nonneg lev :
  0 <= lev ->
  is_nonneg (mul (div (of_Z (Z.max 0 (100 - lev))) (of_Z 100)) (of_Z 20)) = true.
Proof.
  intros Hlev. set (t := Z.max 0 (100 - lev)).
  assert (Hall : forallb
                   (fun k => is_nonneg
                               (mul (div (of_Z (Z.of_nat k)) (of_Z 100)) (of_Z 20)))
                   (seq 0 101) = true) by (vm_compute; reflexivity).
  rewrite forallb_forall in Hall.
  specialize (Hall (Z.to_nat t)). rewrite Z2Nat.id in Hall by (unfold t; lia).
  apply Hall, in_seq. unfold t. lia.
Qed.

Lemma to_Z_of_Z_small p : 0 <= p <= 100 -> to_Z (of_Z p) = Some p.
Proof.
  intros Hp.
  assert (Hall : forallb
                   (fun k => match to_Z (of_Z (Z.of_nat k)) with
                             | Some z => z =? Z.of_nat k
                             | None => false
                             end)
                   (seq 0 101) = true) by (vm_compute; reflexivity).
  rewrite forallb_forall in Hall.
  specialize (Hall (Z.to_nat p)). rewrite Z2Nat.id in Hall by lia.
  destruct (to_Z (of_Z p)) as [z|].
  - f_equal. apply Z.eqb_eq, Hall, in_seq. lia.
  - discriminate Hall. apply in_seq. lia.
Qed.

(** X28. The cosine metric is never NaN and never negative: it is 0
    when either word list is empty, through the guard on the magnitudes,
    and a quotient of a non-negative number by a positive one otherwise. *)
Theorem cosine_is_never_NaN (w1 w2 : list string) :
  size w1 < 2 ^ 32 -> size w2 < 2 ^ 32 ->
  is_nonneg (calculateCosineSimilarity w1 w2) = true
  /\ calculateCosineSimilarity w1 w2 <> NaN
  /\ (w1 = [] \/ w2 = [] -> calculateCosineSimilarity w1 w2 = of_Z 0).
Proof.
  intros H1 H2. pose proof (cosine_nonneg w1 w2 H1 H2) as Hn.
  split; [exact Hn|]. split.
  - intros E. rewrite E in Hn. discriminate.
  - intros Hempty. rewrite cosine_unfold. cbv zeta.
    set (L := Set_of (w1 ++ w2)).
    assert (Hz : forall words, words = [] ->
               sumZ (map (fun w => occurrences words w * occurrences words w) L) = 0).
    { intros words ->. induction L as [|x L IH]; [reflexivity|].
      cbn [map]. unfold sumZ in *. cbn [fold_right]. rewrite IH. reflexivity. }
    destruct Hempty as [E|E].
    + rewrite (Hz w1 E). reflexivity.
    + rewrite (Hz w2 E).
      change (strict_eq (sqrt (of_Z 0)) (of_Z 0)) with true.
      now rewrite orb_true_r.
Qed.

(** X24. Whenever at least one of the two texts keeps a word after
    stop-word removal, the score of the local ensemble is an integer
    between 0 and 100: none of the three metrics is NaN or negative, so
    the rounding and the clamp apply. *)
Theorem fallback_score_is_a_percentage (a b : string) :
  surviving_words tokenize a <> [] \/ surviving_words tokenize b <> [] ->
  size (surviving_words tokenize a) < 2 ^ 32 ->
  size (surviving_words tokenize b) < 2 ^ 32 ->
  exists p,
    0 <= p <= 100
    /\ score (calculateSimilarityFallback tokenize a b) = of_Z p
    /\ to_Z (score (calculateSimilarityFallback tokenize a b)) = Some p.
Proof.
  intros Hne H1 H2.
  unfold calculateSimilarityFallback. cbv zeta. cbn [score].
  fold (surviving_words tokenize a). fold (surviving_words tokenize b).
  set (w1 := surviving_words tokenize a) in *.
  set (w2 := surviving_words tokenize b) in *.
  assert (Hj := jaccard_nonneg w1 w2 Hne H1 H2).
  assert (Hc := cosine_nonneg w1 w2 H1 H2).
  assert (Hlev : 0 <= calculateLevenshteinDistance a b).
  { rewrite calculateLevenshteinDistance_spec. apply DistanceFacts.lev_dist_nonneg. }
  assert (Ht := distance_term_nonneg _ Hlev).
  assert (Hsum : is_nonneg (ML.combined (calculateJaccardSimilarity w1 w2)
                              (calculateCosineSimilarity w1 w2)
                              (calculateLevenshteinDistance a b)) = true).
  { unfold ML.combined.
    change (of_Z 40) with (S754_finite false 5629499534213120 (-47)).
    apply add_nonneg; [apply add_nonneg; now apply mul_nonneg|exact Ht]. }
  destruct (clamp_round _ Hsum) as (p & Hp & E).
  exists p. split; [exact Hp|]. unfold clamp in E. rewrite E.
  split; [reflexivity|now apply to_Z_of_Z_small].
Qed.

End Ensemble.
End RangeFacts.

(** ** The transcriber at the edges *)

Module TranscriberFacts.
Import JSNumber Text STT.

Section Service.
Variable sha256 : string -> string.

Lemma results_without_alternative (results : list Segment)
  (acc : string * number * Z) :
  Forall (fun r => r = None) results ->
  fold_left
    (fun '(t, c, n) (r : Segment) =>
       match r with
       | Some (transcript, conf) =>
           ((t ++ transcript ++ " ")%string, add c (or_zero conf), n + 1)
       | None => (t, c, n)
       end)
    results acc = acc.
Proof.
  intros H. induction H as [|r results Hr _ IH]; [reflexivity|].
  cbn [fold_left]. subst r. destruct acc as [[t c] n]. exact IH.
Qed.

(** X25. The transcription at its edges.  When the audio file cannot be
    read, the cloud transcription fails, while the placeholder
    transcription still succeeds, with an empty audio hash.  A recognition
    that returns no result at all is an error.  A recognition whose
    results all lack an alternative succeeds with the empty text and a
    confidence of 0: the average is not taken over zero results. *)
Theorem transcription_at_the_edges
  (recognize : string -> Result (list Segment))
  (fs : FileSystem) (audioPath : string) :
  (forall e, readFile fs audioPath = Err e ->
             transcribeAudio sha256 (Some recognize) fs audioPath = Err e
             /\ exists r, transcribeAudio sha256 None fs audioPath = Ok r
                          /\ audioHash r = EmptyString
                          /\ provider r = "fallback"%string)
  /\ (forall content,
         readFile fs audioPath = Ok content ->
         recognize content = Ok [] ->
         transcribeAudio sha256 (Some recognize) fs audioPath
         = Err "No transcription results received")
  /\ (forall content results,
         readFile fs audioPath = Ok content ->
         recognize content = Ok results ->
         results <> [] ->
         Forall (fun r => r = None) results ->
         transcribeAudio sha256 (Some recognize) fs audioPath
         = Ok {| text := EmptyString;
                 confidence := of_Z 0;
                 audioHash := sha256 content;
                 provider := "google-cloud";
                 note := None |}).
Proof.
  split; [|split].
  - intros e He. cbn [transcribeAudio]. unfold transcribeWithGoogleCloud.
    rewrite He. split; [reflexivity|].
    unfold transcribeWithFallback, calculateAudioHash. rewrite He.
    eexists. split; [reflexivity|]. split; reflexivity.
  - intros content Hc Hr. cbn [transcribeAudio].
    unfold transcribeWithGoogleCloud. now rewrite Hc, Hr.
  - intros content results Hc Hr Hne Hall. cbn [transcribeAudio].
    unfold transcribeWithGoogleCloud, calculateAudioHash. rewrite Hc, Hr.
    destruct results as [|r results]; [congruence|].
    rewrite (results_without_alternative (r :: results) _ Hall).
    reflexivity.
Qed.

End Service.
End TranscriberFacts.

(** ** More concrete runs *)

Module MoreExamples.
Import JSNumber Text ML Registry Ledger.

Ltac computed := vm_compute; first [reflexivity | discriminate | tauto].

(** *** The ledger *)

Lemma created_record_witness :
  exists st',
    transact (createFIR Demo.victim "QmNew" 75) Demo.registry = (Ok 1, st')
    /\ getFIR 1 st'
       = Ok ({| id := 1; victim := "victim"%string; ipfsCid := "QmNew"%string;
                timestamp := 20; verified := true; exists_ := true;
                similarityScore := 75 |}, st').
Proof.
  destruct (LedgerFacts.created_record_is_read_back Demo.victim "QmNew" 75
              Demo.registry eq_refl ltac:(discriminate) ltac:(lia))
    as (st' & H1 & H2 & _).
  exists st'. split; [exact H1|exact H2].
Defined.


Lemma replayed_records_witness :
  0 <= firCounter Demo.role_chain <= 14
  /\ (exists f, getFIR 2 Demo.role_chain = Ok (f, Demo.role_chain)
                /\ id f = 2)
  /\ getFIR 3 Demo.role_chain = Err "FIR does not exist"%string.
Proof.
  unfold Demo.role_chain.
  destruct (LedgerFacts.replayed_records_are_numbered_from_one "gov"%string
              Demo.role_history ltac:(computed)) as (H1 & H2 & H3).
  split; [exact H1|]. split.
  - destruct (H2 2 ltac:(vm_compute; split; discriminate))
      as (f & Hf & _ & Hid & _).
    exists f. split; [exact Hf|exact Hid].
  - refine (proj2 (H3 3 _)). vm_compute. intros [_ H]. now apply H.
Defined.

Lemma victim_list_witness :
  getVictimFIRs "victim"%string Demo.role_chain = Ok ([1; 2], Demo.role_chain).
Proof.
  unfold Demo.role_chain.
  destruct (LedgerFacts.victim_list_names_the_records_of_the_victim
              "gov"%string Demo.role_history "victim"%string ltac:(computed))
    as [H _].
  rewrite H.
  match goal with
  | |- Ok (?l, _) = _ =>
      assert (E : l = [1; 2]) by (vm_compute; reflexivity); rewrite E
  end.
  reflexivity.
Defined.

Lemma verification_witness :
  exists st' f,
    transact (setVerification Demo.gov 2 true) Demo.chain = (Ok tt, st')
    /\ getFIR 2 st' = Ok (f, st')
    /\ verified f = true.
Proof.
  destruct (LedgerFacts.verification_is_read_back Demo.gov 2 true Demo.chain
              eq_refl eq_refl) as (st' & f & H1 & H2 & H3 & _).
  exists st', f. auto.
Defined.

Lemma evidence_witness :
  exists_ (firs Demo.role_chain 1) = true
  /\ ipfsCid (firs Demo.role_chain 1) = "QmA"%string.
Proof.
  assert (Hsplit : Demo.role_history
                   = firstn 2 Demo.role_history ++ skipn 2 Demo.role_history)
    by (symmetry; apply firstn_skipn).
  unfold Demo.role_chain. rewrite Hsplit.
  destruct (LedgerFacts.evidence_is_never_rewritten "gov"%string
              (firstn 2 Demo.role_history) (skipn 2 Demo.role_history) 1
              ltac:(computed) ltac:(vm_compute; reflexivity)) as [He H].
  split; [exact He|].
  apply (f_equal (fun e => snd (fst (fst e)))) in H.
  cbn [evidence fst snd] in H. rewrite H. vm_compute. reflexivity.
Defined.

Lemma government_witness :
  exists msg,
    SetVerification Demo.officer 2 true = SetVerification msg 2 true
    /\ roles Demo.role_chain GOV_ROLE (sender msg) = true.
Proof.
  unfold Demo.role_chain.
  apply (LedgerFacts.only_government_changes_the_verified_flag "gov"%string
           Demo.role_history (SetVerification Demo.officer 2 true) 2);
    computed.
Defined.

Lemma status_page_witness :
  getFIRsByStatus false 0 0 Demo.chain = Err "Invalid limit"%string
  /\ getFIRsByStatus false 10 0 Demo.chain
     = Ok ([firs Demo.chain 2], Demo.chain)
  /\ getFIRsByStatus true 10 1 Demo.chain = Ok ([], Demo.chain).
Proof.
  split; [|split].
  - apply (LedgerFacts.status_page_is_a_slice_of_the_matching_records
             "gov"%string Demo.history false 0 0 ltac:(computed)).
    lia.
  - apply (LedgerFacts.status_page_is_a_slice_of_the_matching_records
             "gov"%string Demo.history false 10 0 ltac:(computed)); lia.
  - apply (LedgerFacts.status_page_is_a_slice_of_the_matching_records
             "gov"%string Demo.history true 10 1 ltac:(computed)); lia.
Defined.

Lemma consecutive_pages_witness :
  exists p1 p2,
    getFIRsByStatus true 1 0 Demo.chain = Ok (p1, Demo.chain)
    /\ getFIRsByStatus true 2 1 Demo.chain = Ok (p2, Demo.chain)
    /\ getFIRsByStatus true 3 0 Demo.chain = Ok (p1 ++ p2, Demo.chain).
Proof.
  apply (LedgerFacts.consecutive_status_pages_concatenate "gov"%string
           Demo.history true 1 2 0); computed.
Defined.

Lemma verification_after_creation_witness :
  exists newId st1 st2,
    transact (createFIR Demo.victim "QmNew" 80) Demo.registry = (Ok newId, st1)
    /\ transact (setVerification Demo.gov newId true) st1 = (Ok tt, st2)
    /\ verified (firs st1 newId) = true.
Proof.
  destruct (LedgerFacts.verification_after_creation Demo.victim Demo.gov
              "QmNew" 80 Demo.registry eq_refl eq_refl
              ltac:(discriminate) ltac:(lia))
    as (newId & st1 & st2 & H1 & H2 & H3 & _).
  exists newId, st1, st2. auto.
Defined.

Lemma log_witness :
  created_ids (events Demo.role_chain) = [1; 2].
Proof.
  unfold Demo.role_chain.
  rewrite (LedgerFacts.log_announces_every_record_once "gov"%string
             Demo.role_history ltac:(computed)).
  vm_compute. reflexivity.
Defined.

(** *** The scorer *)

Example distance_examples :
  calculateLevenshteinDistance "kitten" "sitting" = 3
  /\ calculateLevenshteinDistance "" "market" = 6.
Proof. split; reflexivity. Qed.

Lemma jaccard_sets_witness :
  calculateJaccardSimilarity ["theft"; "market"; "theft"]%string ["market"]%string
  = calculateJaccardSimilarity ["market"; "theft"]%string
      ["market"; "market"]%string.
Proof.
  apply VocabularyFacts.jaccard_depends_only_on_the_word_sets;
    intros x; cbn [In]; tauto.
Defined.

Lemma jaccard_one_witness :
  calculateJaccardSimilarity ["theft"; "market"; "theft"]%string
    ["market"; "theft"]%string = of_Z 1.
Proof.
  apply VocabularyFacts.jaccard_of_equal_word_sets_is_one.
  - discriminate.
  - computed.
  - intros x. cbn [In]. tauto.
Defined.

Lemma cosine_witness :
  Sign.is_nonneg
    (calculateCosineSimilarity ["theft"; "bike"]%string ["bike"]%string) = true
  /\ calculateCosineSimilarity ["theft"; "bike"]%string ["bike"]%string <> NaN.
Proof.
  pose proof (RangeFacts.cosine_is_never_NaN ["theft"; "bike"]%string
                ["bike"]%string ltac:(computed) ltac:(computed))
    as (H1 & H2 & _).
  split; assumption.
Defined.

Lemma percentage_witness :
  exists p,
    0 <= p <= 100
    /\ score (calculateSimilarityFallback WordTokenizer
                "theft of motorcycle" "stolen bike") = of_Z p
    /\ to_Z (score (calculateSimilarityFallback WordTokenizer
                      "theft of motorcycle" "stolen bike")) = Some p.
Proof.
  apply (RangeFacts.fallback_score_is_a_percentage WordTokenizer
           "theft of motorcycle" "stolen bike").
  - left. computed.
  - computed.
  - computed.
Defined.

Example sections_example :
  predictWithFallback "Theft and CHEATING, then fraud"
  = ["380"; "381"; "382"; "415"; "416"; "417"; "418"; "419"; "420"; "421";
     "422"; "423"; "424"]%string.
Proof. reflexivity. Qed.

(** *** The orchestrator and the ledger client *)

Lemma uploads_witness :
  file_exists (Server.files (snd (Demo.run_ok Demo.request Demo.world)))
    "uploads/image-1.png" = false
  /\ file_exists (Server.files (snd (Demo.run_ok Demo.request Demo.world)))
       "uploads/audio-1.wav" = false.
Proof.
  destruct (Demo.run_ok Demo.request Demo.world) as [resp w'] eqn:E.
  pose proof E as E2. vm_compute in E2. injection E2 as Hresp _.
  rewrite <- Hresp in E.
  destruct (HandlerFacts.success_means_both_uploads_were_removed
              Demo.extractText Demo.sha256 (Some Demo.speech) WordTokenizer
              Demo.python Demo.storage_up Demo.createFIR Demo.setVerification
              None None "2024-01-01T00:00:00.000Z"%string
              Demo.request Demo.world w' _ E)
    as (i & a & before & Hi & Ha & _ & _ & _ & _ & _ & Hgone_i & Hgone_a).
  injection Hi as <-. injection Ha as <-.
  cbn [snd]. split; [exact Hgone_i|exact Hgone_a].
Defined.



Lemma client_pages_witness :
  Blockchain.getAllFIRs Demo.toUint256 (Some 5) (Some (-1)) Demo.chain
  = (Ok (map (view Demo.chain) [1; 2]), Demo.chain).
Proof.
  pose proof (ClientFacts.client_pages_through_the_records Demo.toUint256
                "gov"%string Demo.history 5 (-1) ltac:(computed)
                ltac:(computed) ltac:(computed)) as H.
  cbv zeta in H.
  assert (Henc : Blockchain.encodes Demo.toUint256
                   (ids_from (-1 + 1)
                      (Z.to_nat (Z.min 5 (firCounter Demo.chain - -1))))).
  { intros z Hz. vm_compute in Hz.
    destruct Hz as [<-|[<-|[<-|[]]]]; reflexivity. }
  destruct (H Henc) as (_ & H2 & _). apply H2. lia.
Defined.

End MoreExamples.
